(** * vuetify-loader: the styles plugin of the Vite integration

    A shallow embedding of [packages/vite-plugin/src/stylesPlugin.ts].

    The plugin is a closure over a handful of mutable variables ([files],
    [needsTouch], [blockingModules], [promise], [resolve], [timeout],
    [tempFiles], ...) whose hooks are asynchronous functions.  The embedding
    has three layers:

    - string helpers: the regular expressions and the [upath] functions the
      hooks use, as executable functions on [string];
    - the synchronous pieces of every hook, as functions on the record of
      closure variables;
    - the event loop: promises of settle cycles with their reaction lists,
      the FIFO microtask queue, timers, and the continuations of the
      asynchronous functions as first-order jobs.

    Strings are sequences of 8-bit code units; [U+2028] and [U+2029] (the two
    line terminators above Latin-1) are outside this alphabet. *)

From Stdlib Require Import Ascii String.
From stdpp Require Import gmap strings list fin_maps.

#[local] Set Warnings "-clear-no-such-hyp".


(** ** Strings *)

Module Str.

Definition nul : ascii := "000"%char.
Definition lf : ascii := "010"%char.
Definition cr : ascii := "013"%char.

(** [s.startsWith(p)] *)
Definition startsWith (p s : string) : bool := String.prefix p s.

(** [s.slice(n)] for [0 <= n] *)
Fixpoint slice (n : nat) (s : string) : string :=
  match n, s with
  | 0, _ => s
  | S n', String _ s' => slice n' s'
  | S _, EmptyString => EmptyString
  end.

(** the first [n] code units of [s] *)
Fixpoint take (n : nat) (s : string) : string :=
  match n, s with
  | S n', String a s' => String a (take n' s')
  | _, _ => EmptyString
  end.

(** [s.length] *)
Definition len (s : string) : nat := String.length s.

(** [s.endsWith(p)] *)
Definition endsWith (p s : string) : bool :=
  (len p <=? len s) && String.eqb (slice (len s - len p) s) p.

(** JavaScript truthiness of a string: only the empty string is falsy. *)
Definition truthy (s : string) : bool :=
  match s with EmptyString => false | String _ _ => true end.

(** The class [\w] of a regular expression without flags. *)
Definition is_word (a : ascii) : bool :=
  let n := nat_of_ascii a in
  ((48 <=? n) && (n <=? 57)) || ((65 <=? n) && (n <=? 90))
  || ((97 <=? n) && (n <=? 122)) || (n =? 95).

(** What [.] refuses in a regular expression without the [s] flag. *)
Definition is_line_terminator (a : ascii) : bool :=
  Ascii.eqb a lf || Ascii.eqb a cr.

(** No code unit of [s] is a line terminator: [/^.*$/.test(s)]. *)
Fixpoint one_line (s : string) : bool :=
  match s with
  | EmptyString => true
  | String a s' => negb (is_line_terminator a) && one_line s'
  end.

(** [s.split(c)] for a one-character separator. *)
Fixpoint split (c : ascii) (s : string) : list string :=
  match s with
  | EmptyString => [EmptyString]
  | String a s' =>
      if Ascii.eqb a c then EmptyString :: split c s'
      else match split c s' with
           | [] => [String a EmptyString]
           | x :: xs => String a x :: xs
           end
  end.

(** [l.join(sep)] *)
Fixpoint join (sep : string) (l : list string) : string :=
  match l with
  | [] => EmptyString
  | [x] => x
  | x :: xs => x +:+ sep +:+ join sep xs
  end.

End Str.

(** ** Regular expressions of the plugin *)

Module Re.

(** [/\w\.(s[ac]|c)ss/.test(s)]: somewhere in [s] a word character is
    followed by [.sass], [.scss] or [.css]. *)
Fixpoint stylesheet (s : string) : bool :=
  match s with
  | EmptyString => false
  | String a s' =>
      (Str.is_word a
       && (Str.startsWith ".sass" s' || Str.startsWith ".scss" s'
           || Str.startsWith ".css" s'))
      || stylesheet s'
  end.

(** [/\/node_modules\/\.vite\/deps\/(?!vuetify[._])/.test(s)]: some
    occurrence of the dependency cache directory is not followed by
    [vuetify.] or [vuetify_]. *)
Fixpoint foreign_dep (s : string) : bool :=
  (Str.startsWith "/node_modules/.vite/deps/" s
   && negb (Str.startsWith "vuetify." (Str.slice 25 s)
            || Str.startsWith "vuetify_" (Str.slice 25 s)))
  || match s with
     | EmptyString => false
     | String _ s' => foreign_dep s'
     end.

(** [s.replace(/\.css$/, '.sass')] *)
Definition css_to_sass (s : string) : string :=
  if Str.endsWith ".css" s
  then Str.take (Str.len s - 4) s +:+ ".sass"
  else s.

(** The sentinel id the suppressed modules resolve to: [\0__void__]. *)
Definition void_id : string := String Str.nul "__void__".

(** The namespace of the virtual modules, without and with its colon. *)
Definition virtual_ns : string := String Str.nul "plugin-vuetify".
Definition virtual_prefix : string := String Str.nul "plugin-vuetify:".

(** The optional query group followed by the end anchor, matched at the
    start of [s]: [s] is empty, or a question mark followed by code units
    that [.] accepts up to the end. *)
Definition query_tail (s : string) : bool :=
  match s with
  | EmptyString => true
  | String a s' => Ascii.eqb a "?"%char && Str.one_line s'
  end.

(** The test of [load] for the sentinel: the anchored sentinel id followed
    by the optional query group and the end anchor. *)
Definition is_void (s : string) : bool :=
  Str.startsWith void_id s && query_tail (Str.slice (Str.len void_id) s).

(** The lazy first group followed by the optional query group and the end
    anchor, matched at the start of [s]: the lazy group takes one more code
    unit (never a line terminator) until the rest is a query tail; the
    result is the text of the first group. *)
Fixpoint lazy_key (s : string) : option string :=
  if query_tail s then Some EmptyString
  else match s with
       | EmptyString => None
       | String a s' =>
           if Str.is_line_terminator a then None
           else String a <$> lazy_key s'
       end.

(** The [exec] of [load] on a virtual id: the anchored prefix with its
    colon, then [lazy_key]; reduced to the first group, [None] being the
    [null] of a failed match. *)
Definition virtual_exec (s : string) : option string :=
  if Str.startsWith virtual_prefix s
  then lazy_key (Str.slice (Str.len virtual_prefix) s)
  else None.

End Re.

(** ** Paths

    The plugin imports [upath]: the POSIX functions of Node's [path] applied
    to arguments whose backslashes were turned into slashes.  [cwd] is the
    working directory of the process, which [relative] resolves relative
    paths against. *)

Module Path.

Definition toUnix (s : string) : string :=
  string_of_list_ascii
    (map (fun a => if Ascii.eqb a "\"%char then "/"%char else a)
         (list_ascii_of_string s)).

(** [path.isAbsolute(p)] *)
Definition isAbsolute (p : string) : bool := Str.startsWith "/" (toUnix p).

(** The non-empty components of a path. *)
Definition segments (p : string) : list string :=
  filter (fun x => Is_true (Str.truthy x)) (Str.split "/" (toUnix p)).

(** Node's [normalizeString]: [.] is dropped, [..] removes the component
    before it, or is kept ([allowAbove]) or dropped when there is none to
    remove.  [res] is the result so far, last component first. *)
Fixpoint normalizeSegs (allowAbove : bool) (res segs : list string)
  : list string :=
  match segs with
  | [] => rev res
  | seg :: rest =>
      if String.eqb seg "." then normalizeSegs allowAbove res rest
      else if String.eqb seg ".." then
        match res with
        | last :: res' =>
            if String.eqb last ".."
            then normalizeSegs allowAbove
                   (if allowAbove then seg :: res else res) rest
            else normalizeSegs allowAbove res' rest
        | [] => normalizeSegs allowAbove
                  (if allowAbove then [seg] else []) rest
        end
      else normalizeSegs allowAbove (seg :: res) rest
  end.

(** [path.normalize(p)] *)
Definition normalize (p : string) : string :=
  let p := toUnix p in
  if negb (Str.truthy p) then "." else
  let abs := Str.startsWith "/" p in
  let trailing := Str.endsWith "/" p in
  let body := Str.join "/" (normalizeSegs (negb abs) [] (segments p)) in
  if negb (Str.truthy body)
  then (if abs then "/" else if trailing then "./" else ".")
  else (if abs then "/" else "") +:+ body +:+ (if trailing then "/" else "").

(** [path.join(...parts)] *)
Definition join (parts : list string) : string :=
  let joined :=
    Str.join "/" (filter (fun x => Is_true (Str.truthy x)) parts) in
  if negb (Str.truthy joined) then "." else normalize joined.

(** [path.resolve(p)], as the list of components of the absolute result. *)
Definition resolve (cwd p : string) : list string :=
  normalizeSegs false []
    (if isAbsolute p then segments p else segments cwd ++ segments p).

(** What is left of [from] and [to] without their common leading
    components. *)
Fixpoint diverge (from to : list string) : list string * list string :=
  match from, to with
  | f :: from', t :: to' =>
      if String.eqb f t then diverge from' to' else (from, to)
  | _, _ => (from, to)
  end.

(** [path.relative(from, to)] *)
Definition relative (cwd from to : string) : string :=
  let '(up, down) := diverge (resolve cwd from) (resolve cwd to) in
  Str.join "/" (map (fun _ => "..") up ++ down).

End Path.

(** [isSubdir(root, test)], as the truthiness of what it returns. *)
Definition isSubdir (cwd root test : string) : bool :=
  let relative := Path.relative cwd root test in
  Str.truthy relative
  && negb (Str.startsWith ".." relative)
  && negb (Path.isAbsolute relative).

(** A path component as package managers make them: not empty, without a
    slash or a backslash, and neither [.] nor [..]. *)
Fixpoint unbroken (s : string) : bool :=
  match s with
  | EmptyString => true
  | String a s' =>
      negb (Ascii.eqb a "/"%char) && negb (Ascii.eqb a "\"%char)
      && unbroken s'
  end.

Definition component (s : string) : bool :=
  Str.truthy s && unbroken s
  && negb (String.eqb s ".") && negb (String.eqb s "..").

(** The absolute path made of components. *)
Definition absolute (segs : list string) : string :=
  "/" +:+ Str.join "/" segs.

(** ** Options and closure variables *)

(** [options.styles]: [true] or absent, ['none'], ['sass'], ['expose'], or an
    object with a [configFile]. *)
Inductive StylesOption :=
| StylesDefault
| StylesNone
| StylesSass
| StylesExpose
| StylesConfig (configFile : string).

Record Options := {
  styles : StylesOption;
  useLayers : bool;          (* [undefined] is falsy *)
  stylesTimeout : nat;
}.

(** The variables of the closure [stylesPlugin] returns.  A settle cycle is
    named by the index of the promise [awaitResolve] created for it;
    [resolve] names the cycle whose resolving function the variable holds,
    and [timeout] tells whether the timer the variable holds is still
    pending. *)
Record Plugin := {
  files : gset string;
  server : bool;
  context : bool;
  resolve : option nat;
  promise : option nat;
  needsTouch : bool;
  blockingModules : gset string;
  pendingModules : list (option string);
  timeout : bool;
  configFile : option string;
  tempFiles : gmap string string;
}.

Definition initial : Plugin := {|
  files := ∅; server := false; context := false; resolve := None;
  promise := None; needsTouch := false; blockingModules := ∅;
  pendingModules := []; timeout := false; configFile := None;
  tempFiles := ∅;
|}.

Definition set_files (x : gset string) (p : Plugin) : Plugin :=
  {| files := x; server := server p; context := context p;
     resolve := resolve p; promise := promise p; needsTouch := needsTouch p;
     blockingModules := blockingModules p;
     pendingModules := pendingModules p; timeout := timeout p;
     configFile := configFile p; tempFiles := tempFiles p |}.

Definition set_server (x : bool) (p : Plugin) : Plugin :=
  {| files := files p; server := x; context := context p;
     resolve := resolve p; promise := promise p; needsTouch := needsTouch p;
     blockingModules := blockingModules p;
     pendingModules := pendingModules p; timeout := timeout p;
     configFile := configFile p; tempFiles := tempFiles p |}.

Definition set_context (x : bool) (p : Plugin) : Plugin :=
  {| files := files p; server := server p; context := x;
     resolve := resolve p; promise := promise p; needsTouch := needsTouch p;
     blockingModules := blockingModules p;
     pendingModules := pendingModules p; timeout := timeout p;
     configFile := configFile p; tempFiles := tempFiles p |}.

Definition set_resolve (x : option nat) (p : Plugin) : Plugin :=
  {| files := files p; server := server p; context := context p;
     resolve := x; promise := promise p; needsTouch := needsTouch p;
     blockingModules := blockingModules p;
     pendingModules := pendingModules p; timeout := timeout p;
     configFile := configFile p; tempFiles := tempFiles p |}.

Definition set_promise (x : option nat) (p : Plugin) : Plugin :=
  {| files := files p; server := server p; context := context p;
     resolve := resolve p; promise := x; needsTouch := needsTouch p;
     blockingModules := blockingModules p;
     pendingModules := pendingModules p; timeout := timeout p;
     configFile := configFile p; tempFiles := tempFiles p |}.

Definition set_needsTouch (x : bool) (p : Plugin) : Plugin :=
  {| files := files p; server := server p; context := context p;
     resolve := resolve p; promise := promise p; needsTouch := x;
     blockingModules := blockingModules p;
     pendingModules := pendingModules p; timeout := timeout p;
     configFile := configFile p; tempFiles := tempFiles p |}.

Definition set_blockingModules (x : gset string) (p : Plugin) : Plugin :=
  {| files := files p; server := server p; context := context p;
     resolve := resolve p; promise := promise p; needsTouch := needsTouch p;
     blockingModules := x;
     pendingModules := pendingModules p; timeout := timeout p;
     configFile := configFile p; tempFiles := tempFiles p |}.

Definition set_pendingModules (x : list (option string)) (p : Plugin)
  : Plugin :=
  {| files := files p; server := server p; context := context p;
     resolve := resolve p; promise := promise p; needsTouch := needsTouch p;
     blockingModules := blockingModules p;
     pendingModules := x; timeout := timeout p;
     configFile := configFile p; tempFiles := tempFiles p |}.

Definition set_timeout (x : bool) (p : Plugin) : Plugin :=
  {| files := files p; server := server p; context := context p;
     resolve := resolve p; promise := promise p; needsTouch := needsTouch p;
     blockingModules := blockingModules p;
     pendingModules := pendingModules p; timeout := x;
     configFile := configFile p; tempFiles := tempFiles p |}.

Definition set_configFile (x : option string) (p : Plugin) : Plugin :=
  {| files := files p; server := server p; context := context p;
     resolve := resolve p; promise := promise p; needsTouch := needsTouch p;
     blockingModules := blockingModules p;
     pendingModules := pendingModules p; timeout := timeout p;
     configFile := x; tempFiles := tempFiles p |}.

Definition set_tempFiles (x : gmap string string) (p : Plugin) : Plugin :=
  {| files := files p; server := server p; context := context p;
     resolve := resolve p; promise := promise p; needsTouch := needsTouch p;
     blockingModules := blockingModules p;
     pendingModules := pendingModules p; timeout := timeout p;
     configFile := configFile p; tempFiles := x |}.

(** A value or the exception a piece of code ends with. *)
Inductive Completion (A : Type) :=
| Returns (a : A)
| Throws_TypeError.
Arguments Returns {A} a.
Arguments Throws_TypeError {A}.

(** ** The module graphs of the host *)

Module Rollup.

(** What [context.getModuleInfo(id)] tells about a module of a build:
    [code] is [null] until the module is loaded. *)
Record ModuleInfo := {
  id : string;
  code : option string;
}.

(** The plugin context of a build. *)
Record PluginContext := {
  getModuleIds : list string;
  getModuleInfo : string -> option ModuleInfo;
}.

End Rollup.

Module Vite.

(** A module of the dev server; of each importer only its [file] is
    read. *)
Record ModuleNode := {
  id : option string;
  transformResult : option string;
  importers : list (option string);
}.

(** [server.moduleGraph] *)
Record ModuleGraph := {
  urlToModuleMap : list (string * ModuleNode);
  getModulesByFile : string -> option (list ModuleNode);
}.

End Vite.

(** The host as the plugin sees it at one moment. *)
Record Host := {
  build : Rollup.PluginContext;
  dev : Vite.ModuleGraph;
}.

(** ** The hooks, one synchronous piece at a time *)

Section Hooks.

Variable options : Options.
(** [resolveVuetifyBase()] *)
Variable vuetifyBase : string.
(** [process.cwd()] *)
Variable cwd : string.

Definition dquote : string := String "034"%char "".
Definition newline : string := String Str.lf "".

(** A template literal prints [undefined] for a variable never assigned. *)
Definition template (x : option string) : string :=
  match x with Some s => s | None => "undefined" end.

Definition scssFileContents (useLayers : bool) (configFile : option string)
    (target : string) : string :=
  if useLayers then
    "@use 'sass:meta';" +:+ newline +:+ " @use " +:+ dquote
    +:+ template configFile +:+ ";" +:+ newline
    +:+ " @layer framework {" +:+ newline
    +:+ " @include meta.load-css(" +:+ dquote +:+ target +:+ dquote +:+ ");"
    +:+ newline +:+ " }" +:+ newline
  else
    "@use " +:+ dquote +:+ template configFile +:+ dquote +:+ newline
    +:+ "@use " +:+ dquote +:+ target +:+ dquote.

(** [configureServer(_server)] *)
Definition configureServer (p : Plugin) : Plugin := set_server true p.

(** [buildStart()] *)
Definition buildStart (p : Plugin) : Plugin :=
  if server p then p else set_context true p.

(** [configResolved(config)], [root] being [config.root] *)
Definition configResolved (root : string) (p : Plugin) : Plugin :=
  match styles options with
  | StylesConfig file =>
      if Path.isAbsolute file then set_configFile (Some file) p
      else set_configFile
             (Some (Path.join [if Str.truthy root then root else cwd; file]))
             p
  | _ => p
  end.

(** The block of [resolveId] that adds a resolved source to [files]. *)
Definition registerFragment (path : string) (p : Plugin) : Plugin :=
  if decide (path ∈ files p) then p
  else set_files ({[path]} ∪ files p) (set_needsTouch true p).

(** The first condition of [resolveId]. *)
Definition isStyleEntry (source : string) (importer : option string)
  : bool :=
  String.eqb source "vuetify/styles"
  || match importer with
     | Some importer =>
         Str.truthy importer
         && Str.endsWith ".css" source
         && isSubdir cwd vuetifyBase
              (if Path.isAbsolute source then source else importer)
     | None => false
     end.

(** [resolveId] up to its first [await], or to its end when it has none. *)
Inductive Resolving :=
| Resolved (result : option string)
    (* returned without asking the host *)
| Passthrough (target : string)
    (* the host's resolution of [target] is what is returned *)
| Expose (target : string)
    (* [awaitResolve()] was called and not awaited; the host's resolution
       of [target] is awaited *)
| Configured (source : string).
    (* the host's resolution of [source] is awaited *)

Definition resolveId_begin (source : string) (importer : option string)
  : Resolving :=
  if isStyleEntry source importer then
    match styles options with
    | StylesNone => Resolved (Some Re.void_id)
    | StylesSass => Passthrough (Re.css_to_sass source)
    | StylesExpose => Expose (Re.css_to_sass source)
    | StylesConfig _ => Configured source
    | StylesDefault => Resolved None
    end
  else if Str.startsWith "/plugin-vuetify:" source then
    Resolved (Some (String Str.nul (Str.slice 1 source)))
  else if Str.startsWith "/@id/__x00__plugin-vuetify:" source then
    Resolved (Some (String Str.nul (Str.slice 12 source)))
  else Resolved None.

(** The virtual key of a resolved file. *)
Definition virtualKey (resolved : string) : string :=
  Path.relative cwd (Path.join [vuetifyBase; "lib"])
    (Re.css_to_sass resolved).

(** [resolveId] after its [await] in mode ['expose']: [resolution] is the
    id of what the host resolved, [None] for [null]. *)
Definition resolveId_expose (resolution : option string) (p : Plugin)
  : Plugin * option string :=
  match resolution with
  | Some file => (registerFragment file p, Some Re.void_id)
  | None => (p, None)
  end.

(** [resolveId] after its [await] when [options.styles] is an object. *)
Definition resolveId_configured (resolution : option string) (p : Plugin)
  : Plugin * option string :=
  match resolution with
  | None => (p, None)
  | Some resolved =>
      let target := Re.css_to_sass resolved in
      let file := virtualKey resolved in
      let contents :=
        scssFileContents (useLayers options) (configFile p) target in
      (set_tempFiles (<[file := contents]> (tempFiles p)) p,
       Some (Re.virtual_prefix +:+ file))
  end.

(** What [load] returns. *)
Inductive Loaded :=
| Text (s : string)
| Undefined
| Null.

(** [load(id)] *)
Definition load (p : Plugin) (id : string) : Completion Loaded :=
  if Re.is_void id then Returns (Text "")
  else if Str.startsWith Re.virtual_ns id then
    match Re.virtual_exec id with
    | None => Throws_TypeError        (* [null[1]] *)
    | Some file =>
        match tempFiles p !! file with
        | Some contents => Returns (Text contents)
        | None => Returns Undefined
        end
    end
  else Returns Null.

End Hooks.

(** ** The graph probe and the touch of the finalizer *)

Section Probe.

Variable cacheFile : string.

(** The modules [getPendingModules] keeps in a build; a module id without
    module info makes the second filter read [code] of [null]. *)
Definition pendingBuild (blocking : gset string)
    (ctx : Rollup.PluginContext) : Completion (list Rollup.ModuleInfo) :=
  let ids :=
    filter (fun id => (id ∉ blocking) ∧ ¬ Is_true (Re.stylesheet id))
           (Rollup.getModuleIds ctx) in
  match mapM (Rollup.getModuleInfo ctx) ids with
  | None => Throws_TypeError
  | Some modules =>
      Returns (filter (fun m => Rollup.code m = None) modules)
  end.

(** [blockingModules.has(v.id!)]: a set of strings has no [null]. *)
Definition blocks (blocking : gset string) (id : option string) : bool :=
  match id with
  | Some id => bool_decide (id ∈ blocking)
  | None => false
  end.

(** The entries [getPendingModules] keeps under the dev server. *)
Definition pendingDev (blocking : gset string) (g : Vite.ModuleGraph)
  : list (string * Vite.ModuleNode) :=
  filter (fun kv =>
            Vite.transformResult kv.2 = None
            ∧ ¬ Is_true (Str.startsWith "/@id/" kv.1)
            ∧ ¬ Is_true (Re.stylesheet kv.1)
            ∧ ¬ Is_true (blocks blocking (Vite.id kv.2))
            ∧ ¬ Is_true (Re.foreign_dep kv.1))
         (Vite.urlToModuleMap g).

(** The files [awaitResolve] touches when [server && needsTouch]: the
    truthy [file] of every importer of every module of the cache file. *)
Definition touched (g : Vite.ModuleGraph) : list string :=
  match Vite.getModulesByFile g cacheFile with
  | None => []
  | Some modules =>
      modules ≫= (fun m =>
        Vite.importers m ≫= (fun file =>
          match file with
          | Some f => if Str.truthy f then [f] else []
          | None => []
          end))
  end.

(** The end of [awaitResolve] after [await writeStyles(files)]: the files
    touched, and the variables afterwards. *)
Definition finalize (g : Vite.ModuleGraph) (p : Plugin)
  : list string * Plugin :=
  let '(touches, p) :=
    if server p && needsTouch p
    then (touched g, set_needsTouch false p)
    else ([], p) in
  (touches, set_promise None p).

End Probe.

(** ** The import [transform] rewrites

    [styleImportRegexp]: [@use ] or [meta.load-css(], a quote, [vuetify]
    with the optional [/lib] and the optional [/styles], [/styles/main] or
    [/styles/main.sass], and a quote. *)

Module StyleImport.

Definition keywords : list string := ["@use "; "meta.load-css("].

Definition targets : list string :=
  lib ← [""; "/lib"];
  tail ← [""; "/styles"; "/styles/main"; "/styles/main.sass"];
  ["vuetify" +:+ lib +:+ tail].

Definition is_quote (a : ascii) : bool :=
  Ascii.eqb a "'"%char || Ascii.eqb a "034"%char.

Definition quoted (s : string) : bool :=
  match s with
  | String a _ => is_quote a
  | EmptyString => false
  end.

(** The match that starts at the first code unit of [s]: its first group
    and what follows the match. *)
Definition matchAt (s : string) : option (string * string) :=
  head (kw ← keywords;
        if Str.startsWith kw s && quoted (Str.slice (Str.len kw) s) then
          let s1 := Str.slice (S (Str.len kw)) s in
          t ← targets;
          if Str.startsWith t s1 && quoted (Str.slice (Str.len t) s1)
          then [(kw, Str.slice (S (Str.len t)) s1)]
          else []
        else []).

(** [styleImportRegexp.test(code)] *)
Fixpoint test (code : string) : bool :=
  match matchAt code with
  | Some _ => true
  | None =>
      match code with
      | EmptyString => false
      | String _ rest => test rest
      end
  end.

(** [code.replace(styleImportRegexp, '$1".cache/vuetify/styles.scss"')] *)
Fixpoint replace (code : string) : string :=
  match matchAt code with
  | Some (kw, rest) =>
      kw +:+ String "034"%char ".cache/vuetify/styles.scss"
      +:+ String "034"%char rest
  | None =>
      match code with
      | EmptyString => EmptyString
      | String a rest => String a (replace rest)
      end
  end.

End StyleImport.

Section Transform.

Variable options : Options.

(** The test of [transform]: whether it calls [awaitResolve(id)]. *)
Definition transform_begin (code id : string) : bool :=
  match styles options with
  | StylesExpose =>
      existsb (fun v => Str.endsWith v id) [".scss"; ".sass"]
      && StyleImport.test code
  | _ => false
  end.

(** What [transform] returns as [code] once [awaitResolve(id)] is done. *)
Definition transform_end (code : string) : string :=
  StyleImport.replace code.

End Transform.

(** ** The event loop

    JavaScript runs one job at a time.  A promise is fulfilled once; the
    reactions subscribed to it so far are then appended to the microtask
    queue in the order of their subscription, and a reaction subscribed to a
    promise already fulfilled is appended at once.  The continuation of an
    asynchronous function after an [await] is such a reaction.

    The host is free: it calls the hooks, changes its module graphs and
    settles what the plugin waits for ([this.resolve], [context.load],
    [server.transformRequest], [writeStyles]) at any moment between two
    jobs, with any outcome.  Timers are the exception: one fires only when
    the queue is empty.  The duration [stylesTimeout] is not modelled: the
    timer of [awaitBlocking] may fire whenever it is pending.  What the timer
    logs of the dev server ([server._pendingRequests]) is left out. *)

(** The values that travel through the barrier. *)
Inductive Value :=
| VFalse
| VNull
| VNum (n : nat).

Definition truthy (v : Value) : bool :=
  match v with
  | VNum (S _) => true
  | _ => false
  end.

(** Who waits for the promise of a settle cycle. *)
Inductive Reaction :=
| OnAny (r : nat)
    (* [Promise.any] of round [r] of [awaitBlocking] *)
| OnFirst (k : nat) (awaited : bool)
    (* [await promise] of the call of [awaitResolve] that made the cycle *)
| OnJoin (k : nat) (awaited : bool).
    (* the promise of a call of [awaitResolve] that ended in
       [return promise] *)

Inductive PromiseState :=
| Pending (reactions : list Reaction)
| Fulfilled (v : Value)
| Rejected.

(** The jobs of the microtask queue.  [c] names a settle cycle, [k] a call
    of [awaitResolve], [r] a round of [awaitBlocking]; [awaited] tells
    whether the caller awaits the call ([transform]) or not ([resolveId]). *)
Inductive Job :=
| AnyElement (r : nat) (v : Value)
    (* [Promise.any]: one of the two promises fulfilled with [v] *)
| AnyRejected (r : nat)
    (* [Promise.any]: the promise of [getPendingModules] rejected *)
| Loop (r : nat) (v : Value)
    (* [awaitBlocking] after [await Promise.any] *)
| Scan (r : nat)
    (* [getPendingModules] after its zero timer, in a build *)
| Raced (r n : nat) (ok : bool)
    (* [getPendingModules] after [await Promise.race(promises)] *)
| First (c k : nat) (awaited : bool)
    (* [awaitResolve] after [await promise] *)
| Written (c k : nat) (awaited ok : bool)
    (* [awaitResolve] after [await writeStyles(files)] *)
| Adopt (c k : nat) (awaited : bool)
    (* the promise of call [k] subscribes to the promise it was resolved
       with *)
| Joined (c k : nat) (awaited : bool) (v : Value)
    (* the promise of call [k] is fulfilled with the value of cycle [c] *)
| Caller (c k : nat) (outcome : option Value).
    (* the caller continues after [await awaitResolve(id)]; [None] is the
       exception of a rejected call *)

(** What the plugin does to the outside, and what its callers see. *)
Inductive Effect :=
| ContextLoad (id : string)
| TransformRequest (url : string)
| FallbackTimeout (blocking : gset string) (pending : list (option string))
| WriteStyles (c : nat) (files : gset string)
| Utimes (file : string)
| Resumed (c k : nat) (v : Value)
| Raised (c k : nat)
| ResolveIdReturned (result : option string).

(** [getPendingModules] of a round: waiting for its zero timer, scanning
    after it, waiting for the race of its [n] requests, or done. *)
Inductive Probe :=
| ZeroTimer
| Scanning
| Racing (n : nat)
| Returned.

Record Round := {
  anySettled : bool;
  probe : Probe;
}.

Record World := {
  vars : Plugin;
  host : Host;
  promises : list PromiseState;      (* one promise for each settle cycle *)
  rounds : list Round;
  queue : list Job;
  writes : list (nat * nat * bool);  (* [writeStyles] not settled yet: the
                                        cycle, the call, whether awaited *)
  resolutions : list Resolving;      (* [resolveId] waiting for the host *)
  calls : nat;                       (* calls of [awaitResolve] so far *)
  trace : list Effect;               (* the latest effect first *)
}.

Definition boot (h : Host) : World := {|
  vars := initial; host := h; promises := []; rounds := []; queue := [];
  writes := []; resolutions := []; calls := 0; trace := [];
|}.

Definition set_vars (x : Plugin) (w : World) : World :=
  {| vars := x; host := host w; promises := promises w; rounds := rounds w;
     queue := queue w; writes := writes w; resolutions := resolutions w;
     calls := calls w; trace := trace w |}.

Definition set_host (x : Host) (w : World) : World :=
  {| vars := vars w; host := x; promises := promises w; rounds := rounds w;
     queue := queue w; writes := writes w; resolutions := resolutions w;
     calls := calls w; trace := trace w |}.

Definition set_promises (x : list PromiseState) (w : World) : World :=
  {| vars := vars w; host := host w; promises := x; rounds := rounds w;
     queue := queue w; writes := writes w; resolutions := resolutions w;
     calls := calls w; trace := trace w |}.

Definition set_rounds (x : list Round) (w : World) : World :=
  {| vars := vars w; host := host w; promises := promises w; rounds := x;
     queue := queue w; writes := writes w; resolutions := resolutions w;
     calls := calls w; trace := trace w |}.

Definition set_queue (x : list Job) (w : World) : World :=
  {| vars := vars w; host := host w; promises := promises w;
     rounds := rounds w; queue := x; writes := writes w;
     resolutions := resolutions w; calls := calls w; trace := trace w |}.

Definition set_writes (x : list (nat * nat * bool)) (w : World) : World :=
  {| vars := vars w; host := host w; promises := promises w;
     rounds := rounds w; queue := queue w; writes := x;
     resolutions := resolutions w; calls := calls w; trace := trace w |}.

Definition set_resolutions (x : list Resolving) (w : World) : World :=
  {| vars := vars w; host := host w; promises := promises w;
     rounds := rounds w; queue := queue w; writes := writes w;
     resolutions := x; calls := calls w; trace := trace w |}.

Definition set_calls (x : nat) (w : World) : World :=
  {| vars := vars w; host := host w; promises := promises w;
     rounds := rounds w; queue := queue w; writes := writes w;
     resolutions := resolutions w; calls := x; trace := trace w |}.

Definition set_trace (x : list Effect) (w : World) : World :=
  {| vars := vars w; host := host w; promises := promises w;
     rounds := rounds w; queue := queue w; writes := writes w;
     resolutions := resolutions w; calls := calls w; trace := x |}.

Definition update (f : Plugin -> Plugin) (w : World) : World :=
  set_vars (f (vars w)) w.

Definition enqueue (j : Job) (w : World) : World :=
  set_queue (queue w ++ [j]) w.

Definition emit (e : Effect) (w : World) : World :=
  set_trace (e :: trace w) w.

Definition emits (es : list Effect) (w : World) : World :=
  set_trace (rev es ++ trace w) w.

(** The job a reaction of the promise of cycle [c] becomes when the promise
    is fulfilled with [v]. *)
Definition react (c : nat) (v : Value) (x : Reaction) : Job :=
  match x with
  | OnAny r => AnyElement r v
  | OnFirst k awaited => First c k awaited
  | OnJoin k awaited => Joined c k awaited v
  end.

(** The resolving function of the promise of cycle [c], called with [v]. *)
Definition fulfil (c : nat) (v : Value) (w : World) : World :=
  match promises w !! c with
  | Some (Pending reactions) =>
      set_queue (queue w ++ map (react c v) reactions)
        (set_promises (<[c := Fulfilled v]> (promises w)) w)
  | _ => w
  end.

(** [then] on the promise of cycle [c].  No code holds the rejecting
    function of such a promise. *)
Definition subscribe (c : nat) (x : Reaction) (w : World) : World :=
  match promises w !! c with
  | Some (Pending reactions) =>
      set_promises (<[c := Pending (reactions ++ [x])]> (promises w)) w
  | Some (Fulfilled v) => enqueue (react c v x) w
  | _ => w
  end.

(** [resolve(false)] *)
Definition resolveFalse (w : World) : World :=
  match resolve (vars w) with
  | Some c => fulfil c VFalse w
  | None => w
  end.

(** ** The asynchronous functions, job by job *)

Section Loop.

Variable options : Options.
Variable vuetifyBase : string.
Variable cwd : string.
Variable cacheFile : string.

Definition set_probe (r : nat) (p : Probe) (w : World) : World :=
  set_rounds
    (alter (fun x => {| anySettled := anySettled x; probe := p |}) r
           (rounds w)) w.

(** [getPendingModules()] up to its first [await], or to [return 0]. *)
Definition getPendingModules (w : World) : World * Probe :=
  if server (vars w) then
    let modules := pendingDev (blockingModules (vars w)) (dev (host w)) in
    let w :=
      update (set_pendingModules (map (fun kv => Vite.id kv.2) modules)) w in
    match modules with
    | [] => (w, Returned)
    | _ :: _ =>
        (emits (map (fun kv => TransformRequest kv.1) modules) w,
         Racing (length modules))
    end
  else (w, ZeroTimer).

(** [getPendingModules] of round [r] in a build, from its zero timer to
    [await Promise.race(promises)] or to its end. *)
Definition scan (r : nat) (w : World) : World :=
  if context (vars w) then
    match pendingBuild (blockingModules (vars w)) (build (host w)) with
    | Throws_TypeError => enqueue (AnyRejected r) (set_probe r Returned w)
    | Returns modules =>
        let w :=
          update (set_pendingModules
                    (map (fun m => Some (Rollup.id m)) modules)) w in
        match modules with
        | [] => enqueue (AnyElement r (VNum 0)) (set_probe r Returned w)
        | _ :: _ =>
            set_probe r (Racing (length modules))
              (emits (map (fun m => ContextLoad (Rollup.id m)) modules) w)
        end
    end
  else enqueue (AnyRejected r) (set_probe r Returned w).

(** One round of the loop of [awaitBlocking], from [do] to
    [await Promise.any]: the timer is replaced, the array is built (the
    variable [promise] is read, then [getPendingModules()] is called), and
    [Promise.any] subscribes to both promises in this order. *)
Definition awaitBlocking (w : World) : World :=
  let w := update (set_timeout true) w in
  let r := length (rounds w) in
  let first := promise (vars w) in
  let '(w, p) := getPendingModules w in
  let w := set_rounds (rounds w ++ [{| anySettled := false; probe := p |}]) w in
  let w :=
    match first with
    | Some c => subscribe c (OnAny r) w
    | None => enqueue (AnyElement r VNull) w
    end in
  match p with
  | Returned => enqueue (AnyElement r (VNum 0)) w
  | _ => w
  end.

(** [Promise.any] of round [r] takes the first value it is given. *)
Definition settleAny (r : nat) (v : Value) (w : World) : World :=
  match rounds w !! r with
  | Some x =>
      if anySettled x then w
      else enqueue (Loop r v)
             (set_rounds
                (<[r := {| anySettled := true; probe := probe x |}]>
                   (rounds w)) w)
  | None => w
  end.

(** [awaitResolve(id)] up to its first [await], or to [return promise]. *)
Definition awaitResolve (id : option string) (awaited : bool) (w : World)
  : World :=
  let k := calls w in
  let w := set_calls (S k) w in
  let w :=
    match id with
    | Some id =>
        if Str.truthy id
        then update (fun p =>
               set_blockingModules ({[id]} ∪ blockingModules p) p) w
        else w
    | None => w
    end in
  match promise (vars w) with
  | None =>
      let c := length (promises w) in
      let w := set_promises (promises w ++ [Pending []]) w in
      let w :=
        update (fun p => set_promise (Some c) (set_resolve (Some c) p)) w in
      let w := awaitBlocking w in
      subscribe c (OnFirst k awaited) w
  | Some c => enqueue (Adopt c k awaited) w
  end.

(** A job of the microtask queue runs. *)
Definition run (j : Job) (w : World) : World :=
  match j with
  | AnyElement r v => settleAny r v w
  | AnyRejected r => w
  | Loop r v => if truthy v then awaitBlocking w else resolveFalse w
  | Scan r => scan r w
  | Raced r n ok =>
      enqueue (if ok then AnyElement r (VNum n) else AnyRejected r) w
  | First c k awaited =>
      let w :=
        update (fun p => set_blockingModules ∅ (set_timeout false p)) w in
      set_writes (writes w ++ [(c, k, awaited)])
        (emit (WriteStyles c (files (vars w))) w)
  | Written c k awaited ok =>
      if ok then
        let '(touches, p) := finalize cacheFile (dev (host w)) (vars w) in
        let w := emits (map Utimes touches) (set_vars p w) in
        if awaited then enqueue (Caller c k (Some VNull)) w else w
      else
        if awaited then enqueue (Caller c k None) w else w
  | Adopt c k awaited => subscribe c (OnJoin k awaited) w
  | Joined c k awaited v =>
      if awaited then enqueue (Caller c k (Some v)) w else w
  | Caller c k (Some v) => emit (Resumed c k v) w
  | Caller c k None => emit (Raised c k) w
  end.

(** What happens to the plugin: the host calls a hook, settles something
    the plugin waits for, lets a timer fire, or lets the next job run. *)
Inductive Event :=
| ConfigureServer
| BuildStart
| ConfigResolved (root : string)
| HostChanged (h : Host)
| Transform (code id : string)
| ResolveId (source : string) (importer : option string)
| HostResolved (i : nat) (resolution : option string)
| Tick
| Watchdog
| ZeroTimerFired (r : nat)
| RaceSettled (r : nat) (ok : bool)
| WriteSettled (i : nat) (ok : bool).

(** [resolveId(source, importer)] up to its first [await]. *)
Definition resolveId (source : string) (importer : option string)
    (w : World) : World :=
  match resolveId_begin options vuetifyBase cwd source importer with
  | Resolved result => emit (ResolveIdReturned result) w
  | Expose target =>
      set_resolutions (resolutions w ++ [Expose target])
        (awaitResolve None false w)
  | pending => set_resolutions (resolutions w ++ [pending]) w
  end.

(** [resolveId] after its [await]. *)
Definition resolved (pending : Resolving) (resolution : option string)
    (w : World) : World :=
  match pending with
  | Resolved _ => w
  | Passthrough _ => emit (ResolveIdReturned resolution) w
  | Expose _ =>
      let '(p, result) := resolveId_expose resolution (vars w) in
      emit (ResolveIdReturned result) (set_vars p w)
  | Configured _ =>
      let '(p, result) :=
        resolveId_configured options vuetifyBase cwd resolution (vars w) in
      emit (ResolveIdReturned result) (set_vars p w)
  end.

(** Timers fire between tasks, when no job is left in the queue. *)
Definition idle (w : World) : bool :=
  match queue w with [] => true | _ :: _ => false end.

Definition step (w : World) (e : Event) : World :=
  match e with
  | ConfigureServer => update configureServer w
  | BuildStart => update buildStart w
  | ConfigResolved root => update (configResolved options cwd root) w
  | HostChanged h => set_host h w
  | Transform code id =>
      if transform_begin options code id
      then awaitResolve (Some id) true w
      else w
  | ResolveId source importer => resolveId source importer w
  | HostResolved i resolution =>
      match resolutions w !! i with
      | Some pending =>
          resolved pending resolution
            (set_resolutions (delete i (resolutions w)) w)
      | None => w
      end
  | Tick =>
      match queue w with
      | j :: q => run j (set_queue q w)
      | [] => w
      end
  | Watchdog =>
      if timeout (vars w) && idle w then
        resolveFalse
          (emit (FallbackTimeout (blockingModules (vars w))
                   (pendingModules (vars w)))
             (update (set_timeout false) w))
      else w
  | ZeroTimerFired r =>
      match probe <$> rounds w !! r with
      | Some ZeroTimer =>
          if idle w then enqueue (Scan r) (set_probe r Scanning w) else w
      | _ => w
      end
  | RaceSettled r ok =>
      match probe <$> rounds w !! r with
      | Some (Racing n) => enqueue (Raced r n ok) (set_probe r Returned w)
      | _ => w
      end
  | WriteSettled i ok =>
      match writes w !! i with
      | Some (c, k, awaited) =>
          enqueue (Written c k awaited ok)
            (set_writes (delete i (writes w)) w)
      | None => w
      end
  end.

Definition steps (w : World) (es : list Event) : World :=
  foldl step w es.

End Loop.

(** ** Small hosts and options for the examples *)

Definition noModules : Host := {|
  build := {| Rollup.getModuleIds := [];
              Rollup.getModuleInfo := fun _ => None |};
  dev := {| Vite.urlToModuleMap := [];
            Vite.getModulesByFile := fun _ => None |};
|}.

Definition exposeOptions : Options :=
  {| styles := StylesExpose; useLayers := false; stylesTimeout := 1000 |}.

Definition configuredOptions : Options :=
  {| styles := StylesConfig "src/settings.scss"; useLayers := false;
     stylesTimeout := 1000 |}.

Definition oneModule : Host := {|
  build := {| Rollup.getModuleIds := ["/app/src/main.js"];
              Rollup.getModuleInfo := fun id =>
                Some {| Rollup.id := id; Rollup.code := None |} |};
  dev := {| Vite.urlToModuleMap := [];
            Vite.getModulesByFile := fun _ => None |};
|}.

(** The start of a build whose entry imports the styles of the library, up
    to the zero timer of the first probe. *)
Definition probing : list Event :=
  [BuildStart; Transform "@use 'vuetify/styles';" "/app/src/main.scss";
   ZeroTimerFired 0].

(** A build in which two style sheets import the styles of the library:
    the second call of [awaitResolve] joins the cycle of the first, the
    timer of [awaitBlocking] fires, and [writeStyles] is fulfilled. *)
Definition settling : list Event :=
  [BuildStart;
   Transform "@use 'vuetify/styles';" "/app/src/main.scss";
   Transform "@use 'vuetify';" "/app/src/other.scss";
   Tick; Watchdog; Tick; Tick; Tick; Tick; Tick;
   WriteSettled 0 true; Tick; Tick].





(** ** Invariants of the event loop *)

(** The cycles whose [writeStyles] call is in the trace. *)
Fixpoint writtenCycles (t : list Effect) : list nat :=
  match t with
  | [] => []
  | WriteStyles c _ :: t' => c :: writtenCycles t'
  | _ :: t' => writtenCycles t'
  end.

(** Every caller that got past its [await awaitResolve(id)], with a value or
    with an exception, did so after the [writeStyles] call of its cycle. *)
Fixpoint writeBeforeResume (t : list Effect) : Prop :=
  match t with
  | [] => True
  | Resumed c _ _ :: t' => c ∈ writtenCycles t' ∧ writeBeforeResume t'
  | Raised c _ :: t' => c ∈ writtenCycles t' ∧ writeBeforeResume t'
  | _ :: t' => writeBeforeResume t'
  end.

(** A queue is safe when each job that lets a caller of cycle [c] go on
    comes after the job that calls [writeStyles] for [c], or [c] is among
    the cycles [done] already. *)
Fixpoint safe (done : list nat) (q : list Job) : Prop :=
  match q with
  | [] => True
  | First c _ _ :: q' => safe (c :: done) q'
  | Joined c _ _ _ :: q' => c ∈ done ∧ safe done q'
  | Caller c _ _ :: q' => c ∈ done ∧ safe done q'
  | Written c _ _ _ :: q' => c ∈ done ∧ safe done q'
  | _ :: q' => safe done q'
  end.

(** The cycles a queue calls [writeStyles] for. *)
Fixpoint firsts (q : list Job) : list nat :=
  match q with
  | [] => []
  | First c _ _ :: q' => c :: firsts q'
  | _ :: q' => firsts q'
  end.

Definition isOnFirst (x : Reaction) : bool :=
  match x with OnFirst _ _ => true | _ => false end.

(** The state of the promise of a cycle, but for the cycle [fresh] that
    [awaitResolve] is creating: while it is pending, the call that made it
    is subscribed before every other call; once it is fulfilled, its
    [writeStyles] call is made or queued. *)
Definition promiseOrdered (fresh : option nat) (w : World) (c : nat)
    (s : PromiseState) : Prop :=
  match s with
  | Pending reactions =>
      (∀ v, safe [] (map (react c v) reactions))
      ∧ (fresh = Some c ∨ existsb isOnFirst reactions = true)
  | Fulfilled _ => c ∈ firsts (queue w) ++ writtenCycles (trace w)
  | Rejected => True
  end.

Record Ordered (fresh : option nat) (w : World) : Prop := {
  ordered_queue : safe (writtenCycles (trace w)) (queue w);
  ordered_promises :
    ∀ c s, promises w !! c = Some s → promiseOrdered fresh w c s;
  ordered_fresh :
    ∀ c, fresh = Some c → ∃ reactions,
        promises w !! c = Some (Pending reactions)
        ∧ existsb isOnFirst reactions = false;
  ordered_writes :
    ∀ c k awaited, (c, k, awaited) ∈ writes w → c ∈ writtenCycles (trace w);
  ordered_trace : writeBeforeResume (trace w);
}.

(** A promise of a cycle is pending or fulfilled with [false]. *)
Definition settlesFalse (s : PromiseState) : Prop :=
  match s with
  | Pending _ => True
  | Fulfilled v => v = VFalse
  | Rejected => False
  end.

(** The values the jobs of a queue carry to the callers; under [strict] no
    call of [writeStyles] was rejected, and no caller gets an exception. *)
Definition carriesFalse (strict : bool) (j : Job) : Prop :=
  match j with
  | Joined _ _ _ v => v = VFalse
  | Caller _ _ (Some v) => v = VFalse ∨ v = VNull
  | Caller _ _ None => strict = false
  | Written _ _ _ ok => strict = true → ok = true
  | _ => True
  end.

Definition seesFalse (strict : bool) (e : Effect) : Prop :=
  match e with
  | Resumed _ _ v => v = VFalse ∨ v = VNull
  | Raised _ _ => strict = false
  | _ => True
  end.

Record Degraded (strict : bool) (w : World) : Prop := {
  degraded_promises : Forall settlesFalse (promises w);
  degraded_queue : Forall (carriesFalse strict) (queue w);
  degraded_trace : Forall (seesFalse strict) (trace w);
}.

(** The host rejects a call of [writeStyles]. *)
Definition writeFails (e : Event) : bool :=
  match e with
  | WriteSettled _ false => true
  | _ => false
  end.

(** The effects and the jobs that neither call [writeStyles] nor let a
    caller go on. *)
Definition quietEffect (e : Effect) : bool :=
  match e with
  | WriteStyles _ _ | Resumed _ _ _ | Raised _ _ => false
  | _ => true
  end.

Definition quietJob (j : Job) : bool :=
  match j with
  | First _ _ _ | Joined _ _ _ _ | Caller _ _ _ | Written _ _ _ _ => false
  | _ => true
  end.

(** The files touched in a trace, the latest first. *)
Fixpoint utimes (t : list Effect) : list string :=
  match t with
  | [] => []
  | Utimes file :: t' => file :: utimes t'
  | _ :: t' => utimes t'
  end.

Definition isUtimes (e : Effect) : bool :=
  match e with Utimes _ => true | _ => false end.

(** What the touch of the finalizer depends on, and what it leaves. *)
Definition touchState (w : World)
  : gset string * bool * bool * list string :=
  (files (vars w), needsTouch (vars w), server (vars w), utimes (trace w)).

(** From one state to a later one: fragments are only added, and while
    none is added a flag that is down stays down and nothing is touched. *)
Definition calm (w w' : World) : Prop :=
  files (vars w) ⊆ files (vars w')
  ∧ (needsTouch (vars w) = false →
     files (vars w') = files (vars w) →
     needsTouch (vars w') = false ∧ utimes (trace w') = utimes (trace w)).

(** The jobs of the end of a cycle: the call that made the cycle goes on
    after [await promise], or after [await writeStyles(files)]. *)
Definition finishing (j : Job) : bool :=
  match j with
  | First _ _ _ | Written _ _ _ _ => true
  | _ => false
  end.

Fixpoint finishers (q : list Job) : nat :=
  match q with
  | [] => 0
  | j :: q' => (if finishing j then 1 else 0) + finishers q'
  end.

Fixpoint firstReactions (reactions : list Reaction) : nat :=
  match reactions with
  | [] => 0
  | x :: reactions' =>
      (if isOnFirst x then 1 else 0) + firstReactions reactions'
  end.

(** The cycles that are coming to their end: a finishing job is queued, or
    [writeStyles] is under way. *)
Definition ending (w : World) : nat :=
  finishers (queue w) + length (writes w).

Definition isPending (s : PromiseState) : bool :=
  match s with Pending _ => true | _ => false end.

(** At most one settle cycle is alive: a pending promise is the one the
    variable [promise] holds, and the call that made it waits for it once;
    at most one cycle is coming to its end, no promise is pending then, and
    the variable [promise] is not [null]. *)
Record Single (w : World) : Prop := {
  single_pending :
    ∀ c reactions, promises w !! c = Some (Pending reactions) →
      promise (vars w) = Some c ∧ firstReactions reactions ≤ 1;
  single_ending : ending w ≤ 1;
  single_settled : 1 ≤ ending w → existsb isPending (promises w) = false;
  single_idle : promise (vars w) = None → ending w = 0;
}.

(** The ids a list of calls of [awaitResolve] adds to [blockingModules]:
    those that are given and truthy. *)
Definition blockers (callers : list (option string * bool)) : gset string :=
  ⋃ ((fun call : option string * bool =>
        match call.1 with
        | Some id => if Str.truthy id then {[id]} else ∅
        | None => ∅
        end) <$> callers).

(** Calls of [awaitResolve] one after the other, each with its id and with
    whether its caller awaits it. *)
Definition awaitResolves (callers : list (option string * bool)) (w : World)
  : World :=
  foldl (fun w call => awaitResolve call.1 call.2 w) w callers.

(** ** Further notions for the properties *)

(** No code unit of [s] is a question mark. *)
Fixpoint queryFree (s : string) : bool :=
  match s with
  | EmptyString => true
  | String a s' => negb (Ascii.eqb a "?"%char) && queryFree s'
  end.

(** How often the code unit [c] occurs in [s]. *)
Fixpoint occurrences (c : ascii) (s : string) : nat :=
  match s with
  | EmptyString => 0
  | String a s' => (if Ascii.eqb a c then 1 else 0) + occurrences c s'
  end.

(** The fragment sets the calls of [writeStyles] in a trace were given, the
    latest first. *)
Fixpoint payloads (t : list Effect) : list (gset string) :=
  match t with
  | [] => []
  | WriteStyles _ fs :: t' => fs :: payloads t'
  | _ :: t' => payloads t'
  end.

(** Every set of the list contains the sets after it. *)
Fixpoint increasing (l : list (gset string)) : Prop :=
  match l with
  | [] => True
  | fs :: l' => Forall (fun fs' => fs' ⊆ fs) l' ∧ increasing l'
  end.

(** The job that calls [writeStyles], and the effect of the call. *)
Definition isFirst (j : Job) : bool :=
  match j with First _ _ _ => true | _ => false end.

Definition isWrite (e : Effect) : bool :=
  match e with WriteStyles _ _ => true | _ => false end.

(** The cycles whose [writeStyles] call is queued or made. *)
Definition started (w : World) : list nat :=
  firsts (queue w) ++ writtenCycles (trace w).

(** The calls of [writeStyles]: one for a cycle at most, and none for a
    cycle whose promise is pending; each is given the fragments registered
    by then, which contain those of the calls before. *)
Record Journal (w : World) : Prop := {
  journal_once : NoDup (started w);
  journal_pending :
    ∀ c reactions, promises w !! c = Some (Pending reactions) →
      c ∉ started w;
  journal_bound : ∀ c, c ∈ started w → c < length (promises w);
  journal_files :
    Forall (fun fs => fs ⊆ files (vars w)) (payloads (trace w));
  journal_chain : increasing (payloads (trace w));
}.

(** What the hooks of the configuration set, and the registry of the
    virtual modules. *)
Definition settings (w : World)
  : bool * bool * option string * gmap string string :=
  (server (vars w), context (vars w), configFile (vars w),
   tempFiles (vars w)).

(** The promise of cycle [c] is pending. *)
Definition pendingAt (w : World) (c : nat) : Prop :=
  ∃ reactions, promises w !! c = Some (Pending reactions).

(** While the promise of a cycle is pending, the timer of [awaitBlocking]
    is pending too, and the variable [resolve] holds the resolving function
    of this promise. *)
Definition armed (w : World) : Prop :=
  ∀ c, pendingAt w c →
    timeout (vars w) = true ∧ resolve (vars w) = Some c.

(** A call of [resolveId] that called [awaitResolve()], and the effect of
    a call of [resolveId] that returns. *)
Definition isExpose (x : Resolving) : bool :=
  match x with Expose _ => true | _ => false end.

Definition isReturn (e : Effect) : bool :=
  match e with ResolveIdReturned _ => true | _ => false end.

(** Nothing of the barrier has happened: no settle cycle, no job, no round
    of the loop, no timer, no fragment, no call of [writeStyles]. *)
Record Inert (w : World) : Prop := {
  inert_promises : promises w = [];
  inert_queue : queue w = [];
  inert_rounds : rounds w = [];
  inert_writes : writes w = [];
  inert_timeout : timeout (vars w) = false;
  inert_promise : promise (vars w) = None;
  inert_files : files (vars w) = ∅;
  inert_blocking : blockingModules (vars w) = ∅;
  inert_resolutions :
    forallb (fun x => negb (isExpose x)) (resolutions w) = true;
  inert_trace : forallb isReturn (trace w) = true;
}.

(** The end of [awaitResolve] was skipped: the variable [promise] holds the
    promise of a cycle that is over, no promise is pending, and no cycle is
    coming to its end; [written] are the cycles [writeStyles] was called
    for. *)
Record Stuck (c : nat) (written : list nat) (w : World) : Prop := {
  stuck_promise : promise (vars w) = Some c;
  stuck_settled : existsb isPending (promises w) = false;
  stuck_ending : ending w = 0;
  stuck_written : writtenCycles (trace w) = written;
}.

(** Two settle cycles of a build, each ended by the timer of
    [awaitBlocking]: the styles of the library are resolved in the first,
    those of a component in the second. *)
Definition twoCycles : list Event :=
  [BuildStart;
   ResolveId "vuetify/styles" None;
   HostResolved 0 (Some "/node_modules/vuetify/lib/styles/main.sass");
   Watchdog; Tick; Tick; Tick; WriteSettled 0 true; Tick;
   ResolveId "vuetify/lib/components/VBtn/VBtn.css"
     (Some "/node_modules/vuetify/lib/components/VBtn/VBtn.mjs");
   HostResolved 0
     (Some "/node_modules/vuetify/lib/components/VBtn/VBtn.sass");
   Watchdog; Tick; Tick].

(** * Properties *)

(** ** Strings *)

Lemma len_app (x y : string) : Str.len (x +:+ y) = Str.len x + Str.len y.
Proof. induction x as [|a x IH]; simpl; [done | by rewrite <- IH]. Qed.

Lemma app_assoc_str (x y z : string) : (x +:+ y) +:+ z = x +:+ y +:+ z.
Proof.
  induction x as [|a x IH]; [done|].
  change (String a ((x +:+ y) +:+ z) = String a (x +:+ y +:+ z)).
  by rewrite IH.
Qed.

Lemma slice_app (x y : string) : Str.slice (Str.len x) (x +:+ y) = y.
Proof. induction x as [|a x IH]; simpl; done. Qed.

Lemma take_app (x y : string) : Str.take (Str.len x) (x +:+ y) = x.
Proof.
  induction x as [|a x IH]; simpl; [by destruct y | by rewrite IH].
Qed.

Lemma startsWith_app (x y : string) : Str.startsWith x (x +:+ y) = true.
Proof.
  unfold Str.startsWith. induction x as [|a x IH]; simpl.
  - by destruct y.
  - destruct (ascii_dec a a); [done | congruence].
Qed.

Lemma endsWith_app (x y : string) : Str.endsWith y (x +:+ y) = true.
Proof.
  unfold Str.endsWith. rewrite len_app.
  replace (Str.len x + Str.len y - Str.len y) with (Str.len x) by lia.
  rewrite slice_app, String.eqb_refl, andb_true_r.
  apply Nat.leb_le. lia.
Qed.

(** A compiled style sheet is resolved to its source. *)
Lemma css_to_sass_css (x : string) :
  Re.css_to_sass (x +:+ ".css") = x +:+ ".sass".
Proof.
  unfold Re.css_to_sass. rewrite endsWith_app, len_app. simpl.
  replace (Str.len x + 4 - 4) with (Str.len x) by lia.
  by rewrite take_app.
Qed.

(** ** Paths made of components *)

Lemma toUnix_cons (a : ascii) (s : string) :
  Path.toUnix (String a s)
  = String (if Ascii.eqb a "\"%char then "/"%char else a) (Path.toUnix s).
Proof. reflexivity. Qed.

Lemma toUnix_app (x y : string) :
  Path.toUnix (x +:+ y) = Path.toUnix x +:+ Path.toUnix y.
Proof.
  induction x as [|a x IH]; [done|].
  change (String a x +:+ y) with (String a (x +:+ y)).
  rewrite !toUnix_cons, IH. done.
Qed.

Lemma toUnix_unbroken (s : string) : unbroken s = true → Path.toUnix s = s.
Proof.
  induction s as [|a s IH]; [done|]. simpl.
  intros [[_ Hb]%andb_true_iff Hs]%andb_true_iff.
  rewrite toUnix_cons, IH by done.
  by destruct (Ascii.eqb a "\"%char).
Qed.

Lemma toUnix_join (segs : list string) :
  Forall (fun s => component s = true) segs →
  Path.toUnix (Str.join "/" segs) = Str.join "/" segs.
Proof.
  induction 1 as [|s segs Hs _ IH]; [done|].
  assert (Hu : Path.toUnix s = s).
  { apply toUnix_unbroken. unfold component in Hs.
    by repeat (apply andb_true_iff in Hs as [Hs ?]). }
  destruct segs as [|s' segs]; [done|].
  change (Str.join "/" (s :: s' :: segs))
    with (s +:+ "/" +:+ Str.join "/" (s' :: segs)).
  by rewrite !toUnix_app, Hu, IH.
Qed.

Lemma split_cons (a : ascii) (s : string) :
  Str.split "/" (String a s)
  = if Ascii.eqb a "/"%char then EmptyString :: Str.split "/" s
    else match Str.split "/" s with
         | [] => [String a EmptyString]
         | x :: xs => String a x :: xs
         end.
Proof. reflexivity. Qed.

Lemma split_unbroken (s rest : string) :
  unbroken s = true →
  Str.split "/" (s +:+ String "/"%char rest) = s :: Str.split "/" rest.
Proof.
  induction s as [|a s IH]; [done|]. intros H. simpl in H.
  apply andb_true_iff in H as [[Ha%negb_true_iff _]%andb_true_iff Hs].
  change (String a s +:+ String "/"%char rest)
    with (String a (s +:+ String "/"%char rest)).
  by rewrite split_cons, IH, Ha.
Qed.

Lemma split_unbroken_end (s : string) :
  unbroken s = true → Str.split "/" s = [s].
Proof.
  induction s as [|a s IH]; [done|]. intros H. simpl in H.
  apply andb_true_iff in H as [[Ha%negb_true_iff _]%andb_true_iff Hs].
  by rewrite split_cons, IH, Ha.
Qed.

Lemma component_unbroken (s : string) :
  component s = true → unbroken s = true.
Proof.
  unfold component. intros H. by repeat (apply andb_true_iff in H as [H ?]).
Qed.

Lemma split_join (s : string) (segs : list string) :
  Forall (fun s => component s = true) (s :: segs) →
  Str.split "/" (Str.join "/" (s :: segs)) = s :: segs.
Proof.
  revert s. induction segs as [|s' segs IH]; intros s Hs.
  - apply split_unbroken_end, component_unbroken.
    by apply Forall_inv in Hs.
  - apply Forall_cons in Hs as [Hs Hsegs].
    change (Str.join "/" (s :: s' :: segs))
      with (s +:+ String "/"%char (Str.join "/" (s' :: segs))).
    rewrite split_unbroken by by apply component_unbroken.
    by rewrite IH.
Qed.

Lemma component_truthy (s : string) :
  component s = true → Str.truthy s = true.
Proof.
  unfold component. intros H. by repeat (apply andb_true_iff in H as [H ?]).
Qed.

Lemma filter_components (segs : list string) :
  Forall (fun s => component s = true) segs →
  filter (fun x => Is_true (Str.truthy x)) segs = segs.
Proof.
  induction 1 as [|s segs Hs _ IH]; [done|].
  rewrite filter_cons_True by (by rewrite component_truthy).
  by rewrite IH.
Qed.

Lemma segments_absolute (segs : list string) :
  Forall (fun s => component s = true) segs →
  Path.segments (absolute segs) = segs.
Proof.
  intros Hs. unfold Path.segments, absolute.
  rewrite toUnix_app, toUnix_join by done.
  change (Path.toUnix "/" +:+ Str.join "/" segs)
    with (String "/"%char (Str.join "/" segs)).
  rewrite split_cons. simpl.
  rewrite filter_cons_False by (simpl; tauto).
  destruct segs as [|s segs]; [done|].
  rewrite split_join by done. by apply filter_components.
Qed.

Lemma normalizeSegs_components (above : bool) (res segs : list string) :
  Forall (fun s => component s = true) segs →
  Path.normalizeSegs above res segs = rev res ++ segs.
Proof.
  intros Hs. revert res. induction Hs as [|s segs Hs _ IH]; intros res; simpl.
  - by rewrite app_nil_r.
  - unfold component in Hs.
    apply andb_true_iff in Hs as [[_ Hdot%negb_true_iff]%andb_true_iff
                                   Hdots%negb_true_iff].
    rewrite Hdot, Hdots, IH. simpl. by rewrite <- app_assoc.
Qed.

Lemma isAbsolute_absolute (segs : list string) :
  Path.isAbsolute (absolute segs) = true.
Proof.
  unfold Path.isAbsolute, absolute. rewrite toUnix_app.
  apply startsWith_app.
Qed.

Lemma resolve_absolute (cwd : string) (segs : list string) :
  Forall (fun s => component s = true) segs →
  Path.resolve cwd (absolute segs) = segs.
Proof.
  intros Hs. unfold Path.resolve.
  rewrite isAbsolute_absolute, segments_absolute by done.
  by rewrite normalizeSegs_components.
Qed.

Lemma diverge_app (l a b : list string) :
  Path.diverge (l ++ a) (l ++ b) = Path.diverge a b.
Proof.
  induction l as [|x l IH]; [done|]. simpl. by rewrite String.eqb_refl.
Qed.

Lemma relative_absolute (cwd : string) (segs rest : list string) :
  Forall (fun s => component s = true) segs →
  Forall (fun s => component s = true) rest →
  Path.relative cwd (absolute segs) (absolute (segs ++ rest))
  = Str.join "/" rest.
Proof.
  intros Hs Hr. unfold Path.relative.
  rewrite !resolve_absolute by (by try apply Forall_app).
  rewrite <- (app_nil_r segs) at 1. rewrite diverge_app.
  by destruct rest.
Qed.

Lemma join_snoc (s : string) (segs : list string) (x : string) :
  Str.join "/" ((s :: segs) ++ [x]) = Str.join "/" (s :: segs) +:+ "/" +:+ x.
Proof.
  revert s. induction segs as [|s' segs IH]; intros s; [done|].
  change (Str.join "/" ((s :: s' :: segs) ++ [x]))
    with (s +:+ "/" +:+ Str.join "/" ((s' :: segs) ++ [x])).
  rewrite IH.
  change (Str.join "/" (s :: s' :: segs))
    with (s +:+ "/" +:+ Str.join "/" (s' :: segs)).
  by rewrite !app_assoc_str.
Qed.

Lemma absolute_snoc (s : string) (segs : list string) (x : string) :
  absolute ((s :: segs) ++ [x]) = absolute (s :: segs) +:+ "/" +:+ x.
Proof. unfold absolute. by rewrite join_snoc, !app_assoc_str. Qed.

Lemma app_empty_r (x : string) : x +:+ "" = x.
Proof.
  induction x as [|a x IH]; [done|].
  change (String a x +:+ "") with (String a (x +:+ "")). by rewrite IH.
Qed.

Lemma unbroken_app (x y : string) :
  unbroken (x +:+ y) = unbroken x && unbroken y.
Proof.
  induction x as [|a x IH]; [done|].
  change (String a x +:+ y) with (String a (x +:+ y)). simpl.
  rewrite IH. by rewrite !andb_assoc.
Qed.

Lemma component_sass (name : string) :
  unbroken name = true → component (name +:+ ".sass") = true.
Proof.
  intros Hn. unfold component. rewrite unbroken_app, Hn.
  assert (Hlen : ∀ s, Str.len s < 5 → String.eqb (name +:+ ".sass") s = false).
  { intros s Hs. apply String.eqb_neq. intros Heq.
    apply (f_equal Str.len) in Heq. rewrite len_app in Heq. simpl in Heq.
    lia. }
  rewrite !Hlen by (simpl; lia). by destruct name.
Qed.

Lemma slice_add (x y : string) (n : nat) :
  Str.slice (Str.len x + n) (x +:+ y) = Str.slice n y.
Proof. induction x as [|a x IH]; simpl; done. Qed.

Lemma last_unbroken (x : string) :
  Str.truthy x = true → unbroken x = true →
  String.eqb (Str.slice (Str.len x - 1) x) "/" = false.
Proof.
  induction x as [|a x IH]; [done|]. intros _ H. simpl in H.
  apply andb_true_iff in H as [[Ha%negb_true_iff _]%andb_true_iff Hx].
  destruct x as [|b x].
  - simpl. by rewrite Ha.
  - change (Str.len (String a (String b x)) - 1) with (S (Str.len x)).
    change (Str.slice (S (Str.len x)) (String a (String b x)))
      with (Str.slice (Str.len x) (String b x)).
    replace (Str.len x) with (Str.len (String b x) - 1) by (simpl; lia).
    by apply IH.
Qed.

Lemma endsWith_slash (y x : string) :
  Str.truthy x = true → unbroken x = true →
  Str.endsWith "/" (y +:+ x) = false.
Proof.
  intros Ht Hu. unfold Str.endsWith. rewrite len_app. simpl.
  assert (0 < Str.len x) by (destruct x; [done | simpl; lia]).
  replace (Str.len y + Str.len x - 1) with (Str.len y + (Str.len x - 1))
    by lia.
  rewrite slice_add, last_unbroken by done. apply andb_false_r.
Qed.

(** [path.normalize] and [path.join] leave a path made of components. *)
Lemma absolute_last (s : string) (segs : list string) :
  Forall (fun s => component s = true) (s :: segs) →
  ∃ y x, absolute (s :: segs) = y +:+ x ∧ component x = true.
Proof.
  intros Hs. destruct segs as [|x segs _] using rev_ind.
  - exists "/", s. split; [done|]. by apply Forall_inv in Hs.
  - exists (absolute (s :: segs) +:+ "/"), x. split.
    + change (s :: segs ++ [x]) with ((s :: segs) ++ [x]).
      by rewrite absolute_snoc, app_assoc_str.
    + apply Forall_cons in Hs as [_ Hs]. apply Forall_app in Hs as [_ Hs].
      by apply Forall_inv in Hs.
Qed.

Lemma normalize_absolute (s : string) (segs : list string) :
  Forall (fun s => component s = true) (s :: segs) →
  Path.normalize (absolute (s :: segs)) = absolute (s :: segs).
Proof.
  intros Hs. unfold Path.normalize. cbv zeta.
  assert (Hu : Path.toUnix (absolute (s :: segs)) = absolute (s :: segs)).
  { unfold absolute. by rewrite toUnix_app, toUnix_join. }
  rewrite Hu, segments_absolute, normalizeSegs_components by done.
  assert (Hend : Str.endsWith "/" (absolute (s :: segs)) = false).
  { destruct (absolute_last s segs Hs) as (y & x & -> & Hx).
    apply endsWith_slash;
      [by apply component_truthy | by apply component_unbroken]. }
  rewrite Hend.
  assert (Hstart : Str.startsWith "/" (absolute (s :: segs)) = true)
    by apply startsWith_app.
  rewrite Hstart. simpl rev. rewrite app_nil_l.
  assert (Hbody : Str.truthy (Str.join "/" (s :: segs)) = true).
  { apply Forall_inv, component_truthy in Hs.
    destruct s as [|a s]; [done|]. by destruct segs. }
  rewrite Hbody. simpl negb. cbv iota. by rewrite app_empty_r.
Qed.

Lemma join_lib (s : string) (segs : list string) :
  Forall (fun s => component s = true) (s :: segs) →
  Path.join [absolute (s :: segs); "lib"]
  = absolute ((s :: segs) ++ ["lib"]).
Proof.
  intros Hs. unfold Path.join.
  rewrite filter_cons_True by done. rewrite filter_cons_True by done.
  rewrite filter_nil.
  change (Str.join "/" [absolute (s :: segs); "lib"])
    with (absolute (s :: segs) +:+ "/" +:+ "lib").
  rewrite <- absolute_snoc.
  change (Str.truthy (absolute ((s :: segs) ++ ["lib"]))) with true.
  simpl negb. cbv iota.
  apply (normalize_absolute s (segs ++ ["lib"])).
  change (s :: segs ++ ["lib"]) with ((s :: segs) ++ ["lib"]).
  apply Forall_app. split; [done|]. by constructor.
Qed.

(** The virtual key of a style sheet of the [lib] directory of a library
    installed at a path made of components. *)
Lemma virtualKey_lib (cwd s : string) (segs : list string) (name : string) :
  Forall (fun s => component s = true) (s :: segs) →
  unbroken name = true →
  virtualKey (absolute (s :: segs)) cwd
    (absolute (s :: segs) +:+ "/lib/" +:+ name +:+ ".css")
  = name +:+ ".sass".
Proof.
  intros Hs Hn. unfold virtualKey. rewrite join_lib by done.
  replace (absolute (s :: segs) +:+ "/lib/" +:+ name +:+ ".css")
    with ((absolute (s :: segs) +:+ "/lib/" +:+ name) +:+ ".css")
    by (by rewrite !app_assoc_str).
  rewrite css_to_sass_css.
  replace ((absolute (s :: segs) +:+ "/lib/" +:+ name) +:+ ".sass")
    with (absolute (((s :: segs) ++ ["lib"]) ++ [name +:+ ".sass"])).
  - rewrite relative_absolute; [done| |].
    + apply Forall_app. split; [done|]. by constructor.
    + constructor; [|done]. by apply component_sass.
  - change (((s :: segs) ++ ["lib"]) ++ [name +:+ ".sass"])
      with ((s :: (segs ++ ["lib"])) ++ [name +:+ ".sass"]).
    rewrite absolute_snoc.
    change (s :: segs ++ ["lib"]) with ((s :: segs) ++ ["lib"]).
    rewrite absolute_snoc. by rewrite !app_assoc_str.
Qed.

(** ** [load] *)

Section LoadFacts.

Variable p : Plugin.

(** The sentinel gives the empty document. *)
Lemma load_void (id : string) :
  Re.is_void id = true → load p id = Returns (Text "").
Proof. intros H. unfold load. by rewrite H. Qed.

(** The sentinel followed by a query string is the sentinel still. *)
Lemma is_void_query (query : string) :
  Str.one_line query = true →
  Re.is_void (Re.void_id +:+ String "?"%char query) = true.
Proof.
  intros H. unfold Re.is_void. rewrite startsWith_app, slice_app.
  simpl. by rewrite H.
Qed.

Lemma is_void_bare : Re.is_void Re.void_id = true.
Proof. reflexivity. Qed.

(** Outside the sentinel and the namespace [load] returns [null]. *)
Lemma load_null (id : string) :
  Re.is_void id = false → Str.startsWith Re.virtual_ns id = false →
  load p id = Returns Null.
Proof. intros H1 H2. unfold load. by rewrite H1, H2. Qed.

(** [load] throws exactly on the ids of the namespace its expression
    does not match. *)
Lemma load_throws_iff (id : string) :
  load p id = Throws_TypeError ↔
  Re.is_void id = false ∧ Str.startsWith Re.virtual_ns id = true
  ∧ Re.virtual_exec id = None.
Proof.
  unfold load.
  destruct (Re.is_void id); [intuition congruence|].
  destruct (Str.startsWith Re.virtual_ns id); [|intuition congruence].
  destruct (Re.virtual_exec id) as [file|]; [|intuition congruence].
  destruct (tempFiles p !! file); intuition congruence.
Qed.

End LoadFacts.

(** C10: [load] is not total.  An id that starts with the namespace
    [\0plugin-vuetify] without having the form the expression of [load]
    matches makes [exec] return [null], and reading its element 1 throws a
    [TypeError], whatever the registry holds: so does an id of another
    plugin in which the colon is missing, and so does the id [resolveId]
    itself makes for a resolved path with a line feed in it.  The non-null
    assertion on the result of [exec] says this cannot happen. *)
Theorem load_throws_in_namespace (p : Plugin) :
  load p (Re.virtual_ns +:+ "/foo.sass") = Throws_TypeError
  ∧ load p (Re.virtual_prefix +:+ "a" +:+ String Str.lf "b.sass")
    = Throws_TypeError.
Proof. split; reflexivity. Qed.

(** ** [resolveId] *)

Section ResolveFacts.

Variable options : Options.
Variable vuetifyBase : string.
Variable cwd : string.

(** Registering a path adds it to the set, and raises the flag when the
    path is new. *)
Lemma registerFragment_files (path : string) (p : Plugin) :
  files (registerFragment path p) = {[path]} ∪ files p.
Proof.
  unfold registerFragment. destruct (decide (path ∈ files p)); simpl.
  - set_solver.
  - done.
Qed.

Lemma registerFragment_needsTouch (path : string) (p : Plugin) :
  needsTouch (registerFragment path p)
  = needsTouch p || negb (bool_decide (path ∈ files p)).
Proof.
  unfold registerFragment. destruct (decide (path ∈ files p)); simpl.
  - rewrite bool_decide_eq_true_2 by done. by rewrite orb_false_r.
  - rewrite bool_decide_eq_false_2 by done. by rewrite orb_true_r.
Qed.

Lemma registerFragment_member (path : string) (p : Plugin) :
  path ∈ files p → registerFragment path p = p.
Proof.
  intros H. unfold registerFragment. by destruct (decide (path ∈ files p)).
Qed.

(** C6: registering a path a second time changes nothing, so the size of
    the set of fragments is what it was after the first time; and the flag
    [needsTouch] is what it was before, unless the path was not a member
    of the set, in which case it is raised. *)
Theorem registerFragment_idempotent (path : string) (p : Plugin) :
  registerFragment path (registerFragment path p) = registerFragment path p
  ∧ size (files (registerFragment path (registerFragment path p)))
    = size (files (registerFragment path p))
  ∧ needsTouch (registerFragment path p)
    = needsTouch p || negb (bool_decide (path ∈ files p)).
Proof.
  assert (H : registerFragment path (registerFragment path p)
              = registerFragment path p).
  { apply registerFragment_member. rewrite registerFragment_files.
    set_solver. }
  rewrite H. split_and!; [done | done |].
  apply registerFragment_needsTouch.
Qed.

(** The virtual id is a function of the file the host resolved. *)
Lemma resolveId_configured_result (resolved : string) (p : Plugin) :
  (resolveId_configured options vuetifyBase cwd (Some resolved) p).2
  = Some (Re.virtual_prefix +:+ virtualKey vuetifyBase cwd resolved).
Proof. reflexivity. Qed.

(** C7: when [options.styles] is an object, resolving to the same real
    file gives the same virtual id in every state of the plugin, hence
    both times when it is resolved twice; the id is the namespace followed
    by the path of the source relative to the [lib] directory of the
    library; and the second resolution writes the slot of the first again,
    leaving the registry as it was after the first. *)
Theorem virtual_key_deterministic (resolved : string) (p q : Plugin) :
  (resolveId_configured options vuetifyBase cwd (Some resolved) q).2
  = (resolveId_configured options vuetifyBase cwd (Some resolved) p).2
  ∧ (resolveId_configured options vuetifyBase cwd (Some resolved) p).2
    = Some (Re.virtual_prefix
            +:+ Path.relative cwd (Path.join [vuetifyBase; "lib"])
                  (Re.css_to_sass resolved))
  ∧ tempFiles
      (resolveId_configured options vuetifyBase cwd (Some resolved)
         (resolveId_configured options vuetifyBase cwd (Some resolved) p).1).1
    = tempFiles
        (resolveId_configured options vuetifyBase cwd (Some resolved) p).1.
Proof.
  split_and!; [done | done |].
  simpl. apply insert_insert_eq.
Qed.

(** C4, amended: in mode ['expose'] a request for a style entry calls
    [awaitResolve()] without an id and without awaiting it, and asks the
    host for the [.sass] counterpart of the source.  When the host
    resolves it, the resolved file is registered as a fragment and the
    request resolves to the sentinel; when the host answers [null],
    nothing is registered and the request resolves to [null]. *)
Theorem resolveId_expose_sentinel_iff_resolved
    (source : string) (importer : option string) (w w' : World)
    (resolution : option string) :
  styles options = StylesExpose →
  isStyleEntry vuetifyBase cwd source importer = true →
  resolveId options vuetifyBase cwd source importer w
  = set_resolutions (resolutions w ++ [Expose (Re.css_to_sass source)])
      (awaitResolve None false w)
  ∧ resolved options vuetifyBase cwd
      (Expose (Re.css_to_sass source)) resolution w'
    = match resolution with
      | Some file =>
          emit (ResolveIdReturned (Some Re.void_id))
            (update (registerFragment file) w')
      | None => emit (ResolveIdReturned None) w'
      end.
Proof.
  intros Hmode Hentry. split.
  - unfold resolveId, resolveId_begin. by rewrite Hentry, Hmode.
  - by destruct resolution.
Qed.

End ResolveFacts.

(** C8, amended: when [options.styles] is an object and layers are off,
    resolving the style file [name.css] that lies in the [lib] directory of
    the library (installed at a path made of components) gives the virtual
    key [name.sass], and stores under it a document made of the [@use] of
    the configuration file, a line break, and the [@use] of the source
    [name.sass], in this order. *)
Theorem configured_key_and_contents (options : Options) (cwd s : string)
    (segs : list string) (name : string) (p : Plugin) :
  useLayers options = false →
  Forall (fun s => component s = true) (s :: segs) →
  unbroken name = true →
  resolveId_configured options (absolute (s :: segs)) cwd
    (Some (absolute (s :: segs) +:+ "/lib/" +:+ name +:+ ".css")) p
  = (set_tempFiles
       (<[name +:+ ".sass" :=
            ("@use " +:+ dquote +:+ template (configFile p) +:+ dquote)
            +:+ newline
            +:+ ("@use " +:+ dquote
                 +:+ (absolute (s :: segs) +:+ "/lib/" +:+ name +:+ ".sass")
                 +:+ dquote)]>
          (tempFiles p)) p,
     Some (Re.virtual_prefix +:+ name +:+ ".sass")).
Proof.
  intros Hlayers Hs Hn. unfold resolveId_configured.
  rewrite (virtualKey_lib cwd s segs name Hs Hn).
  assert (Hsass : Re.css_to_sass
                    (absolute (s :: segs) +:+ "/lib/" +:+ name +:+ ".css")
                  = absolute (s :: segs) +:+ "/lib/" +:+ name +:+ ".sass").
  { replace (absolute (s :: segs) +:+ "/lib/" +:+ name +:+ ".css")
      with ((absolute (s :: segs) +:+ "/lib/" +:+ name) +:+ ".css")
      by (by rewrite !app_assoc_str).
    rewrite css_to_sass_css. by rewrite !app_assoc_str. }
  rewrite Hsass, Hlayers. unfold scssFileContents.
  by rewrite !app_assoc_str.
Qed.

(** C4 fails as stated: in mode ['expose'], when the host cannot resolve the
    source of the style entry, [resolveId] returns [null] and not the
    sentinel. *)
Lemma expose_unresolved_returns_null :
  isStyleEntry "/node_modules/vuetify" "/app" "vuetify/styles" None = true
  ∧ trace (steps exposeOptions "/node_modules/vuetify" "/app"
             "/app/.cache/vuetify/styles.scss" (boot noModules)
             [ResolveId "vuetify/styles" None; HostResolved 0 None])
    = [ResolveIdReturned None]
  ∧ trace (steps exposeOptions "/node_modules/vuetify" "/app"
             "/app/.cache/vuetify/styles.scss" (boot noModules)
             [ResolveId "vuetify/styles" None; HostResolved 0 None])
    ≠ [ResolveIdReturned (Some Re.void_id)].
Proof. split_and!; [done | done | discriminate]. Qed.

Lemma resolveId_expose_sentinel_iff_resolved_witness :
  styles exposeOptions = StylesExpose
  ∧ isStyleEntry "/node_modules/vuetify" "/app" "vuetify/styles" None = true
  ∧ resolved exposeOptions "/node_modules/vuetify" "/app"
      (Expose (Re.css_to_sass "vuetify/styles")) None (boot noModules)
    = emit (ResolveIdReturned None) (boot noModules).
Proof.
  split; [reflexivity|]. split; [reflexivity|].
  apply (resolveId_expose_sentinel_iff_resolved exposeOptions
           "/node_modules/vuetify" "/app" "vuetify/styles" None
           (boot noModules) (boot noModules) None);
    reflexivity.
Defined.

(** C8 fails as stated: the style file [foo.css] of the [lib] directory gets
    the virtual key [foo.sass], not [foo]: nothing is stored under [foo]. *)
Lemma configured_key_keeps_extension :
  isStyleEntry "/node_modules/vuetify" "/app" "./foo.css"
    (Some "/node_modules/vuetify/lib/index.mjs") = true
  ∧ resolveId_configured configuredOptions "/node_modules/vuetify" "/app"
      (Some "/node_modules/vuetify/lib/foo.css")
      (configResolved configuredOptions "/app" "/app" initial)
    = (set_tempFiles
         {[ "foo.sass" :=
              "@use " +:+ dquote +:+ "/app/src/settings.scss" +:+ dquote
              +:+ newline +:+ "@use " +:+ dquote
              +:+ "/node_modules/vuetify/lib/foo.sass" +:+ dquote ]}
         (configResolved configuredOptions "/app" "/app" initial),
       Some (Re.virtual_prefix +:+ "foo.sass"))
  ∧ virtualKey "/node_modules/vuetify" "/app"
      "/node_modules/vuetify/lib/foo.css" ≠ "foo".
Proof. split_and!; [done | done | discriminate]. Qed.

Lemma configured_key_and_contents_witness :
  (resolveId_configured configuredOptions
     (absolute ["node_modules"; "vuetify"]) "/app"
     (Some (absolute ["node_modules"; "vuetify"] +:+ "/lib/" +:+ "foo"
            +:+ ".css")) initial).2
  = Some (Re.virtual_prefix +:+ "foo" +:+ ".sass").
Proof.
  rewrite (configured_key_and_contents configuredOptions "/app"
             "node_modules" ["vuetify"] "foo" initial).
  - reflexivity.
  - reflexivity.
  - repeat constructor.
  - reflexivity.
Defined.

(** ** The graph probe of a build *)

Section ProbeFacts.

Variable options : Options.
Variable vuetifyBase cwd cacheFile : string.


Lemma probe_set_probe (r : nat) (p : Probe) (w : World) :
  r < length (rounds w) →
  probe <$> rounds (set_probe r p w) !! r = Some p.
Proof.
  intros Hr. apply lookup_lt_is_Some in Hr as [x Hx].
  unfold set_probe. simpl. by rewrite list_lookup_alter_eq, Hx.
Qed.


End ProbeFacts.



(** ** The write comes before the callers go on *)

Lemma safe_mono (d d' : list nat) (q : list Job) :
  d ⊆ d' → safe d q → safe d' q.
Proof.
  revert d d'. induction q as [|j q IH]; intros d d' Hd; simpl; [done|].
  destruct j; try (by apply IH);
    try (intros [? ?]; split; [by apply Hd | by eapply IH]).
  apply IH. set_solver.
Qed.

Lemma safe_app (d : list nat) (q1 q2 : list Job) :
  safe d q1 → safe (firsts q1 ++ d) q2 → safe d (q1 ++ q2).
Proof.
  revert d. induction q1 as [|j q1 IH]; intros d; simpl; [done|].
  destruct j; simpl; try (by apply IH);
    try (intros [? ?] ?; split; [done | by apply IH]).
  intros H1 H2. apply IH; [done|]. eapply safe_mono; [|done]. set_solver.
Qed.

Lemma firsts_app (q1 q2 : list Job) :
  firsts (q1 ++ q2) = firsts q1 ++ firsts q2.
Proof.
  induction q1 as [|j q1 IH]; simpl; [done|].
  destruct j; simpl; by rewrite ?IH.
Qed.

Lemma firsts_react (c : nat) (v : Value) (reactions : list Reaction) :
  existsb isOnFirst reactions = true → c ∈ firsts (map (react c v) reactions).
Proof.
  induction reactions as [|x reactions IH]; simpl; [done|].
  destruct x; simpl; try done. intros _. set_solver.
Qed.

Lemma writtenCycles_quiet (es t : list Effect) :
  forallb quietEffect es = true → writtenCycles (es ++ t) = writtenCycles t.
Proof.
  induction es as [|e es IH]; simpl; [done|].
  intros [He Hes]%andb_true_iff. destruct e; try done; by apply IH.
Qed.

Lemma writeBeforeResume_quiet (es t : list Effect) :
  forallb quietEffect es = true →
  writeBeforeResume t → writeBeforeResume (es ++ t).
Proof.
  induction es as [|e es IH]; simpl; [done|].
  intros [He Hes]%andb_true_iff Ht. destruct e; try done; by apply IH.
Qed.

Lemma quiet_rev (es : list Effect) :
  forallb quietEffect es = true → forallb quietEffect (rev es) = true.
Proof.
  rewrite !forallb_forall. intros H e He. apply H. by apply in_rev.
Qed.

Lemma quiet_map {A} (f : A → Effect) (l : list A) :
  (∀ x, quietEffect (f x) = true) → forallb quietEffect (map f l) = true.
Proof. intros H. induction l; simpl; [done|]. by rewrite H. Qed.

Lemma Ordered_frame (f : option nat) (w w' : World) :
  queue w' = queue w → promises w' = promises w → writes w' = writes w →
  trace w' = trace w → Ordered f w → Ordered f w'.
Proof.
  intros Hq Hp Hw Ht [H1 H2 H3 H4 H5].
  constructor; rewrite ?Hq, ?Hp, ?Hw, ?Ht; try done.
  intros c s Hs. specialize (H2 c s Hs).
  destruct s; simpl in *; rewrite ?Hq, ?Ht; done.
Qed.

Lemma Ordered_enqueue (f : option nat) (j : Job) (w : World) :
  quietJob j = true → Ordered f w → Ordered f (enqueue j w).
Proof.
  intros Hj [H1 H2 H3 H4 H5]. constructor; simpl; try done.
  - apply safe_app; [done|]. by destruct j.
  - intros c s Hs. specialize (H2 c s Hs). destruct s; simpl in *; try done.
    rewrite firsts_app. set_solver.
Qed.

Lemma Ordered_emits (f : option nat) (es : list Effect) (w : World) :
  forallb quietEffect es = true → Ordered f w → Ordered f (emits es w).
Proof.
  intros Hes [H1 H2 H3 H4 H5]. apply quiet_rev in Hes.
  constructor; simpl; rewrite ?writtenCycles_quiet by done; try done.
  - intros c s Hs. specialize (H2 c s Hs). destruct s; simpl in *; try done.
    by rewrite writtenCycles_quiet.
  - by apply writeBeforeResume_quiet.
Qed.

Lemma Ordered_emit (f : option nat) (e : Effect) (w : World) :
  quietEffect e = true → Ordered f w → Ordered f (emit e w).
Proof.
  intros He H. apply (Ordered_emits f [e] w); [|done]. simpl. by rewrite He.
Qed.

Lemma existsb_snoc (x : Reaction) (reactions : list Reaction) :
  existsb isOnFirst (reactions ++ [x])
  = existsb isOnFirst reactions || isOnFirst x.
Proof. rewrite existsb_app. simpl. by rewrite orb_false_r. Qed.

(** Replacing the reactions of a pending promise. *)
Lemma Ordered_reactions (f f' : option nat) (c : nat)
    (reactions reactions' : list Reaction) (w : World) :
  promises w !! c = Some (Pending reactions) →
  (∀ v, safe [] (map (react c v) reactions) →
        safe [] (map (react c v) reactions')) →
  (f' = Some c ∨ existsb isOnFirst reactions' = true) →
  (f' = Some c → existsb isOnFirst reactions' = false) →
  (∀ c', c' ≠ c → f = Some c' → f' = Some c') →
  (∀ c', f' = Some c' → f = Some c') →
  Ordered f w →
  Ordered f' (set_promises (<[c := Pending reactions']> (promises w)) w).
Proof.
  intros Hc Hsafe Hfirst Hfresh Hf Hf' [H1 H2 H3 H4 H5].
  constructor; simpl; try done.
  - intros c' s. destruct (decide (c' = c)) as [->|Hne].
    + rewrite list_lookup_insert_eq by by eapply lookup_lt_Some.
      intros [= <-]. simpl. split; [|done].
      intros v. apply Hsafe. by apply (H2 c _ Hc).
    + rewrite list_lookup_insert_ne by done. intros Hs.
      specialize (H2 c' s Hs). destruct s; simpl in *; try done.
      destruct H2 as [Ha Hb]. split; [done|].
      destruct Hb as [Hb|Hb]; [|by right].
      left. by apply Hf.
  - intros c' Hc'. destruct (decide (c' = c)) as [->|Hne].
    + exists reactions'.
      rewrite list_lookup_insert_eq by by eapply lookup_lt_Some.
      split; [done|]. by apply Hfresh.
    + rewrite list_lookup_insert_ne by done. apply H3. by apply Hf'.
Qed.

Lemma Ordered_subscribe_any (f : option nat) (c r : nat) (w : World) :
  Ordered f w → Ordered f (subscribe c (OnAny r) w).
Proof.
  intros H. unfold subscribe.
  destruct (promises w !! c) as [[reactions|v|]|] eqn:Hc; try done.
  - eapply (Ordered_reactions f f); try done.
    + intros v Hs. rewrite map_app. apply safe_app; [done|]. done.
    + rewrite existsb_snoc. simpl. rewrite orb_false_r.
      destruct (ordered_promises _ _ H c _ Hc) as [_ Hx]. done.
    + intros ->. rewrite existsb_snoc. simpl. rewrite orb_false_r.
      destruct (ordered_fresh _ _ H c eq_refl) as (reactions0 & Hr & Hn).
      congruence.
  - by apply Ordered_enqueue.
Qed.

Lemma Ordered_subscribe_join (c k : nat) (awaited : bool) (w : World) :
  Ordered None w → Ordered None (subscribe c (OnJoin k awaited) w).
Proof.
  intros H. unfold subscribe.
  destruct (promises w !! c) as [[reactions|v|]|] eqn:Hc; try done.
  - destruct (ordered_promises _ _ H c _ Hc) as [_ [Hx|Hx]]; [done|].
    eapply (Ordered_reactions None None); try done.
    + intros v Hs. rewrite map_app. apply safe_app; [done|]. simpl.
      split; [|done]. rewrite app_nil_r. by apply firsts_react.
    + right. rewrite existsb_snoc. by rewrite Hx.
  - pose proof (ordered_promises _ _ H c _ Hc) as Hx. simpl in Hx.
    destruct H as [H1 H2 H3 H4 H5]. constructor; simpl; try done.
    + apply safe_app; [done|]. simpl. split; [|done]. done.
    + intros c' s Hs. specialize (H2 c' s Hs).
      destruct s; simpl in *; try done. rewrite firsts_app. set_solver.
Qed.

Lemma Ordered_subscribe_first (c k : nat) (awaited : bool) (w : World) :
  Ordered (Some c) w → Ordered None (subscribe c (OnFirst k awaited) w).
Proof.
  intros H. unfold subscribe.
  destruct (ordered_fresh _ _ H c eq_refl) as (reactions & Hc & Hn).
  rewrite Hc. eapply (Ordered_reactions (Some c) None); try done.
  - intros v Hs. rewrite map_app. apply safe_app; [done|]. done.
  - right. rewrite existsb_snoc. simpl. by rewrite orb_true_r.
  - intros c' Hne [= ->]. done.
Qed.

Lemma Ordered_fulfil (c : nat) (v : Value) (w : World) :
  Ordered None w → Ordered None (fulfil c v w).
Proof.
  intros H. unfold fulfil.
  destruct (promises w !! c) as [[reactions|v'|]|] eqn:Hc; try done.
  destruct (ordered_promises _ _ H c _ Hc) as [Hs [Hx|Hx]]; [done|].
  destruct H as [H1 H2 H3 H4 H5]. constructor; simpl; try done.
  - apply safe_app; [done|]. eapply safe_mono; [|apply Hs]. set_solver.
  - intros c' s. destruct (decide (c' = c)) as [->|Hne].
    + rewrite list_lookup_insert_eq by by eapply lookup_lt_Some.
      intros [= <-]. simpl. rewrite firsts_app.
      pose proof (firsts_react c v reactions Hx). set_solver.
    + rewrite list_lookup_insert_ne by done. intros Hs'.
      specialize (H2 c' s Hs'). destruct s; simpl in *; try done.
      rewrite firsts_app. set_solver.
Qed.

Lemma Ordered_resolveFalse (w : World) :
  Ordered None w → Ordered None (resolveFalse w).
Proof.
  intros H. unfold resolveFalse. destruct (resolve (vars w)); [|done].
  by apply Ordered_fulfil.
Qed.

Ltac framed H := eapply Ordered_frame; [..|exact H]; reflexivity.

Lemma Ordered_enqueue_after (f : option nat) (j : Job) (w : World) :
  safe (firsts (queue w) ++ writtenCycles (trace w)) [j] →
  Ordered f w → Ordered f (enqueue j w).
Proof.
  intros Hj [H1 H2 H3 H4 H5]. constructor; simpl; try done.
  - by apply safe_app.
  - intros c s Hs. specialize (H2 c s Hs). destruct s; simpl in *; try done.
    rewrite firsts_app. set_solver.
Qed.

Lemma Ordered_pop (f : option nat) (j : Job) (q : list Job) (w : World) :
  Ordered f w → queue w = j :: q → firsts [j] = [] →
  Ordered f (set_queue q w) ∧ safe (writtenCycles (trace w)) [j].
Proof.
  intros [H1 H2 H3 H4 H5] Hq Hj. rewrite Hq in H1. split.
  - constructor; simpl; try done.
    + destruct j; simpl in *; try done; by destruct H1.
    + intros c s Hs. specialize (H2 c s Hs). destruct s; simpl in *; try done.
      rewrite Hq in H2. by destruct j.
  - destruct j; simpl in *; try done; by destruct H1.
Qed.

Lemma Ordered_getPendingModules (f : option nat) (w : World) :
  Ordered f w → Ordered f (getPendingModules w).1.
Proof.
  intros H. unfold getPendingModules.
  destruct (server (vars w)); [|done].
  destruct (pendingDev _ _) as [|m modules]; simpl.
  - framed H.
  - match goal with
    | |- Ordered f (emits ?es ?w') => apply (Ordered_emits f es w')
    end.
    + by apply (quiet_map (fun kv => TransformRequest kv.1)).
    + framed H.
Qed.

Lemma Ordered_awaitBlocking (f : option nat) (w : World) :
  Ordered f w → Ordered f (awaitBlocking w).
Proof.
  intros H. unfold awaitBlocking.
  assert (H1 : Ordered f (update (set_timeout true) w)) by framed H.
  apply Ordered_getPendingModules in H1. simpl.
  destruct (getPendingModules (update (set_timeout true) w)) as [w2 p].
  simpl in H1.
  set (r := length (rounds w)).
  set (w3 := set_rounds _ w2).
  assert (H3 : Ordered f w3) by framed H1.
  assert (H4 : Ordered f
                 match promise (vars w) with
                 | Some c => subscribe c (OnAny r) w3
                 | None => enqueue (AnyElement r VNull) w3
                 end).
  { destruct (promise (vars w)).
    - by apply Ordered_subscribe_any.
    - by apply Ordered_enqueue. }
  destruct p; try done. by apply Ordered_enqueue.
Qed.

Lemma Ordered_create (w : World) :
  Ordered None w →
  Ordered (Some (length (promises w)))
    (set_promises (promises w ++ [Pending []]) w).
Proof.
  intros [H1 H2 H3 H4 H5]. constructor; simpl; try done.
  - intros c s Hs. apply lookup_app_Some in Hs as [Hs|[Hlen Hs]].
    + specialize (H2 c s Hs). destruct s; simpl in *; try done.
      destruct H2 as [Ha [Hb|Hb]]; [done|]. split; [done|by right].
    + destruct (c - length (promises w)) as [|n] eqn:Hn; [|done].
      simpl in Hs. injection Hs as <-. simpl.
      assert (c = length (promises w)) as -> by lia.
      split; [done|by left].
  - intros c [= <-]. exists []. split; [|done].
    rewrite lookup_app_r by done. by rewrite Nat.sub_diag.
Qed.

Lemma Ordered_awaitResolve (id : option string) (awaited : bool) (w : World) :
  Ordered None w → Ordered None (awaitResolve id awaited w).
Proof.
  intros H. unfold awaitResolve.
  set (w2 := match id with Some _ => _ | None => _ end).
  assert (H2 : Ordered None w2).
  { unfold w2. destruct id as [id|]; [destruct (Str.truthy id)|]; framed H. }
  assert (Hp : promises w2 = promises w).
  { unfold w2. destruct id as [id|]; [destruct (Str.truthy id)|]; done. }
  destruct (promise (vars w2)) as [c|].
  - by apply Ordered_enqueue.
  - apply Ordered_subscribe_first, Ordered_awaitBlocking.
    apply Ordered_create in H2.
    match goal with
    | |- Ordered _ (update ?g ?w') =>
        eapply (Ordered_frame _ w'); try reflexivity
    end.
    exact H2.
Qed.

Lemma Ordered_run (cacheFile : string) (j : Job) (q : list Job) (w : World) :
  Ordered None w → queue w = j :: q →
  Ordered None (run cacheFile j (set_queue q w)).
Proof.
  intros H Hq.
  destruct j as [r v|r|r v|r|r n ok|c k aw|c k aw ok|c k aw|c k aw v|c k o].
  - destruct (Ordered_pop _ _ _ _ H Hq eq_refl) as [H' _]. simpl.
    unfold settleAny. destruct (rounds _ !! r) as [x|]; [|done].
    destruct (anySettled x); [done|]. apply Ordered_enqueue; [done|]. framed H'.
  - by destruct (Ordered_pop _ _ _ _ H Hq eq_refl) as [H' _].
  - destruct (Ordered_pop _ _ _ _ H Hq eq_refl) as [H' _]. simpl.
    destruct (truthy v).
    + by apply Ordered_awaitBlocking.
    + by apply Ordered_resolveFalse.
  - destruct (Ordered_pop _ _ _ _ H Hq eq_refl) as [H' _]. simpl. unfold scan.
    simpl.
    assert (Hx : ∀ j, quietJob j = true →
                 Ordered None
                   (enqueue j (set_probe r Returned (set_queue q w)))).
    { intros j Hj. apply Ordered_enqueue; [done|]. framed H'. }
    destruct (context (vars w)); [|by apply Hx].
    destruct (pendingBuild _ _) as [modules|]; [|by apply Hx].
    destruct modules as [|m modules].
    + apply Ordered_enqueue; [done|]. framed H'.
    + eapply (Ordered_frame _ (emits _ (update _ (set_queue q w))));
        try reflexivity.
      apply Ordered_emits.
      * by apply (quiet_map (fun m => ContextLoad (Rollup.id m))).
      * framed H'.
  - destruct (Ordered_pop _ _ _ _ H Hq eq_refl) as [H' _]. simpl.
    apply Ordered_enqueue; [by destruct ok | done].
  - destruct H as [H1 H2 H3 H4 H5]. rewrite Hq in H1.
    constructor; simpl; try done.
    + intros c' s Hs. specialize (H2 c' s Hs).
      destruct s; simpl in *; try done. rewrite Hq in H2. simpl in H2.
      set_solver.
    + intros c' k' aw' [Hin|Hin]%elem_of_app.
      * right. by eapply H4.
      * apply list_elem_of_singleton in Hin as [= -> -> ->]. by left.
  - destruct (Ordered_pop _ _ _ _ H Hq eq_refl) as [H' [Hc _]]. simpl.
    destruct ok.
    + destruct (finalize cacheFile (dev (host w)) (vars w)) as [touches p].
      set (w' := emits _ _).
      assert (Hw' : Ordered None w').
      { apply Ordered_emits; [by apply quiet_map|]. framed H'. }
      destruct aw; [|done].
      apply Ordered_enqueue_after; [|done]. simpl. split; [|done].
      unfold w'. simpl. rewrite writtenCycles_quiet
        by by apply quiet_rev, quiet_map.
      set_solver.
    + destruct aw; [|done].
      apply Ordered_enqueue_after; [|done]. simpl. split; [|done]. set_solver.
  - destruct (Ordered_pop _ _ _ _ H Hq eq_refl) as [H' _]. simpl.
    by apply Ordered_subscribe_join.
  - destruct (Ordered_pop _ _ _ _ H Hq eq_refl) as [H' [Hc _]]. simpl.
    destruct aw; [|done].
    apply Ordered_enqueue_after; [|done]. simpl. split; [|done]. set_solver.
  - destruct (Ordered_pop _ _ _ _ H Hq eq_refl) as [H' [Hc _]].
    destruct H' as [H1 H2 H3 H4 H5]. simpl in *.
    destruct o as [v|]; constructor; simpl; try done.
Qed.

Section OrderedSteps.

Variable options : Options.
Variable vuetifyBase cwd cacheFile : string.

Lemma Ordered_boot (h : Host) : Ordered None (boot h).
Proof.
  constructor; simpl; try done.
  intros c k aw Hin. by apply elem_of_nil in Hin.
Qed.

Lemma Ordered_step (w : World) (e : Event) :
  Ordered None w →
  Ordered None (step options vuetifyBase cwd cacheFile w e).
Proof.
  intros H. destruct e as [| |root|h|code id|source importer|i resolution|
                           | |r|r ok|i ok]; simpl.
  - framed H.
  - framed H.
  - framed H.
  - framed H.
  - destruct (transform_begin options code id); [|done].
    by apply Ordered_awaitResolve.
  - unfold resolveId.
    destruct (resolveId_begin options vuetifyBase cwd source importer).
    + by apply Ordered_emit.
    + framed H.
    + eapply (Ordered_frame _ (awaitResolve None false w)); try reflexivity.
      by apply Ordered_awaitResolve.
    + framed H.
  - destruct (resolutions w !! i) as [pending|]; [|done].
    assert (H' : Ordered None (set_resolutions (delete i (resolutions w)) w))
      by framed H.
    destruct pending; simpl; try done.
    + by apply Ordered_emit.
    + destruct (resolveId_expose resolution (vars w)) as [p result].
      apply Ordered_emit; [done|]. framed H.
    + destruct (resolveId_configured _ _ _ resolution (vars w)) as [p result].
      apply Ordered_emit; [done|]. framed H.
  - destruct (queue w) as [|j q] eqn:Hq; [done|]. by apply Ordered_run.
  - destruct (timeout (vars w) && idle w); [|done].
    apply Ordered_resolveFalse, Ordered_emit; [done|]. framed H.
  - destruct (probe <$> rounds w !! r) as [[]|]; try done.
    destruct (idle w); [|done]. apply Ordered_enqueue; [done|]. framed H.
  - destruct (probe <$> rounds w !! r) as [[]|]; try done.
    apply Ordered_enqueue; [done|]. framed H.
  - destruct (writes w !! i) as [[[c k] aw]|] eqn:Hi; [|done].
    assert (Hc : c ∈ writtenCycles (trace w)).
    { eapply (ordered_writes _ _ H). by eapply list_elem_of_lookup_2. }
    apply Ordered_enqueue_after.
    + simpl. split; [|done]. set_solver.
    + destruct H as [H1 H2 H3 H4 H5]. constructor; simpl; try done.
      intros c' k' aw' Hin. eapply H4.
      by eapply list_elem_of_delete_inv.
Qed.

Lemma Ordered_steps (w : World) (es : list Event) :
  Ordered None w →
  Ordered None (steps options vuetifyBase cwd cacheFile w es).
Proof.
  revert w. induction es as [|e es IH]; intros w H; simpl; [done|].
  by apply IH, Ordered_step.
Qed.

Lemma writeBeforeResume_split (t later earlier : list Effect) (c k : nat)
    (v : Value) :
  writeBeforeResume t → t = later ++ Resumed c k v :: earlier →
  c ∈ writtenCycles earlier.
Proof.
  revert t. induction later as [|e later IH]; intros t Ht ->; simpl in *.
  - by destruct Ht.
  - eapply IH; [|done]. destruct e; simpl in *; try done; by destruct Ht.
Qed.

Lemma writtenCycles_elem (t : list Effect) (c : nat) :
  c ∈ writtenCycles t → ∃ fs, WriteStyles c fs ∈ t.
Proof.
  induction t as [|e t IH]; simpl; [by intros ?%elem_of_nil|].
  destruct e; try (intros [fs Hfs]%IH; exists fs; by right).
  intros [->|Hin]%elem_of_cons.
  - eexists. by left.
  - destruct (IH Hin) as [fs Hfs]. exists fs. by right.
Qed.

(** C1: in every run, a caller of [awaitResolve] that goes on after its
    [await] (the effect [Resumed c k v], for call [k] of cycle [c]) does so
    after [writeStyles] was called for that cycle: the call is among the
    effects that came before.  The call that made the cycle goes on after
    that call is fulfilled; a call that joined the cycle may go on while
    it is still under way. *)
Theorem write_before_resume (h : Host) (es : list Event)
    (later earlier : list Effect) (c k : nat) (v : Value) :
  trace (steps options vuetifyBase cwd cacheFile (boot h) es)
  = later ++ Resumed c k v :: earlier →
  ∃ fs, WriteStyles c fs ∈ earlier.
Proof.
  intros Ht. apply writtenCycles_elem.
  eapply writeBeforeResume_split; [|exact Ht].
  apply (ordered_trace None), Ordered_steps, Ordered_boot.
Qed.

End OrderedSteps.

(** ** The barrier settles with [false] *)

Lemma Forall_map_all {A B} (P : B → Prop) (f : A → B) (l : list A) :
  (∀ x, P (f x)) → Forall P (map f l).
Proof. intros H. induction l; simpl; by constructor. Qed.

Section DegradedSteps.

Variable options : Options.
Variable vuetifyBase cwd cacheFile : string.
Variable strict : bool.

Lemma Degraded_frame (w w' : World) :
  queue w' = queue w → promises w' = promises w → trace w' = trace w →
  Degraded strict w → Degraded strict w'.
Proof. intros Hq Hp Ht [H1 H2 H3]. constructor; by rewrite ?Hq, ?Hp, ?Ht. Qed.

Ltac same H := eapply Degraded_frame; [..|exact H]; reflexivity.

Lemma Degraded_enqueue (j : Job) (w : World) :
  carriesFalse strict j → Degraded strict w → Degraded strict (enqueue j w).
Proof.
  intros Hj [H1 H2 H3]. constructor; simpl; try done.
  apply Forall_app. split; [done|]. by apply Forall_singleton.
Qed.

Lemma Degraded_emits (es : list Effect) (w : World) :
  Forall (seesFalse strict) es → Degraded strict w →
  Degraded strict (emits es w).
Proof.
  intros Hes [H1 H2 H3]. constructor; simpl; try done.
  apply Forall_app. split; [|done]. by apply Forall_rev.
Qed.

Lemma Degraded_emit (e : Effect) (w : World) :
  seesFalse strict e → Degraded strict w → Degraded strict (emit e w).
Proof.
  intros He [H1 H2 H3]. constructor; simpl; try done. by apply Forall_cons.
Qed.

Lemma Degraded_lookup (w : World) (c : nat) (v : Value) :
  Degraded strict w → promises w !! c = Some (Fulfilled v) → v = VFalse.
Proof.
  intros [H1 _ _] Hc. rewrite Forall_lookup in H1. by apply (H1 c _ Hc).
Qed.

Lemma carriesFalse_react (c : nat) (x : Reaction) :
  carriesFalse strict (react c VFalse x).
Proof. by destruct x. Qed.

Lemma Degraded_subscribe (c : nat) (x : Reaction) (w : World) :
  Degraded strict w → Degraded strict (subscribe c x w).
Proof.
  intros H. unfold subscribe.
  destruct (promises w !! c) as [[reactions|v|]|] eqn:Hc; try done.
  - destruct H as [H1 H2 H3]. constructor; simpl; try done.
    by apply Forall_insert.
  - rewrite (Degraded_lookup w c v H Hc).
    apply Degraded_enqueue; [|done]. apply carriesFalse_react.
Qed.

Lemma Degraded_resolveFalse (w : World) :
  Degraded strict w → Degraded strict (resolveFalse w).
Proof.
  intros H. unfold resolveFalse, fulfil.
  destruct (resolve (vars w)) as [c|]; [|done].
  destruct (promises w !! c) as [[reactions|v|]|] eqn:Hc; try done.
  destruct H as [H1 H2 H3]. constructor; simpl; try done.
  - by apply Forall_insert.
  - apply Forall_app. split; [done|]. apply Forall_map, Forall_forall.
    intros x _. apply carriesFalse_react.
Qed.

Lemma Degraded_awaitBlocking (w : World) :
  Degraded strict w → Degraded strict (awaitBlocking w).
Proof.
  intros H. unfold awaitBlocking.
  assert (H1 : Degraded strict
                 (getPendingModules (update (set_timeout true) w)).1).
  { unfold getPendingModules. simpl. destruct (server (vars w)); [|same H].
    destruct (pendingDev _ _) as [|m modules]; simpl; [same H|].
    match goal with
    | |- Degraded _ (emits ?es ?w') => apply (Degraded_emits es w')
    end.
    - by apply (Forall_map_all _ (fun kv => TransformRequest kv.1)
                  (m :: modules)).
    - same H. }
  destruct (getPendingModules (update (set_timeout true) w)) as [w2 p].
  simpl in *.
  set (r := length (rounds w)).
  set (w3 := set_rounds _ w2).
  assert (H3 : Degraded strict w3) by same H1.
  assert (H4 : Degraded strict
                 match promise (vars w) with
                 | Some c => subscribe c (OnAny r) w3
                 | None => enqueue (AnyElement r VNull) w3
                 end).
  { destruct (promise (vars w)).
    - by apply Degraded_subscribe.
    - by apply Degraded_enqueue. }
  destruct p; try done. by apply Degraded_enqueue.
Qed.

Lemma Degraded_awaitResolve (id : option string) (awaited : bool) (w : World) :
  Degraded strict w → Degraded strict (awaitResolve id awaited w).
Proof.
  intros H. unfold awaitResolve.
  set (w2 := match id with Some _ => _ | None => _ end).
  assert (H2 : Degraded strict w2).
  { unfold w2. destruct id as [id|]; [destruct (Str.truthy id)|]; same H. }
  destruct (promise (vars w2)) as [c|].
  - by apply Degraded_enqueue.
  - apply Degraded_subscribe, Degraded_awaitBlocking.
    destruct H2 as [H1 H2 H3]. constructor; simpl; try done.
    apply Forall_app. split; [done|]. by apply Forall_singleton.
Qed.

Lemma Degraded_run (j : Job) (q : list Job) (w : World) :
  Degraded strict w → queue w = j :: q →
  Degraded strict (run cacheFile j (set_queue q w)).
Proof.
  intros H Hq.
  assert (Hj : carriesFalse strict j ∧ Degraded strict (set_queue q w)).
  { destruct H as [H1 H2 H3]. rewrite Hq in H2.
    apply Forall_cons in H2 as [Hj H2]. split; [done|]. by constructor. }
  destruct Hj as [Hj H'].
  destruct j as [r v|r|r v|r|r n ok|c k aw|c k aw ok|c k aw|c k aw v|c k o];
    simpl in *.
  - unfold settleAny. destruct (rounds _ !! r) as [x|]; [|done].
    destruct (anySettled x); [done|]. apply Degraded_enqueue; [done|]. same H'.
  - done.
  - destruct (truthy v).
    + by apply Degraded_awaitBlocking.
    + by apply Degraded_resolveFalse.
  - unfold scan. simpl.
    assert (Hx : ∀ j, carriesFalse strict j →
                 Degraded strict
                   (enqueue j (set_probe r Returned (set_queue q w)))).
    { intros j Hj'. apply Degraded_enqueue; [done|]. same H'. }
    destruct (context (vars w)); [|by apply Hx].
    destruct (pendingBuild _ _) as [modules|]; [|by apply Hx].
    destruct modules as [|m modules].
    + apply Degraded_enqueue; [done|]. same H'.
    + eapply (Degraded_frame (emits _ (update _ (set_queue q w))));
        try reflexivity.
      apply Degraded_emits; [|same H'].
      by apply (Forall_map_all _ (fun m => ContextLoad (Rollup.id m))
                  (m :: modules)).
  - apply Degraded_enqueue; [by destruct ok | done].
  - eapply (Degraded_frame (emit _ (set_queue q w))); try reflexivity.
    by apply Degraded_emit.
  - destruct ok.
    + destruct (finalize cacheFile (dev (host w)) (vars w)) as [touches p].
      set (w' := emits _ _).
      assert (Hw' : Degraded strict w').
      { apply Degraded_emits; [|same H']. by apply Forall_map_all. }
      destruct aw; [|done]. apply Degraded_enqueue; [|done]. simpl. by right.
    + destruct aw; [|done]. apply Degraded_enqueue; [|done]. simpl.
      destruct strict; [|done]. by specialize (Hj eq_refl).
  - by apply Degraded_subscribe.
  - destruct aw; [|done]. apply Degraded_enqueue; [|done]. simpl. by left.
  - destruct o as [v|]; by apply Degraded_emit.
Qed.

Lemma Degraded_boot (h : Host) : Degraded strict (boot h).
Proof. by constructor. Qed.

Lemma Degraded_step (w : World) (e : Event) :
  (strict = true → writeFails e = false) →
  Degraded strict w →
  Degraded strict (step options vuetifyBase cwd cacheFile w e).
Proof.
  intros He H. destruct e as [| |root|h|code id|source importer|i resolution|
                              | |r|r ok|i ok]; simpl.
  - same H.
  - same H.
  - same H.
  - same H.
  - destruct (transform_begin options code id); [|done].
    by apply Degraded_awaitResolve.
  - unfold resolveId.
    destruct (resolveId_begin options vuetifyBase cwd source importer).
    + by apply Degraded_emit.
    + same H.
    + eapply (Degraded_frame (awaitResolve None false w)); try reflexivity.
      by apply Degraded_awaitResolve.
    + same H.
  - destruct (resolutions w !! i) as [pending|]; [|done].
    assert (H' : Degraded strict (set_resolutions (delete i (resolutions w)) w))
      by same H.
    destruct pending; simpl; try done.
    + by apply Degraded_emit.
    + destruct (resolveId_expose resolution (vars w)) as [p result].
      apply Degraded_emit; [done|]. same H.
    + destruct (resolveId_configured _ _ _ resolution (vars w)) as [p result].
      apply Degraded_emit; [done|]. same H.
  - destruct (queue w) as [|j q] eqn:Hq; [done|]. by apply Degraded_run.
  - destruct (timeout (vars w) && idle w); [|done].
    apply Degraded_resolveFalse, Degraded_emit; [done|]. same H.
  - destruct (probe <$> rounds w !! r) as [[]|]; try done.
    destruct (idle w); [|done]. apply Degraded_enqueue; [done|]. same H.
  - destruct (probe <$> rounds w !! r) as [[]|]; try done.
    apply Degraded_enqueue; [done|]. same H.
  - destruct (writes w !! i) as [[[c k] aw]|] eqn:Hi; [|done].
    apply Degraded_enqueue; [|same H]. simpl. intros Hs.
    specialize (He Hs). simpl in He. by destruct ok.
Qed.

Lemma Degraded_steps (w : World) (es : list Event) :
  (strict = true → existsb writeFails es = false) →
  Degraded strict w →
  Degraded strict (steps options vuetifyBase cwd cacheFile w es).
Proof.
  revert w. induction es as [|e es IH]; intros w Hes H; simpl; [done|].
  simpl in Hes. apply IH.
  - intros Hs. specialize (Hes Hs). by apply orb_false_iff in Hes as [_ ?].
  - apply Degraded_step; [|done].
    intros Hs. specialize (Hes Hs). by apply orb_false_iff in Hes as [? _].
Qed.

End DegradedSteps.

(** ** The touch of the finalizer *)

Lemma utimes_app (t1 t2 : list Effect) :
  utimes (t1 ++ t2) = utimes t1 ++ utimes t2.
Proof.
  induction t1 as [|e t1 IH]; simpl; [done|]. destruct e; simpl; by rewrite ?IH.
Qed.

Lemma utimes_none (es : list Effect) :
  existsb isUtimes es = false → utimes es = [].
Proof.
  induction es as [|e es IH]; simpl; [done|].
  intros [He Hes]%orb_false_iff. destruct e; try done; by apply IH.
Qed.

Lemma utimes_rev_map {A} (f : A → Effect) (l : list A) :
  (∀ x, isUtimes (f x) = false) → utimes (rev (map f l)) = [].
Proof.
  intros H. apply utimes_none. apply not_true_is_false.
  rewrite existsb_exists. intros (e & He & Hu).
  apply in_rev, in_map_iff in He as (x & <- & _). by rewrite H in Hu.
Qed.

Lemma utimes_Utimes (l : list string) : utimes (map Utimes l) = l.
Proof. induction l; simpl; by f_equal. Qed.

Lemma utimes_rev_Utimes (l : list string) : utimes (rev (map Utimes l)) = rev l.
Proof. by rewrite <- map_rev, utimes_Utimes. Qed.

Section TouchSteps.

Variable options : Options.
Variable vuetifyBase cwd cacheFile : string.

Lemma touchState_subscribe (c : nat) (x : Reaction) (w : World) :
  touchState (subscribe c x w) = touchState w.
Proof.
  unfold subscribe. by destruct (promises w !! c) as [[reactions|v|]|].
Qed.

Lemma touchState_resolveFalse (w : World) :
  touchState (resolveFalse w) = touchState w.
Proof.
  unfold resolveFalse, fulfil. destruct (resolve (vars w)) as [c|]; [|done].
  by destruct (promises w !! c) as [[reactions|v|]|].
Qed.

Lemma touchState_emits (es : list Effect) (w : World) :
  utimes (rev es) = [] → touchState (emits es w) = touchState w.
Proof.
  intros H. unfold touchState. simpl. by rewrite utimes_app, H.
Qed.

Lemma touchState_getPendingModules (w : World) :
  touchState (getPendingModules w).1 = touchState w.
Proof.
  unfold getPendingModules. destruct (server (vars w)) eqn:Hs; [|done].
  destruct (pendingDev _ _) as [|m modules]; simpl.
  - unfold touchState. simpl. done.
  - match goal with
    | |- touchState (emits ?es ?w') = _ =>
        rewrite (touchState_emits es w')
    end; [done|].
    apply (utimes_rev_map (fun kv => TransformRequest kv.1) (m :: modules)).
    done.
Qed.

Lemma touchState_awaitBlocking (w : World) :
  touchState (awaitBlocking w) = touchState w.
Proof.
  unfold awaitBlocking.
  pose proof (touchState_getPendingModules (update (set_timeout true) w)) as H.
  destruct (getPendingModules (update (set_timeout true) w)) as [w2 p].
  simpl in H.
  set (r := length (rounds w)).
  set (w3 := set_rounds _ w2).
  assert (H3 : touchState w3 = touchState w) by (by etransitivity; [|exact H]).
  assert (H4 : touchState
                 match promise (vars w) with
                 | Some c => subscribe c (OnAny r) w3
                 | None => enqueue (AnyElement r VNull) w3
                 end = touchState w).
  { destruct (promise (vars w)); [by rewrite touchState_subscribe|done]. }
  destruct p; try done.
Qed.

Lemma touchState_awaitResolve (id : option string) (awaited : bool)
    (w : World) :
  touchState (awaitResolve id awaited w) = touchState w.
Proof.
  unfold awaitResolve.
  set (w2 := match id with Some _ => _ | None => _ end).
  assert (H2 : touchState w2 = touchState w).
  { unfold w2. by destruct id as [id|]; [destruct (Str.truthy id)|]. }
  destruct (promise (vars w2)) as [c|]; [done|].
  by rewrite touchState_subscribe, touchState_awaitBlocking.
Qed.

Lemma touchState_scan (r : nat) (w : World) :
  touchState (scan r w) = touchState w.
Proof.
  unfold scan. destruct (context (vars w)); [|done].
  destruct (pendingBuild _ _) as [modules|]; [|done].
  destruct modules as [|m modules]; [done|].
  match goal with
  | |- touchState (set_probe _ _ (emits ?es ?w')) = _ =>
      transitivity (touchState (emits es w')); [done|];
      rewrite (touchState_emits es w')
  end; [done|].
  by apply (utimes_rev_map (fun m => ContextLoad (Rollup.id m)) (m :: modules)).
Qed.

(** A job other than the end of [awaitResolve] leaves the touch state. *)
Lemma touchState_run (j : Job) (w : World) :
  (∀ c k awaited, j ≠ Written c k awaited true) →
  touchState (run cacheFile j w) = touchState w.
Proof.
  intros Hj.
  destruct j as [r v|r|r v|r|r n ok|c k aw|c k aw ok|c k aw|c k aw v|c k o];
    simpl.
  - unfold settleAny. destruct (rounds _ !! r) as [x|]; [|done].
    by destruct (anySettled x).
  - done.
  - destruct (truthy v);
      [apply touchState_awaitBlocking | apply touchState_resolveFalse].
  - apply touchState_scan.
  - done.
  - done.
  - destruct ok; [by destruct (Hj c k aw)|]. by destruct aw.
  - apply touchState_subscribe.
  - by destruct aw.
  - by destruct o.
Qed.

(** The end of [awaitResolve]: the touch. *)
Lemma touchState_finalize (c k : nat) (awaited : bool) (w : World) :
  touchState (run cacheFile (Written c k awaited true) w)
  = (files (vars w),
     if server (vars w) then false else needsTouch (vars w),
     server (vars w),
     rev (if server (vars w) && needsTouch (vars w)
          then touched cacheFile (dev (host w)) else [])
     ++ utimes (trace w)).
Proof.
  simpl. unfold finalize.
  destruct (server (vars w)) eqn:Hs, (needsTouch (vars w)) eqn:Hn; simpl;
    destruct awaited; unfold touchState; simpl;
    rewrite ?utimes_app, ?utimes_rev_Utimes, ?Hs, ?Hn; done.
Qed.

Lemma calm_same (w w' : World) : touchState w' = touchState w → calm w w'.
Proof.
  unfold touchState. intros [= Hf Hn Hs Hu]. split; [by rewrite Hf|].
  intros H _. by rewrite Hn, Hu.
Qed.

Lemma calm_trans (w1 w2 w3 : World) : calm w1 w2 → calm w2 w3 → calm w1 w3.
Proof.
  intros [Ha Hb] [Hc Hd]. split; [set_solver|].
  intros Hn Hf.
  assert (Hf2 : files (vars w2) = files (vars w1)) by set_solver.
  destruct (Hb Hn Hf2) as [Hn2 Hu2].
  destruct (Hd Hn2) as [Hn3 Hu3]; [congruence|]. split; congruence.
Qed.

Lemma calm_step (w : World) (e : Event) :
  calm w (step options vuetifyBase cwd cacheFile w e).
Proof.
  destruct e as [| |root|h|code id|source importer|i resolution|
                 | |r|r ok|i ok]; simpl.
  - split; [done|]. intros Hn _. done.
  - apply calm_same. unfold buildStart, update. by destruct (server (vars w)).
  - apply calm_same. unfold configResolved, update.
    destruct (styles options); try done. by destruct (Path.isAbsolute _).
  - by apply calm_same.
  - apply calm_same. destruct (transform_begin options code id); [|done].
    apply touchState_awaitResolve.
  - apply calm_same. unfold resolveId.
    destruct (resolveId_begin options vuetifyBase cwd source importer);
      try done.
    etransitivity; [|apply (touchState_awaitResolve None false w)]. done.
  - destruct (resolutions w !! i) as [pending|]; [|by apply calm_same].
    destruct pending; simpl; try by apply calm_same.
    + destruct resolution as [file|]; simpl; [|by apply calm_same].
      unfold registerFragment.
      destruct (decide (file ∈ files (vars w))) as [Hin|Hin];
        [by apply calm_same|].
      split; simpl; [set_solver|]. intros _ Hf. set_solver.
    + destruct resolution as [file|]; simpl; by apply calm_same.
  - destruct (queue w) as [|j q] eqn:Hq; [by apply calm_same|].
    assert (Hj : (∃ c k aw, j = Written c k aw true)
                 ∨ (∀ c k aw, j ≠ Written c k aw true)).
    { destruct j as [| | | | | |c k aw ok| | |]; try by right.
      destruct ok; [left; eauto | by right]. }
    destruct Hj as [Hj|Hj].
    + destruct Hj as (c & k & aw & ->).
      pose proof (touchState_finalize c k aw (set_queue q w)) as H.
      set (w' := run cacheFile (Written c k aw true) (set_queue q w)) in *.
      unfold touchState in H.
      change (vars (set_queue q w)) with (vars w) in H.
      change (trace (set_queue q w)) with (trace w) in H.
      injection H as Hf Hn Hs Hu.
      split; [by rewrite Hf|]. intros Hn0 _. rewrite Hn, Hu, Hn0.
      rewrite andb_false_r. simpl. by destruct (server (vars w)).
    + apply calm_same.
      etransitivity; [by apply touchState_run|done].
  - apply calm_same. destruct (timeout (vars w) && idle w); [|done].
    by rewrite touchState_resolveFalse.
  - apply calm_same. destruct (probe <$> rounds w !! r) as [[]|]; try done.
    by destruct (idle w).
  - apply calm_same. by destruct (probe <$> rounds w !! r) as [[]|].
  - apply calm_same. by destruct (writes w !! i) as [[[c k] aw]|].
Qed.

Lemma calm_steps (w : World) (es : list Event) :
  calm w (steps options vuetifyBase cwd cacheFile w es).
Proof.
  revert w. induction es as [|e es IH]; intros w; simpl.
  - by apply calm_same.
  - eapply calm_trans; [apply calm_step | apply IH].
Qed.

End TouchSteps.

(** ** One settle cycle at a time *)

Lemma finishers_app (q1 q2 : list Job) :
  finishers (q1 ++ q2) = finishers q1 + finishers q2.
Proof. induction q1 as [|j q1 IH]; simpl; [done|]. rewrite IH. lia. Qed.

Lemma firstReactions_app (r1 r2 : list Reaction) :
  firstReactions (r1 ++ r2) = firstReactions r1 + firstReactions r2.
Proof. induction r1 as [|x r1 IH]; simpl; [done|]. rewrite IH. lia. Qed.

Lemma finishers_react (c : nat) (v : Value) (reactions : list Reaction) :
  finishers (map (react c v) reactions) = firstReactions reactions.
Proof.
  induction reactions as [|x reactions IH]; simpl; [done|].
  rewrite IH. by destruct x.
Qed.

Lemma not_pending_lookup (ps : list PromiseState) (c : nat)
    (reactions : list Reaction) :
  existsb isPending ps = false → ps !! c ≠ Some (Pending reactions).
Proof.
  intros H Hc. apply not_true_iff_false in H. apply H.
  apply existsb_exists. exists (Pending reactions). split; [|done].
  apply list_elem_of_In. by eapply list_elem_of_lookup_2.
Qed.

Lemma pending_insert (ps : list PromiseState) (c : nat) (s : PromiseState) :
  isPending s = false →
  (∀ c' reactions, ps !! c' = Some (Pending reactions) → c' = c) →
  existsb isPending (<[c := s]> ps) = false.
Proof.
  intros Hs Hps. apply not_true_iff_false. rewrite existsb_exists.
  intros (s' & Hin & Hp). apply list_elem_of_In, list_elem_of_lookup in Hin.
  destruct Hin as [c' Hc']. destruct s' as [reactions| |]; try done.
  destruct (decide (c' = c)) as [->|Hne].
  - apply lookup_lt_Some in Hc' as Hlt. rewrite length_insert in Hlt.
    rewrite list_lookup_insert_eq in Hc' by done. by simplify_eq.
  - rewrite list_lookup_insert_ne in Hc' by done. by apply Hps in Hc'.
Qed.

Section SingleSteps.

Variable options : Options.
Variable vuetifyBase cwd cacheFile : string.

Lemma Single_frame (w w' : World) :
  promise (vars w') = promise (vars w) → promises w' = promises w →
  queue w' = queue w → writes w' = writes w → Single w → Single w'.
Proof.
  intros Hv Hp Hq Hw [H1 H2 H3 H4]. unfold ending in *.
  constructor; unfold ending; rewrite ?Hv, ?Hp, ?Hq, ?Hw; done.
Qed.

Ltac kept H := eapply Single_frame; [..|exact H]; reflexivity.

Lemma Single_enqueue (j : Job) (w : World) :
  finishing j = false → Single w → Single (enqueue j w).
Proof.
  intros Hj [H1 H2 H3 H4]. unfold ending in *.
  constructor; unfold ending; simpl; rewrite ?finishers_app; simpl;
    rewrite ?Hj, ?Nat.add_0_r; done.
Qed.

Lemma Single_emits (es : list Effect) (w : World) :
  Single w → Single (emits es w).
Proof. intros H. kept H. Qed.

(** A new reaction of a pending promise. *)
Lemma Single_reactions (c : nat) (reactions reactions' : list Reaction)
    (w : World) :
  promises w !! c = Some (Pending reactions) →
  firstReactions reactions' ≤ 1 →
  Single w →
  Single (set_promises (<[c := Pending reactions']> (promises w)) w).
Proof.
  intros Hc Hr [H1 H2 H3 H4]. unfold ending in *.
  constructor; unfold ending; simpl; try done.
  - intros c' rs. destruct (decide (c' = c)) as [->|Hne].
    + rewrite list_lookup_insert_eq by by eapply lookup_lt_Some.
      intros [= <-]. split; [|done]. by apply (H1 c reactions).
    + rewrite list_lookup_insert_ne by done. apply H1.
  - intros He. specialize (H3 He). by apply not_pending_lookup with (c := c)
      (reactions := reactions) in H3.
Qed.

Lemma Single_subscribe (c : nat) (x : Reaction) (w : World) :
  isOnFirst x = false → Single w → Single (subscribe c x w).
Proof.
  intros Hx H. unfold subscribe.
  destruct (promises w !! c) as [[reactions|v|]|] eqn:Hc; try done.
  - eapply Single_reactions; try done.
    rewrite firstReactions_app. simpl. rewrite Hx.
    destruct (single_pending _ H c _ Hc). lia.
  - apply Single_enqueue; [|done]. by destruct x.
Qed.

Lemma Single_subscribe_first (c k : nat) (awaited : bool)
    (reactions : list Reaction) (w : World) :
  promises w !! c = Some (Pending reactions) →
  firstReactions reactions = 0 →
  Single w → Single (subscribe c (OnFirst k awaited) w).
Proof.
  intros Hc Hr H. unfold subscribe. rewrite Hc.
  eapply Single_reactions; try done.
  rewrite firstReactions_app. simpl. lia.
Qed.

Lemma Single_fulfil (c : nat) (v : Value) (w : World) :
  Single w → Single (fulfil c v w).
Proof.
  intros H. unfold fulfil.
  destruct (promises w !! c) as [[reactions|v'|]|] eqn:Hc; try done.
  destruct (single_pending _ H c _ Hc) as [Hvar Hr].
  assert (He : ending w = 0).
  { destruct (ending w) as [|n] eqn:He; [done|].
    assert (Hs : existsb isPending (promises w) = false)
      by (apply (single_settled _ H); lia).
    by apply not_pending_lookup with (c := c) (reactions := reactions) in Hs. }
  assert (Hnone :
            existsb isPending (<[c := Fulfilled v]> (promises w)) = false).
  { apply pending_insert; [done|]. intros c' rs Hc'.
    destruct (single_pending _ H c' _ Hc') as [Hvar' _]. congruence. }
  unfold ending in He.
  constructor; unfold ending; simpl;
    rewrite ?finishers_app, ?finishers_react; try done.
  - intros c' rs Hc'.
    by apply not_pending_lookup with (c := c') (reactions := rs) in Hnone.
  - lia.
  - rewrite Hvar. done.
Qed.

Lemma Single_resolveFalse (w : World) : Single w → Single (resolveFalse w).
Proof.
  intros H. unfold resolveFalse. destruct (resolve (vars w)); [|done].
  by apply Single_fulfil.
Qed.

Lemma Single_getPendingModules (w : World) :
  Single w → Single (getPendingModules w).1.
Proof.
  intros H. unfold getPendingModules.
  destruct (server (vars w)); [|done].
  destruct (pendingDev _ _) as [|m modules]; simpl; kept H.
Qed.

(** What one round of [awaitBlocking] leaves of the promises: reactions of
    [Promise.any] are added, no other. *)
Lemma promises_awaitBlocking (c : nat) (reactions : list Reaction) (w : World) :
  promises w !! c = Some (Pending reactions) →
  ∃ reactions',
    promises (awaitBlocking w) !! c = Some (Pending reactions')
    ∧ firstReactions reactions' = firstReactions reactions.
Proof.
  intros Hc. unfold awaitBlocking.
  assert (H1 : promises (getPendingModules (update (set_timeout true) w)).1
               = promises w).
  { unfold getPendingModules. simpl. destruct (server (vars w)); [|done].
    by destruct (pendingDev _ _). }
  destruct (getPendingModules (update (set_timeout true) w)) as [w2 p].
  simpl in H1.
  set (r := length (rounds w)).
  set (w3 := set_rounds _ w2).
  assert (H4 : ∃ reactions',
             promises match promise (vars w) with
                      | Some c' => subscribe c' (OnAny r) w3
                      | None => enqueue (AnyElement r VNull) w3
                      end !! c = Some (Pending reactions')
             ∧ firstReactions reactions' = firstReactions reactions).
  { destruct (promise (vars w)) as [c'|]; simpl.
    - unfold subscribe. simpl. rewrite H1.
      destruct (promises w !! c') as [[rs|v|]|] eqn:Hc'; simpl;
        rewrite ?H1; eauto.
      destruct (decide (c' = c)) as [->|Hne].
      + rewrite list_lookup_insert_eq by by eapply lookup_lt_Some.
        eexists. split; [done|]. rewrite firstReactions_app. simpl.
        assert (rs = reactions) as -> by congruence. lia.
      + rewrite list_lookup_insert_ne by done. eauto.
    - rewrite H1. eauto. }
  destruct p; try done.
Qed.

Lemma Single_awaitBlocking (w : World) :
  Single w → Single (awaitBlocking w).
Proof.
  intros H. unfold awaitBlocking.
  assert (H1 : Single (update (set_timeout true) w)) by kept H.
  apply Single_getPendingModules in H1. simpl.
  destruct (getPendingModules (update (set_timeout true) w)) as [w2 p].
  simpl in H1.
  set (r := length (rounds w)).
  set (w3 := set_rounds _ w2).
  assert (H3 : Single w3) by kept H1.
  assert (H4 : Single
                 match promise (vars w) with
                 | Some c => subscribe c (OnAny r) w3
                 | None => enqueue (AnyElement r VNull) w3
                 end).
  { destruct (promise (vars w)).
    - by apply Single_subscribe.
    - by apply Single_enqueue. }
  destruct p; try done. by apply Single_enqueue.
Qed.

(** A new cycle: [promise = new Promise(...)]. *)
Lemma Single_create (w : World) :
  promise (vars w) = None → Single w →
  Single (update (fun p => set_promise (Some (length (promises w)))
                             (set_resolve (Some (length (promises w))) p))
            (set_promises (promises w ++ [Pending []]) w)).
Proof.
  intros Hvar H.
  assert (Hnone : ∀ c reactions, promises w !! c ≠ Some (Pending reactions)).
  { intros c rs Hc. destruct (single_pending _ H c _ Hc). congruence. }
  pose proof (single_idle _ H Hvar) as He.
  destruct H as [H1 H2 H3 H4]. unfold ending in *.
  constructor; unfold ending; simpl; try done.
  - intros c rs Hc. apply lookup_app_Some in Hc as [Hc|[Hlen Hc]].
    + by apply Hnone in Hc.
    + destruct (c - length (promises w)) as [|n] eqn:Hn; [|done].
      simpl in Hc. injection Hc as <-. split; [|simpl; lia].
      f_equal. lia.
  - lia.
Qed.

Lemma Single_awaitResolve (id : option string) (awaited : bool) (w : World) :
  Single w → Single (awaitResolve id awaited w).
Proof.
  intros H. unfold awaitResolve.
  set (w2 := match id with Some _ => _ | None => _ end).
  assert (H2 : Single w2).
  { unfold w2. destruct id as [id|]; [destruct (Str.truthy id)|]; kept H. }
  destruct (promise (vars w2)) as [c|] eqn:Hvar.
  - by apply Single_enqueue.
  - pose proof (Single_create w2 Hvar H2) as H3.
    set (w3 := update _ _) in *.
    assert (Hc : promises w3 !! length (promises w2) = Some (Pending [])).
    { unfold w3. simpl. rewrite lookup_app_r by done.
      by rewrite Nat.sub_diag. }
    destruct (promises_awaitBlocking _ _ _ Hc) as (reactions & Hr & Hn).
    eapply Single_subscribe_first; [exact Hr|exact Hn|].
    by apply Single_awaitBlocking.
Qed.

Lemma Single_pop (j : Job) (q : list Job) (w : World) :
  Single w → queue w = j :: q → finishing j = false →
  Single (set_queue q w).
Proof.
  intros [H1 H2 H3 H4] Hq Hj. unfold ending in *. rewrite Hq in *.
  simpl in *. rewrite Hj in *.
  constructor; unfold ending; simpl; done.
Qed.

Lemma Single_run (j : Job) (q : list Job) (w : World) :
  Single w → queue w = j :: q → Single (run cacheFile j (set_queue q w)).
Proof.
  intros H Hq.
  destruct j as [r v|r|r v|r|r n ok|c k aw|c k aw ok|c k aw|c k aw v|c k o].
  - pose proof (Single_pop _ _ _ H Hq eq_refl) as H'. simpl.
    unfold settleAny. destruct (rounds _ !! r) as [x|]; [|done].
    destruct (anySettled x); [done|]. apply Single_enqueue; [done|]. kept H'.
  - by pose proof (Single_pop _ _ _ H Hq eq_refl) as H'.
  - pose proof (Single_pop _ _ _ H Hq eq_refl) as H'. simpl.
    destruct (truthy v).
    + by apply Single_awaitBlocking.
    + by apply Single_resolveFalse.
  - pose proof (Single_pop _ _ _ H Hq eq_refl) as H'. simpl. unfold scan.
    simpl.
    assert (Hx : ∀ j, finishing j = false →
                 Single (enqueue j (set_probe r Returned (set_queue q w)))).
    { intros j Hj. apply Single_enqueue; [done|]. kept H'. }
    destruct (context (vars w)); [|by apply Hx].
    destruct (pendingBuild _ _) as [modules|]; [|by apply Hx].
    destruct modules as [|m modules].
    + apply Single_enqueue; [done|]. kept H'.
    + kept H'.
  - pose proof (Single_pop _ _ _ H Hq eq_refl) as H'. simpl.
    apply Single_enqueue; [by destruct ok | done].
  - destruct H as [H1 H2 H3 H4]. unfold ending in *. rewrite Hq in *.
    simpl in *.
    constructor; unfold ending; simpl; rewrite ?length_app; simpl.
    + done.
    + lia.
    + intros _. apply H3. lia.
    + intros Hv. specialize (H4 Hv). lia.
  - assert (Hnone : existsb isPending (promises w) = false).
    { apply (single_settled _ H). unfold ending. rewrite Hq. simpl. lia. }
    assert (He : finishers q + length (writes w) = 0).
    { pose proof (single_ending _ H) as He. unfold ending in He.
      rewrite Hq in He. simpl in He. lia. }
    assert (H' : Single (set_queue q w)).
    { destruct H as [H1 H2 H3 H4].
      constructor; unfold ending; simpl; try done; lia. }
    simpl. destruct ok.
    + unfold finalize.
      set (tp := if server (vars w) && needsTouch (vars w) then _ else _).
      destruct tp as [touches p] eqn:Htp. simpl.
      assert (Hw' : Single (emits (map Utimes touches)
                              (set_vars (set_promise None p) (set_queue q w)))).
      { constructor; unfold ending; simpl; try done.
        - intros c' rs Hc'.
          by apply not_pending_lookup with (c := c') (reactions := rs)
            in Hnone.
        - lia. }
      destruct aw; [|done]. by apply Single_enqueue.
    + destruct aw; [|done]. by apply Single_enqueue.
  - pose proof (Single_pop _ _ _ H Hq eq_refl) as H'. simpl.
    by apply Single_subscribe.
  - pose proof (Single_pop _ _ _ H Hq eq_refl) as H'. simpl.
    destruct aw; [|done]. by apply Single_enqueue.
  - pose proof (Single_pop _ _ _ H Hq eq_refl) as H'. simpl.
    destruct o; kept H'.
Qed.

Lemma Single_boot (h : Host) : Single (boot h).
Proof. constructor; unfold ending; simpl; try done; lia. Qed.

Lemma Single_step (w : World) (e : Event) :
  Single w → Single (step options vuetifyBase cwd cacheFile w e).
Proof.
  intros H. destruct e as [| |root|h|code id|source importer|i resolution|
                           | |r|r ok|i ok]; simpl.
  - kept H.
  - unfold buildStart, update. destruct (server (vars w)); kept H.
  - unfold configResolved, update. destruct (styles options); try kept H.
    destruct (Path.isAbsolute _); kept H.
  - kept H.
  - destruct (transform_begin options code id); [|done].
    by apply Single_awaitResolve.
  - unfold resolveId.
    destruct (resolveId_begin options vuetifyBase cwd source importer);
      try kept H.
    eapply (Single_frame (awaitResolve None false w)); try reflexivity.
    by apply Single_awaitResolve.
  - destruct (resolutions w !! i) as [pending|]; [|done].
    destruct pending; simpl; try kept H.
    + destruct resolution as [file|]; simpl; [|kept H].
      unfold registerFragment. destruct (decide _); kept H.
    + destruct resolution as [file|]; simpl; kept H.
  - destruct (queue w) as [|j q] eqn:Hq; [done|]. by apply Single_run.
  - destruct (timeout (vars w) && idle w); [|done].
    apply Single_resolveFalse. kept H.
  - destruct (probe <$> rounds w !! r) as [[]|]; try done.
    destruct (idle w); [|done]. apply Single_enqueue; [done|]. kept H.
  - destruct (probe <$> rounds w !! r) as [[]|]; try done.
    apply Single_enqueue; [done|]. kept H.
  - destruct (writes w !! i) as [[[c k] aw]|] eqn:Hi; [|done].
    assert (Hlen : length (delete i (writes w)) = length (writes w) - 1).
    { apply length_delete. eauto. }
    apply lookup_lt_Some in Hi.
    destruct H as [H1 H2 H3 H4]. unfold ending in *.
    constructor; unfold ending; simpl; rewrite ?finishers_app, ?Hlen; simpl.
    + done.
    + lia.
    + intros _. apply H3. lia.
    + intros Hv. specialize (H4 Hv). lia.
Qed.

Lemma Single_steps (w : World) (es : list Event) :
  Single w → Single (steps options vuetifyBase cwd cacheFile w es).
Proof.
  revert w. induction es as [|e es IH]; intros w H; simpl; [done|].
  by apply IH, Single_step.
Qed.

End SingleSteps.

(** ** Calls that join a cycle *)

Lemma awaitResolve_joins (id : option string) (awaited : bool) (c : nat)
    (w : World) :
  promise (vars w) = Some c →
  awaitResolve id awaited w
  = enqueue (Adopt c (calls w) awaited)
      (update (fun p => set_blockingModules
                          (blockingModules p ∪ blockers [(id, awaited)]) p)
         (set_calls (S (calls w)) w)).
Proof.
  intros Hc. unfold awaitResolve, blockers. simpl.
  assert (Heta : ∀ p, set_blockingModules (blockingModules p) p = p)
    by (by intros []).
  destruct id as [id|]; [destruct (Str.truthy id)|]; simpl; rewrite Hc.
  - unfold enqueue, update. simpl. do 3 f_equal. set_solver.
  - unfold enqueue, update. simpl.
    replace (blockingModules (vars w) ∪ (∅ ∪ ∅)) with (blockingModules (vars w))
      by set_solver.
    rewrite Heta. by destruct w.
  - unfold enqueue, update. simpl.
    replace (blockingModules (vars w) ∪ (∅ ∪ ∅)) with (blockingModules (vars w))
      by set_solver.
    rewrite Heta. by destruct w.
Qed.

Lemma awaitResolves_join (callers : list (option string * bool)) (c : nat)
    (w : World) :
  promise (vars w) = Some c →
  promise (vars (awaitResolves callers w)) = Some c
  ∧ resolve (vars (awaitResolves callers w)) = resolve (vars w)
  ∧ timeout (vars (awaitResolves callers w)) = timeout (vars w)
  ∧ promises (awaitResolves callers w) = promises w
  ∧ rounds (awaitResolves callers w) = rounds w
  ∧ trace (awaitResolves callers w) = trace w
  ∧ blockingModules (vars (awaitResolves callers w))
    = blockingModules (vars w) ∪ blockers callers
  ∧ queue (awaitResolves callers w)
    = queue w ++ imap (fun i call => Adopt c (calls w + i) call.2) callers.
Proof.
  revert w. induction callers as [|[id awaited] callers IH]; intros w Hc.
  - simpl. rewrite app_nil_r. unfold blockers. simpl.
    split_and!; try done. set_solver.
  - change (awaitResolves ((id, awaited) :: callers) w)
      with (awaitResolves callers (awaitResolve id awaited w)).
    rewrite (awaitResolve_joins id awaited c w Hc).
    set (w' := enqueue _ _).
    destruct (IH w') as (H1 & H2 & H3 & H4 & H5 & H6 & H7 & H8); [done|].
    rewrite H1, H2, H3, H4, H5, H6, H7, H8. split_and!; try done.
    + unfold w', blockers. simpl. set_solver.
    + unfold w'. simpl. rewrite <- app_assoc. simpl. do 2 f_equal.
      * f_equal. lia.
      * apply imap_ext. intros i x _. simpl. f_equal. lia.
Qed.


(** ** The claims about the barrier *)

Section Claims.

Variable options : Options.
Variable vuetifyBase cwd cacheFile : string.

(** C2: at any moment of any run at most one settle cycle is alive: the only
    promise that can be pending is the one the variable [promise] holds.
    While that variable is not [null], calls of [awaitResolve], however
    many, create no promise and start no round of [awaitBlocking] (the
    promises, the rounds and the timer are what they were); each adds its id
    to [blockingModules] when it has a truthy one, and each returns the
    promise of the cycle: the promise of the call is resolved with it, so
    that all the callers are woken by the same completion. *)
Theorem one_cycle_at_a_time (h : Host) (es : list Event) (c : nat)
    (callers : list (option string * bool)) :
  promise (vars (steps options vuetifyBase cwd cacheFile (boot h) es))
  = Some c →
  (∀ c' reactions,
      promises (steps options vuetifyBase cwd cacheFile (boot h) es) !! c'
      = Some (Pending reactions) → c' = c)
  ∧ promise
      (vars (awaitResolves callers
               (steps options vuetifyBase cwd cacheFile (boot h) es)))
    = Some c
  ∧ promises (awaitResolves callers
                (steps options vuetifyBase cwd cacheFile (boot h) es))
    = promises (steps options vuetifyBase cwd cacheFile (boot h) es)
  ∧ rounds (awaitResolves callers
              (steps options vuetifyBase cwd cacheFile (boot h) es))
    = rounds (steps options vuetifyBase cwd cacheFile (boot h) es)
  ∧ timeout
      (vars (awaitResolves callers
               (steps options vuetifyBase cwd cacheFile (boot h) es)))
    = timeout (vars (steps options vuetifyBase cwd cacheFile (boot h) es))
  ∧ blockingModules
      (vars (awaitResolves callers
               (steps options vuetifyBase cwd cacheFile (boot h) es)))
    = blockingModules
        (vars (steps options vuetifyBase cwd cacheFile (boot h) es))
      ∪ blockers callers
  ∧ queue (awaitResolves callers
             (steps options vuetifyBase cwd cacheFile (boot h) es))
    = queue (steps options vuetifyBase cwd cacheFile (boot h) es)
      ++ imap (fun i call =>
                 Adopt c
                   (calls (steps options vuetifyBase cwd cacheFile
                             (boot h) es) + i)
                   call.2)
           callers.
Proof.
  intros Hc. set (w := steps _ _ _ _ _ _) in *.
  destruct (awaitResolves_join callers c w Hc)
    as (H1 & H2 & H3 & H4 & H5 & H6 & H7 & H8).
  split_and!; try done.
  intros c' reactions Hc'.
  assert (Hs : Single w) by apply Single_steps, Single_boot.
  destruct (single_pending _ Hs c' _ Hc') as [Hvar _]. congruence.
Qed.

(** C5: in every state of every run the promise of each settle cycle is
    pending or fulfilled with [false], never rejected, and the value a
    caller of [awaitResolve] gets is [false] or [null]; a caller gets an
    exception only if a call of [writeStyles] was rejected ([strict] runs
    have none).  From any state, the timer of [awaitBlocking] and the end
    of its loop on a falsy count both fulfil the pending promise of the
    cycle with [false]. *)
Theorem barrier_settles_false (h : Host) (es : list Event) (strict : bool) :
  (strict = true → existsb writeFails es = false) →
  Forall settlesFalse
    (promises (steps options vuetifyBase cwd cacheFile (boot h) es))
  ∧ Forall (seesFalse strict)
      (trace (steps options vuetifyBase cwd cacheFile (boot h) es))
  ∧ ∀ c reactions,
      resolve (vars (steps options vuetifyBase cwd cacheFile (boot h) es))
      = Some c →
      promises (steps options vuetifyBase cwd cacheFile (boot h) es) !! c
      = Some (Pending reactions) →
      (timeout (vars (steps options vuetifyBase cwd cacheFile (boot h) es))
       && idle (steps options vuetifyBase cwd cacheFile (boot h) es) = true →
       promises
         (step options vuetifyBase cwd cacheFile
            (steps options vuetifyBase cwd cacheFile (boot h) es) Watchdog)
       !! c = Some (Fulfilled VFalse))
      ∧ (∀ r v q,
            queue (steps options vuetifyBase cwd cacheFile (boot h) es)
            = Loop r v :: q →
            truthy v = false →
            promises
              (step options vuetifyBase cwd cacheFile
                 (steps options vuetifyBase cwd cacheFile (boot h) es) Tick)
            !! c = Some (Fulfilled VFalse)).
Proof.
  intros Hstrict. set (w := steps _ _ _ _ _ _).
  assert (Hd : Degraded strict w)
    by (by apply Degraded_steps; [|apply Degraded_boot]).
  split; [apply (degraded_promises _ _ Hd)|].
  split; [apply (degraded_trace _ _ Hd)|].
  intros c reactions Hr Hc. split.
  - intros Ht. simpl. rewrite Ht. unfold resolveFalse, fulfil. simpl.
    rewrite Hr, Hc. simpl.
    apply list_lookup_insert_eq. by eapply lookup_lt_Some.
  - intros r v q Hq Hv. simpl. rewrite Hq. simpl. rewrite Hv.
    unfold resolveFalse, fulfil. simpl. rewrite Hr, Hc. simpl.
    apply list_lookup_insert_eq. by eapply lookup_lt_Some.
Qed.


End Claims.

(** The call that joined the cycle goes on after the [writeStyles] call of
    the cycle, and before that call is settled. *)
Lemma write_before_resume_witness :
  ∃ fs,
    WriteStyles 0 fs
    ∈ drop 2 (trace (steps exposeOptions "/node_modules/vuetify" "/app"
                       "/app/.cache/vuetify/styles.scss" (boot oneModule)
                       settling)).
Proof.
  apply (write_before_resume exposeOptions "/node_modules/vuetify" "/app"
           "/app/.cache/vuetify/styles.scss" oneModule settling
           [Resumed 0 0 VNull] _ 0 1 VFalse).
  by vm_compute.
Defined.

Lemma one_cycle_at_a_time_witness :
  rounds (awaitResolves [(Some "/app/src/other.scss", true); (None, false)]
            (steps exposeOptions "/node_modules/vuetify" "/app"
               "/app/.cache/vuetify/styles.scss" (boot oneModule) probing))
  = rounds (steps exposeOptions "/node_modules/vuetify" "/app"
              "/app/.cache/vuetify/styles.scss" (boot oneModule) probing).
Proof.
  apply (one_cycle_at_a_time exposeOptions "/node_modules/vuetify" "/app"
           "/app/.cache/vuetify/styles.scss" oneModule probing 0
           [(Some "/app/src/other.scss", true); (None, false)]).
  by vm_compute.
Defined.

Lemma barrier_settles_false_witness :
  Forall settlesFalse
    (promises (steps exposeOptions "/node_modules/vuetify" "/app"
                 "/app/.cache/vuetify/styles.scss" (boot oneModule) settling))
  ∧ Forall (seesFalse true)
      (trace (steps exposeOptions "/node_modules/vuetify" "/app"
                "/app/.cache/vuetify/styles.scss" (boot oneModule) settling)).
Proof.
  split;
    apply (barrier_settles_false exposeOptions "/node_modules/vuetify" "/app"
             "/app/.cache/vuetify/styles.scss" oneModule settling true);
    intros _; by vm_compute.
Defined.



(** The order of C1 is between the call of [writeStyles] and the callers,
    not between its completion and the callers: the call that joined the
    cycle has gone on while [writeStyles] is still under way. *)
Lemma joined_resumes_while_writing :
  head (trace (steps exposeOptions "/node_modules/vuetify" "/app"
                 "/app/.cache/vuetify/styles.scss" (boot oneModule)
                 (take 10 settling)))
  = Some (Resumed 0 1 VFalse)
  ∧ writes (steps exposeOptions "/node_modules/vuetify" "/app"
              "/app/.cache/vuetify/styles.scss" (boot oneModule)
              (take 10 settling))
    = [(0, 0, true)].
Proof. split; by vm_compute. Qed.

(** * Further properties *)

(** ** Strings *)

Lemma take_slice (n : nat) (s : string) : Str.take n s +:+ Str.slice n s = s.
Proof.
  revert n. induction s as [|a s IH]; intros [|n]; simpl; try done.
  change (String a (Str.take n s +:+ Str.slice n s) = String a s).
  by rewrite IH.
Qed.

Lemma endsWith_split (p s : string) :
  Str.endsWith p s = true → s = Str.take (Str.len s - Str.len p) s +:+ p.
Proof.
  unfold Str.endsWith. intros [_ H%String.eqb_eq]%andb_true_iff.
  rewrite <- (take_slice (Str.len s - Str.len p) s) at 1. by rewrite H.
Qed.

Lemma startsWith_split (p s : string) :
  Str.startsWith p s = true → s = p +:+ Str.slice (Str.len p) s.
Proof.
  unfold Str.startsWith. revert s.
  induction p as [|a p IH]; intros s H; [done|].
  destruct s as [|b s]; [done|]. simpl in H.
  destruct (ascii_dec a b) as [->|]; [|done].
  change (String b s = String b (p +:+ Str.slice (Str.len p) s)).
  by rewrite <- IH.
Qed.

Lemma startsWith_nil (s : string) : Str.startsWith "" s = true.
Proof. by destruct s. Qed.

Lemma startsWith_cons (a b : ascii) (p s : string) :
  Str.startsWith (String a p) (String b s)
  = Ascii.eqb a b && Str.startsWith p s.
Proof.
  unfold Str.startsWith. simpl.
  destruct (ascii_dec a b) as [->|Hne].
  - by rewrite Ascii.eqb_refl.
  - apply Ascii.eqb_neq in Hne. by rewrite Hne.
Qed.

(** ** The regular expressions of [resolveId] and of the probe *)

(** X1: what [source.replace] with the pattern of a final [.css] returns
    never ends in [.css], so replacing twice is replacing once. *)
Theorem css_to_sass_never_css (s : string) :
  Str.endsWith ".css" (Re.css_to_sass s) = false
  ∧ Re.css_to_sass (Re.css_to_sass s) = Re.css_to_sass s.
Proof.
  assert (Str.endsWith ".css" (Re.css_to_sass s) = false) as H.
  { unfold Re.css_to_sass. destruct (Str.endsWith ".css" s) eqn:E; [|done].
    set (x := Str.take _ s). unfold Str.endsWith. rewrite len_app. simpl.
    replace (Str.len x + 5 - 4) with (Str.len x + 1) by lia.
    rewrite slice_add. simpl. apply andb_false_r. }
  split; [done|]. unfold Re.css_to_sass at 1. by rewrite H.
Qed.

(** X2: the pattern by which the probe ignores style sheets is not anchored:
    an id matches exactly when somewhere in it a word character is followed
    by [.sass], [.scss] or [.css], whatever comes before and after. *)
Theorem stylesheet_iff (s : string) :
  Re.stylesheet s = true ↔
  ∃ pre a ext post,
    s = pre +:+ String a (ext +:+ post) ∧ Str.is_word a = true
    ∧ ext ∈ [".sass"; ".scss"; ".css"].
Proof.
  split.
  - induction s as [|a s IH]; [done|]. simpl.
    intros [[Hw H]%andb_true_iff|H]%orb_true_iff.
    + assert (∃ ext, ext ∈ [".sass"; ".scss"; ".css"]
                     ∧ Str.startsWith ext s = true) as (ext & Hin & Hs).
      { apply orb_true_iff in H as [H%orb_true_iff|H].
        - destruct H; eexists; split; try eassumption; set_solver.
        - eexists; split; try eassumption; set_solver. }
      exists "", a, ext, (Str.slice (Str.len ext) s).
      split_and!; try done.
      change (String a s = String a (ext +:+ Str.slice (Str.len ext) s)).
      f_equal. by apply startsWith_split.
    + destruct (IH H) as (pre & b & ext & post & -> & Hw & Hin).
      by exists (String a pre), b, ext, post.
  - intros (pre & a & ext & post & -> & Hw & Hin).
    induction pre as [|b pre IH].
    + change (Re.stylesheet (String a (ext +:+ post)) = true). simpl.
      rewrite Hw. simpl. apply orb_true_iff. left.
      rewrite !elem_of_cons in Hin.
      destruct Hin as [->|[->|[->|Hin]]]; [| | |by apply elem_of_nil in Hin];
        match goal with
        | |- context [Str.startsWith ?e (?e +:+ post)] =>
            rewrite (startsWith_app e post)
        end; by rewrite ?orb_true_r.
    + change (Re.stylesheet (String b (pre +:+ String a (ext +:+ post))) = true).
      simpl. rewrite IH. apply orb_true_r.
Qed.

(** ** [isSubdir] and the sources [resolveId] takes *)

Lemma join_cons (x : string) (rest : list string) :
  Str.join "/" (x :: rest)
  = x +:+ match rest with [] => "" | _ :: _ => "/" +:+ Str.join "/" rest end.
Proof. destruct rest; [by rewrite app_empty_r | done]. Qed.

Lemma startsWith_dots (x tail : string) :
  component x = true →
  Str.startsWith ".." (x +:+ match tail with
                             | "" => ""
                             | String _ _ => "/" +:+ tail
                             end)
  = Str.startsWith ".." x.
Proof.
  unfold component. intros H.
  apply andb_true_iff in H as [[[Ht Hu]%andb_true_iff Hdot]%andb_true_iff _].
  destruct x as [|a [|b x]].
  - done.
  - destruct tail; [done|].
    change (Str.startsWith ".." (String a (String "/" (String a0 tail)))
            = Str.startsWith ".." (String a "")).
    rewrite !startsWith_cons. simpl. by rewrite andb_false_r.
  - change (Str.startsWith ".." (String a (String b (x +:+ match tail with
                             | "" => ""
                             | String _ _ => "/" +:+ tail
                             end)))
            = Str.startsWith ".." (String a (String b x))).
    by rewrite !startsWith_cons, !startsWith_nil.
Qed.

Lemma join_truthy (x : string) (rest : list string) :
  Str.truthy x = true → Str.truthy (Str.join "/" (x :: rest)) = true.
Proof. rewrite join_cons. by destruct x. Qed.

Lemma join_relative (x : string) (rest : list string) :
  component x = true → Path.isAbsolute (Str.join "/" (x :: rest)) = false.
Proof.
  intros Hx. rewrite join_cons. unfold Path.isAbsolute. rewrite toUnix_app.
  rewrite (toUnix_unbroken x) by by apply component_unbroken.
  apply component_truthy in Hx as Ht. apply component_unbroken in Hx.
  destruct x as [|a x]; [done|]. simpl in Hx.
  apply andb_true_iff in Hx as [[Ha%negb_true_iff _]%andb_true_iff _].
  set (tail := Path.toUnix _).
  change (Str.startsWith "/" (String a (x +:+ tail)) = false).
  rewrite startsWith_cons. rewrite Ascii.eqb_sym in Ha. by rewrite Ha.
Qed.

Lemma isSubdir_below (cwd : string) (segs : list string) (x : string)
    (rest : list string) :
  Forall (fun s => component s = true) segs →
  Forall (fun s => component s = true) (x :: rest) →
  isSubdir cwd (absolute segs) (absolute (segs ++ x :: rest))
  = negb (Str.startsWith ".." x).
Proof.
  intros Hs Hr. unfold isSubdir. rewrite relative_absolute by done.
  apply Forall_inv in Hr as Hx.
  rewrite join_truthy by by apply component_truthy.
  rewrite join_relative by done.
  rewrite join_cons.
  assert (match rest with [] => "" | _ :: _ => "/" +:+ Str.join "/" rest end
          = match Str.join "/" rest with
            | "" => ""
            | String _ _ => "/" +:+ Str.join "/" rest
            end) as ->.
  { destruct rest as [|y rest]; [done|].
    apply Forall_inv_tail, Forall_inv, component_truthy in Hr.
    pose proof (join_truthy y rest Hr). by destruct (Str.join "/" (y :: rest)). }
  rewrite startsWith_dots by done. simpl. by rewrite andb_true_r.
Qed.

Lemma join_up (up : list string) (down : list string) (x : string) :
  Str.startsWith ".."
    (Str.join "/" (map (fun _ : string => "..") (x :: up) ++ down)) = true.
Proof.
  simpl map. change ((".." :: ?l) ++ down) with (".." :: (l ++ down)).
  rewrite join_cons. apply startsWith_app.
Qed.

Lemma isSubdir_not_below (cwd : string) (pre r1 r2 : list string) :
  Forall (fun s => component s = true) (pre ++ r1) →
  Forall (fun s => component s = true) (pre ++ r2) →
  r2 = [] ∨ (∃ x y r1' r2', r1 = x :: r1' ∧ r2 = y :: r2' ∧ x ≠ y) →
  isSubdir cwd (absolute (pre ++ r1)) (absolute (pre ++ r2)) = false.
Proof.
  intros H1 H2 Hout. unfold isSubdir, Path.relative.
  rewrite !resolve_absolute, diverge_app by done.
  assert (Path.diverge r1 r2 = (r1, r2)) as ->.
  { destruct Hout as [->|(x & y & r1' & r2' & -> & -> & Hne)].
    - by destruct r1.
    - simpl. apply String.eqb_neq in Hne. by rewrite Hne. }
  destruct r1 as [|x r1].
  - destruct Hout as [->|(? & ? & ? & ? & ? & _)]; done.
  - by rewrite join_up, andb_false_r.
Qed.

Section StyleEntries.

Variable cwd : string.

Lemma css_not_styles (source : string) :
  Str.endsWith ".css" source = true → String.eqb source "vuetify/styles" = false.
Proof.
  intros H. apply String.eqb_neq. intros ->. done.
Qed.

(** X3: a source that ends in [.css] is taken for a style sheet of the
    library when the file it is judged by (the source when it is absolute,
    else the importer) lies below [vuetifyBase]; but not when the first
    component below [vuetifyBase] starts with two dots, which [isSubdir]
    takes for a way out of the root. *)
Theorem css_import_inside (segs : list string) (x : string)
    (rest : list string) (source importer : string) :
  Forall (fun s => component s = true) segs →
  Forall (fun s => component s = true) (x :: rest) →
  Str.endsWith ".css" source = true →
  Str.truthy importer = true →
  (if Path.isAbsolute source then source else importer)
  = absolute (segs ++ x :: rest) →
  isStyleEntry (absolute segs) cwd source (Some importer)
  = negb (Str.startsWith ".." x).
Proof.
  intros Hs Hr Hcss Hi Htest. unfold isStyleEntry.
  rewrite css_not_styles, Hi, Hcss, Htest by done. simpl.
  by apply isSubdir_below.
Qed.

(** X4: a source other than [vuetify/styles] is not taken for a style sheet
    of the library when the file it is judged by is [vuetifyBase] itself, a
    directory above it, or a file of another branch. *)
Theorem css_import_outside (pre r1 r2 : list string)
    (source importer : string) :
  Forall (fun s => component s = true) (pre ++ r1) →
  Forall (fun s => component s = true) (pre ++ r2) →
  r2 = [] ∨ (∃ x y r1' r2', r1 = x :: r1' ∧ r2 = y :: r2' ∧ x ≠ y) →
  source ≠ "vuetify/styles" →
  (if Path.isAbsolute source then source else importer)
  = absolute (pre ++ r2) →
  isStyleEntry (absolute (pre ++ r1)) cwd source (Some importer) = false.
Proof.
  intros H1 H2 Hout Hsrc Htest. unfold isStyleEntry.
  apply String.eqb_neq in Hsrc. rewrite Hsrc, Htest. simpl.
  rewrite isSubdir_not_below by done. by rewrite andb_false_r.
Qed.

End StyleEntries.

Lemma css_import_inside_witness :
  isStyleEntry (absolute ["node_modules"; "vuetify"]) "/app" "./VBtn.css"
    (Some "/node_modules/vuetify/lib/components/VBtn/index.mjs")
  = negb (Str.startsWith ".." "lib").
Proof.
  apply (css_import_inside "/app" ["node_modules"; "vuetify"] "lib"
           ["components"; "VBtn"; "index.mjs"] "./VBtn.css"
           "/node_modules/vuetify/lib/components/VBtn/index.mjs");
    try reflexivity; by repeat constructor.
Defined.

Lemma css_import_outside_witness :
  isStyleEntry (absolute (["node_modules"] ++ ["vuetify"])) "/app"
    "./theme.css" (Some "/node_modules/vue-select/dist/index.mjs")
  = false.
Proof.
  apply (css_import_outside "/app" ["node_modules"] ["vuetify"]
           ["vue-select"; "dist"; "index.mjs"] "./theme.css"
           "/node_modules/vue-select/dist/index.mjs");
    [by repeat constructor | by repeat constructor | | done | reflexivity].
  right. by exists "vuetify", "vue-select", [], ["dist"; "index.mjs"].
Defined.

(** ** The dependencies the probe of the dev server ignores *)

Lemma foreign_dep_cons (a : ascii) (s : string) :
  Re.foreign_dep (String a s)
  = (Str.startsWith "/node_modules/.vite/deps/" (String a s)
     && negb (Str.startsWith "vuetify." (Str.slice 25 (String a s))
              || Str.startsWith "vuetify_" (Str.slice 25 (String a s))))
    || Re.foreign_dep s.
Proof. reflexivity. Qed.

Lemma foreign_dep_unbroken (x s : string) :
  unbroken x = true → Re.foreign_dep (x +:+ s) = Re.foreign_dep s.
Proof.
  induction x as [|a x IH]; [done|]. intros H. simpl in H.
  apply andb_true_iff in H as [[Ha%negb_true_iff _]%andb_true_iff Hx].
  change (String a x +:+ s) with (String a (x +:+ s)).
  rewrite foreign_dep_cons, startsWith_cons, IH by done.
  rewrite Ascii.eqb_sym in Ha. by rewrite Ha.
Qed.

Lemma startsWith_broken (x y name : string) :
  unbroken name = true →
  Str.startsWith (x +:+ String "/" y) name = false.
Proof.
  intros Hn. destruct (Str.startsWith _ name) eqn:E; [|done].
  apply startsWith_split in E. rewrite E in Hn.
  rewrite !unbroken_app in Hn. simpl in Hn.
  by rewrite andb_false_r in Hn.
Qed.

(** X5: of the files of the dependency cache [/node_modules/.vite/deps/] the
    probe of the dev server ignores all but those whose name starts with
    [vuetify.] or [vuetify_]. *)
Theorem foreign_dep_optimized (name : string) :
  unbroken name = true →
  Re.foreign_dep ("/node_modules/.vite/deps/" +:+ name)
  = negb (Str.startsWith "vuetify." name || Str.startsWith "vuetify_" name).
Proof.
  intros Hn.
  assert (Hrest : Re.foreign_dep ("node_modules/.vite/deps/" +:+ name) = false).
  { change ("node_modules/.vite/deps/" +:+ name)
      with ("node_modules" +:+ String "/" (String "." ("vite/deps/" +:+ name))).
    rewrite foreign_dep_unbroken, foreign_dep_cons by done.
    change (Str.startsWith "/node_modules/.vite/deps/"
              (String "/" (String "." ("vite/deps/" +:+ name)))) with false.
    rewrite andb_false_l, orb_false_l.
    change (String "." ("vite/deps/" +:+ name))
      with (".vite" +:+ String "/" (String "d" ("eps/" +:+ name))).
    rewrite foreign_dep_unbroken, foreign_dep_cons by done.
    change (Str.startsWith "/node_modules/.vite/deps/"
              (String "/" (String "d" ("eps/" +:+ name)))) with false.
    rewrite andb_false_l, orb_false_l.
    change (String "d" ("eps/" +:+ name)) with ("deps" +:+ String "/" name).
    rewrite foreign_dep_unbroken, foreign_dep_cons by done.
    rewrite startsWith_cons.
    change "node_modules/.vite/deps/"
      with ("node_modules" +:+ String "/" ".vite/deps/").
    rewrite (startsWith_broken "node_modules" ".vite/deps/" name Hn).
    rewrite andb_false_r, andb_false_l, orb_false_l.
    rewrite <- (app_empty_r name). by rewrite foreign_dep_unbroken. }
  change ("/node_modules/.vite/deps/" +:+ name)
    with (String "/" ("node_modules/.vite/deps/" +:+ name)).
  rewrite foreign_dep_cons, Hrest, orb_false_r.
  change (String "/" ("node_modules/.vite/deps/" +:+ name))
    with ("/node_modules/.vite/deps/" +:+ name).
  rewrite startsWith_app.
  change 25 with (Str.len "/node_modules/.vite/deps/").
  by rewrite slice_app.
Qed.

Lemma foreign_dep_optimized_witness :
  Re.foreign_dep ("/node_modules/.vite/deps/" +:+ "vuetify_components.js")
  = negb (Str.startsWith "vuetify." "vuetify_components.js"
          || Str.startsWith "vuetify_" "vuetify_components.js").
Proof.
  apply (foreign_dep_optimized "vuetify_components.js"). reflexivity.
Defined.

(** ** The import that [transform] rewrites *)

Lemma slice_S (n : nat) (s : string) :
  Str.slice (S n) s = Str.slice 1 (Str.slice n s).
Proof.
  revert s. induction n as [|n IH]; intros [|a s]; try done.
  change (Str.slice (S n) s = Str.slice 1 (Str.slice n s)). apply IH.
Qed.

Lemma quoted_split (s : string) :
  StyleImport.quoted s = true →
  ∃ q, StyleImport.is_quote q = true ∧ s = String q (Str.slice 1 s).
Proof. destruct s as [|q s]; [done|]. intros H. by exists q. Qed.

Lemma head_bind_Some {A B} (f : A → list B) (l : list A) (y : B) :
  head (l ≫= f) = Some y → ∃ x, x ∈ l ∧ y ∈ f x.
Proof.
  intros H. assert (y ∈ l ≫= f) as Hy.
  { destruct (l ≫= f) as [|z t]; [done|]. injection H as ->. by left. }
  apply list_elem_of_bind in Hy as (x & ? & ?). by exists x.
Qed.

(** A match is a keyword, a quote, a target, a quote, and the rest. *)
Lemma matchAt_split (s kw rest : string) :
  StyleImport.matchAt s = Some (kw, rest) →
  ∃ q1 t q2,
    kw ∈ StyleImport.keywords ∧ t ∈ StyleImport.targets
    ∧ StyleImport.is_quote q1 = true ∧ StyleImport.is_quote q2 = true
    ∧ s = kw +:+ String q1 (t +:+ String q2 rest).
Proof.
  unfold StyleImport.matchAt. intros (kw' & Hkw & H)%head_bind_Some.
  destruct (Str.startsWith kw' s && _) eqn:E; [|by apply elem_of_nil in H].
  apply andb_true_iff in E as [Es Eq].
  apply list_elem_of_bind in H as (t & H & Ht).
  destruct (Str.startsWith t _ && _) eqn:E'; [|by apply elem_of_nil in H].
  apply andb_true_iff in E' as [Es' Eq'].
  apply list_elem_of_singleton in H. injection H as -> ->.
  apply quoted_split in Eq as (q1 & Hq1 & Eq).
  apply quoted_split in Eq' as (q2 & Hq2 & Eq').
  exists q1, t, q2. split_and!; try done.
  rewrite (startsWith_split _ _ Es) at 1. f_equal.
  rewrite Eq, <- slice_S. f_equal.
  rewrite (startsWith_split _ _ Es') at 1. f_equal.
  by rewrite Eq', <- slice_S.
Qed.

Lemma targets_len (t : string) :
  t ∈ StyleImport.targets → Str.len t ≠ 26.
Proof.
  unfold StyleImport.targets. simpl. rewrite !elem_of_cons.
  intros H. repeat destruct H as [->|H]; try done. by apply elem_of_nil in H.
Qed.

Lemma matchAt_replaced (s kw rest : string) :
  StyleImport.matchAt s = Some (kw, rest) →
  Str.len (kw +:+ String "034"%char ".cache/vuetify/styles.scss"
           +:+ String "034"%char rest) ≠ Str.len s.
Proof.
  intros (q1 & t & q2 & _ & Ht%targets_len & _ & _ & ->)%matchAt_split.
  rewrite !len_app. simpl. rewrite !len_app. simpl. lia.
Qed.

(** X6: [code.replace] with [styleImportRegexp] returns [code] itself
    exactly when the pattern does not match, so [transform] changes every
    code it waits for. *)
Theorem replace_fixes_iff_no_match (code : string) :
  StyleImport.replace code = code ↔ StyleImport.test code = false.
Proof.
  induction code as [|a code IH]; simpl.
  - destruct (StyleImport.matchAt "") as [[kw rest]|] eqn:E; [|done].
    split; [|done]. intros H. by apply matchAt_replaced in E.
  - destruct (StyleImport.matchAt (String a code)) as [[kw rest]|] eqn:E.
    + split; [|done]. intros H. apply matchAt_replaced in E.
      by rewrite H in E.
    + rewrite <- IH. split; [by intros [=]|by intros ->].
Qed.

(** X7: when the pattern matches, [code.replace] rewrites the leftmost
    import only: the code is a text with no match starting in it, a keyword,
    a quote, a target, a quote and a rest, and the result is the same text,
    the keyword, the path of the cache file in double quotes, and the same
    rest. *)
Theorem replace_first_match (code : string) :
  StyleImport.test code = true →
  ∃ pre kw q1 t q2 rest,
    kw ∈ StyleImport.keywords ∧ t ∈ StyleImport.targets
    ∧ StyleImport.is_quote q1 = true ∧ StyleImport.is_quote q2 = true
    ∧ code = pre +:+ kw +:+ String q1 (t +:+ String q2 rest)
    ∧ (∀ p x, code = p +:+ x → Str.len p < Str.len pre →
         StyleImport.matchAt x = None)
    ∧ StyleImport.replace code
      = pre +:+ kw +:+ String "034"%char ".cache/vuetify/styles.scss"
        +:+ String "034"%char rest.
Proof.
  induction code as [|a code IH]; simpl.
  - destruct (StyleImport.matchAt "") as [[kw rest]|] eqn:E; [|done].
    intros _.
    destruct (matchAt_split _ _ _ E) as (q1 & t & q2 & ? & ? & ? & ? & ?).
    exists "", kw, q1, t, q2, rest. split_and!; try done.
  - destruct (StyleImport.matchAt (String a code)) as [[kw rest]|] eqn:E.
    + intros _.
      destruct (matchAt_split _ _ _ E) as (q1 & t & q2 & ? & ? & ? & ? & ?).
      exists "", kw, q1, t, q2, rest. split_and!; try done.
      simpl. intros; lia.
    + intros (pre & kw & q1 & t & q2 & rest & ? & ? & ? & ? & Hc & Hpre & ->)%IH.
      exists (String a pre), kw, q1, t, q2, rest. split_and!; try done.
      * by rewrite Hc at 1.
      * intros [|b p] x Hx Hlen.
        -- change (String a code = x) in Hx. by subst x.
        -- change (String a code = String b (p +:+ x)) in Hx.
           injection Hx as -> Hx. apply (Hpre p x Hx). simpl in Hlen. lia.
Qed.

Lemma replace_first_match_witness :
  StyleImport.test "a { } @use 'vuetify/styles'; @use 'vuetify';" = true
  ∧ ∃ pre kw q1 t q2 rest,
    kw ∈ StyleImport.keywords ∧ t ∈ StyleImport.targets
    ∧ StyleImport.is_quote q1 = true ∧ StyleImport.is_quote q2 = true
    ∧ "a { } @use 'vuetify/styles'; @use 'vuetify';"
      = pre +:+ kw +:+ String q1 (t +:+ String q2 rest)
    ∧ (∀ p x, "a { } @use 'vuetify/styles'; @use 'vuetify';" = p +:+ x →
         Str.len p < Str.len pre → StyleImport.matchAt x = None)
    ∧ StyleImport.replace "a { } @use 'vuetify/styles'; @use 'vuetify';"
      = pre +:+ kw +:+ String "034"%char ".cache/vuetify/styles.scss"
        +:+ String "034"%char rest.
Proof.
  split; [reflexivity|].
  apply (replace_first_match "a { } @use 'vuetify/styles'; @use 'vuetify';").
  reflexivity.
Defined.

(** ** What [load] serves *)

Lemma lazy_key_query (key query : string) :
  Str.one_line key = true → queryFree key = true →
  Re.query_tail query = true →
  Re.lazy_key (key +:+ query) = Some key.
Proof.
  intros Hl Hq Hquery. induction key as [|a key IH].
  - change (Re.lazy_key query = Some "").
    destruct query; simpl in *; [done | by rewrite Hquery].
  - change (Re.lazy_key (String a (key +:+ query)) = Some (String a key)).
    simpl in Hl, Hq.
    apply andb_true_iff in Hl as [Ha Hl]. apply andb_true_iff in Hq as [Hb Hq].
    simpl. apply negb_true_iff in Ha, Hb. rewrite Ha, Hb. simpl.
    by rewrite IH.
Qed.

Lemma virtual_not_void (s : string) :
  Re.is_void (Re.virtual_prefix +:+ s) = false.
Proof. reflexivity. Qed.

Lemma virtual_in_namespace (s : string) :
  Str.startsWith Re.virtual_ns (Re.virtual_prefix +:+ s) = true.
Proof. reflexivity. Qed.

Lemma load_key (p : Plugin) (key query : string) :
  Str.one_line key = true → queryFree key = true →
  Re.query_tail query = true →
  load p (Re.virtual_prefix +:+ key +:+ query)
  = Returns (match tempFiles p !! key with
             | Some contents => Text contents
             | None => Undefined
             end).
Proof.
  intros Hl Hq Hquery. unfold load.
  rewrite virtual_not_void, virtual_in_namespace.
  unfold Re.virtual_exec. rewrite startsWith_app, slice_app.
  rewrite lazy_key_query by done. by destruct (tempFiles p !! key).
Qed.

(** X8: [load] of a virtual id ignores the query of the id, and returns what
    the registry holds under the key: its text, or [undefined] (not [null])
    when the key was never registered. *)
Theorem load_ignores_query (p : Plugin) (key query : string) :
  Str.one_line key = true → queryFree key = true →
  Re.query_tail query = true →
  load p (Re.virtual_prefix +:+ key +:+ query)
  = load p (Re.virtual_prefix +:+ key)
  ∧ load p (Re.virtual_prefix +:+ key)
    = Returns (match tempFiles p !! key with
               | Some contents => Text contents
               | None => Undefined
               end).
Proof.
  intros Hl Hq Hquery.
  pose proof (load_key p key "" Hl Hq eq_refl) as H.
  rewrite app_empty_r in H. rewrite H. split; [|done].
  by apply load_key.
Qed.

Lemma load_ignores_query_witness :
  load (set_tempFiles {["components/VBtn/VBtn.sass" := "@use"]} initial)
    (Re.virtual_prefix +:+ "components/VBtn/VBtn.sass" +:+ "?v=893fa859")
  = load (set_tempFiles {["components/VBtn/VBtn.sass" := "@use"]} initial)
      (Re.virtual_prefix +:+ "components/VBtn/VBtn.sass")
  ∧ load (set_tempFiles {["components/VBtn/VBtn.sass" := "@use"]} initial)
      (Re.virtual_prefix +:+ "components/VBtn/VBtn.sass")
    = Returns (match
                 tempFiles
                   (set_tempFiles {["components/VBtn/VBtn.sass" := "@use"]}
                      initial) !! "components/VBtn/VBtn.sass"
               with
               | Some contents => Text contents
               | None => Undefined
               end).
Proof.
  apply (load_ignores_query
           (set_tempFiles {["components/VBtn/VBtn.sass" := "@use"]} initial)
           "components/VBtn/VBtn.sass" "?v=893fa859"); reflexivity.
Defined.

Section Served.

Variable options : Options.
Variable vuetifyBase cwd : string.

(** X9: what [resolveId] registers, [load] serves: when [options.styles] is
    an object and the host resolves the source, [load] of the id that
    [resolveId] returns, with or without a query, is the document that
    [scssFileContents] made for the resolved file. *)
Theorem configured_then_load (resolved query : string) (p : Plugin) :
  Str.one_line (virtualKey vuetifyBase cwd resolved) = true →
  queryFree (virtualKey vuetifyBase cwd resolved) = true →
  Re.query_tail query = true →
  ∃ id,
    (resolveId_configured options vuetifyBase cwd (Some resolved) p).2
    = Some id
    ∧ load (resolveId_configured options vuetifyBase cwd (Some resolved) p).1
        (id +:+ query)
      = Returns (Text (scssFileContents (useLayers options) (configFile p)
                         (Re.css_to_sass resolved))).
Proof.
  intros Hl Hq Hquery. eexists. split; [reflexivity|]. simpl.
  rewrite app_assoc_str, load_key by done. simpl.
  by rewrite lookup_insert_eq.
Qed.

(** X10: the two url forms of the dev server, [/plugin-vuetify:key] and
    [/@id/__x00__plugin-vuetify:key], each followed by a query or by
    nothing, are resolved to the same virtual id: the namespace prefix, the
    key and the query; under that id [load] serves the entry of the registry
    for [key]. *)
Theorem dev_url_served (key query source : string)
    (importer : option string) (p : Plugin) :
  isStyleEntry vuetifyBase cwd source importer = false →
  source = "/plugin-vuetify:" +:+ key +:+ query
  ∨ source = "/@id/__x00__plugin-vuetify:" +:+ key +:+ query →
  Str.one_line key = true → queryFree key = true →
  Re.query_tail query = true →
  resolveId_begin options vuetifyBase cwd source importer
  = Resolved (Some (Re.virtual_prefix +:+ key +:+ query))
  ∧ load p (Re.virtual_prefix +:+ key +:+ query)
    = Returns (match tempFiles p !! key with
               | Some contents => Text contents
               | None => Undefined
               end).
Proof.
  intros Hentry Hsource Hl Hq Hquery.
  split; [|by apply load_key].
  unfold resolveId_begin. rewrite Hentry.
  destruct Hsource as [-> | ->]; by destruct key, query.
Qed.

End Served.

Lemma configured_then_load_witness :
  ∃ id,
    (resolveId_configured configuredOptions "/node_modules/vuetify" "/app"
       (Some "/node_modules/vuetify/lib/components/VBtn/VBtn.css") initial).2
    = Some id
    ∧ load (resolveId_configured configuredOptions "/node_modules/vuetify"
              "/app"
              (Some "/node_modules/vuetify/lib/components/VBtn/VBtn.css")
              initial).1
        (id +:+ "?v=893fa859")
      = Returns (Text (scssFileContents (useLayers configuredOptions)
                         (configFile initial)
                         (Re.css_to_sass
                            "/node_modules/vuetify/lib/components/VBtn/VBtn.css"))).
Proof.
  apply (configured_then_load configuredOptions "/node_modules/vuetify" "/app"
           "/node_modules/vuetify/lib/components/VBtn/VBtn.css"
           "?v=893fa859" initial); reflexivity.
Defined.

Lemma dev_url_served_witness :
  resolveId_begin configuredOptions "/node_modules/vuetify" "/app"
    "/@id/__x00__plugin-vuetify:components/VBtn/VBtn.sass?direct"
    (Some "/app/src/main.ts")
  = Resolved (Some (Re.virtual_prefix +:+ "components/VBtn/VBtn.sass"
                    +:+ "?direct"))
  ∧ load initial
      (Re.virtual_prefix +:+ "components/VBtn/VBtn.sass" +:+ "?direct")
    = Returns (match tempFiles initial !! "components/VBtn/VBtn.sass" with
               | Some contents => Text contents
               | None => Undefined
               end).
Proof.
  apply (dev_url_served configuredOptions "/node_modules/vuetify" "/app"
           "components/VBtn/VBtn.sass" "?direct"
           "/@id/__x00__plugin-vuetify:components/VBtn/VBtn.sass?direct"
           (Some "/app/src/main.ts") initial);
    [reflexivity | by right | reflexivity..].
Defined.

(** ** The document of a configured style sheet *)

Lemma occurrences_app (c : ascii) (x y : string) :
  occurrences c (x +:+ y) = occurrences c x + occurrences c y.
Proof.
  induction x as [|a x IH]; [done|].
  change (occurrences c (String a (x +:+ y))
          = occurrences c (String a x) + occurrences c y).
  simpl. rewrite IH. lia.
Qed.

(** X11: with [useLayers] the document of [scssFileContents] has three
    double quotes, one of them never closed (the one before the
    configuration file); without [useLayers] it has four. *)
Theorem layered_document_quotes (configFile : option string)
    (target : string) :
  occurrences "034" (template configFile) = 0 →
  occurrences "034" target = 0 →
  occurrences "034" (scssFileContents true configFile target) = 3
  ∧ occurrences "034" (scssFileContents false configFile target) = 4.
Proof.
  intros Hc Ht. unfold scssFileContents, dquote, newline.
  rewrite !occurrences_app, Hc, Ht. by vm_compute.
Qed.

Lemma layered_document_quotes_witness :
  occurrences "034"
    (scssFileContents true (Some "/app/src/settings.scss")
       "/node_modules/vuetify/lib/styles/main.sass") = 3
  ∧ occurrences "034"
      (scssFileContents false (Some "/app/src/settings.scss")
         "/node_modules/vuetify/lib/styles/main.sass") = 4.
Proof.
  apply (layered_document_quotes (Some "/app/src/settings.scss")
           "/node_modules/vuetify/lib/styles/main.sass"); reflexivity.
Defined.

(** ** [configResolved] *)

Lemma isAbsolute_cons (s : string) :
  Path.isAbsolute s = true →
  ∃ a s', s = String a s' ∧ Path.toUnix s = String "/" (Path.toUnix s').
Proof.
  unfold Path.isAbsolute. destruct s as [|a s]; [done|].
  rewrite toUnix_cons, startsWith_cons.
  intros [Ha%Ascii.eqb_eq _]%andb_true_iff.
  exists a, s. by rewrite <- Ha.
Qed.

Lemma isAbsolute_normalize (p : string) :
  Path.isAbsolute p = true → Path.isAbsolute (Path.normalize p) = true.
Proof.
  intros Hp. destruct (isAbsolute_cons p Hp) as (a & s & -> & Hu).
  unfold Path.normalize. cbv zeta. rewrite Hu.
  rewrite startsWith_cons, startsWith_nil. simpl.
  destruct (negb (Str.truthy _)); [done|].
  set (body := Str.join _ _ +:+ _).
  change ("/" +:+ body) with (String "/" body). unfold Path.isAbsolute.
  by rewrite toUnix_cons, startsWith_cons, startsWith_nil.
Qed.

Lemma isAbsolute_join (base file : string) :
  Path.isAbsolute base = true →
  Path.isAbsolute (Path.join [base; file]) = true.
Proof.
  intros Hb. destruct (isAbsolute_cons base Hb) as (a & s & -> & Hu).
  unfold Path.join. rewrite filter_cons_True by done.
  assert (∃ tail, Str.join "/"
            (String a s :: filter (λ x, Is_true (Str.truthy x)) [file])
          = String a s +:+ tail) as [tail ->].
  { rewrite join_cons. by eexists. }
  change (String a s +:+ tail) with (String a (s +:+ tail)). simpl.
  apply isAbsolute_normalize. unfold Path.isAbsolute.
  rewrite toUnix_cons. rewrite toUnix_cons in Hu. injection Hu as ->.
  by rewrite startsWith_cons, startsWith_nil.
Qed.

(** X12: when [options.styles] is an object and [config.root], or the
    working directory when the root is empty, is absolute, [configResolved]
    leaves an absolute path in [configFile]. *)
Theorem configResolved_absolute (options : Options) (cwd root file : string)
    (p : Plugin) :
  styles options = StylesConfig file →
  Path.isAbsolute (if Str.truthy root then root else cwd) = true →
  ∃ f, configFile (configResolved options cwd root p) = Some f
       ∧ Path.isAbsolute f = true.
Proof.
  intros Hs Hbase. unfold configResolved. rewrite Hs.
  destruct (Path.isAbsolute file) eqn:Hf.
  - by exists file.
  - eexists. split; [done|]. by apply isAbsolute_join.
Qed.

Lemma configResolved_absolute_witness :
  ∃ f, configFile (configResolved configuredOptions "/app" "" initial) = Some f
       ∧ Path.isAbsolute f = true.
Proof.
  apply (configResolved_absolute configuredOptions "/app" ""
           "src/settings.scss" initial); reflexivity.
Defined.

(** ** The start of a settle cycle *)

Lemma writtenCycles_emits (es : list Effect) (w : World) :
  forallb quietEffect es = true →
  writtenCycles (trace (emits es w)) = writtenCycles (trace w).
Proof. intros H. simpl. by rewrite writtenCycles_quiet by by apply quiet_rev. Qed.

Lemma getPendingModules_frame (w : World) :
  promises (getPendingModules w).1 = promises w
  ∧ rounds (getPendingModules w).1 = rounds w
  ∧ queue (getPendingModules w).1 = queue w
  ∧ writes (getPendingModules w).1 = writes w
  ∧ calls (getPendingModules w).1 = calls w
  ∧ host (getPendingModules w).1 = host w
  ∧ writtenCycles (trace (getPendingModules w).1) = writtenCycles (trace w)
  ∧ set_pendingModules (pendingModules (vars w)) (vars (getPendingModules w).1)
    = vars w.
Proof.
  assert (Heta : ∀ p, set_pendingModules (pendingModules p) p = p)
    by (by intros []).
  unfold getPendingModules. destruct (server (vars w)); [|by rewrite Heta].
  destruct (pendingDev _ _) as [|m modules]; split_and!; try done;
    try (by destruct w as [[]]).
  match goal with
  | |- context [emits ?es ?w'] => apply (writtenCycles_emits es w')
  end.
  by apply (quiet_map (fun kv => TransformRequest kv.1)).
Qed.

Lemma insert_end {A} (l : list A) (x y : A) :
  <[length l := y]> (l ++ [x]) = l ++ [y].
Proof.
  replace (length l) with (length l + 0) at 1 by lia.
  by rewrite insert_app_r.
Qed.

Lemma lookup_end {A} (l : list A) (x : A) : (l ++ [x]) !! length l = Some x.
Proof. rewrite lookup_app_r by done. by rewrite Nat.sub_diag. Qed.

Lemma alter_end {A} (f : A → A) (l : list A) (x : A) :
  alter f (length l) (l ++ [x]) = l ++ [f x].
Proof.
  replace (length l) with (length l + 0) at 1 by lia.
  by rewrite alter_app_r.
Qed.

(** X13: a call of [awaitResolve] while [promise] is [null] starts a settle
    cycle: it makes one new promise, which both [promise] and [resolve] then
    stand for, starts the timer and one round of [awaitBlocking], and waits;
    [Promise.any] of that round is subscribed to the promise before the call
    itself, and [writeStyles] is not called yet. *)
Theorem awaitResolve_starts_cycle (id : option string) (awaited : bool)
    (w : World) :
  promise (vars w) = None →
  promise (vars (awaitResolve id awaited w)) = Some (length (promises w))
  ∧ resolve (vars (awaitResolve id awaited w)) = Some (length (promises w))
  ∧ timeout (vars (awaitResolve id awaited w)) = true
  ∧ promises (awaitResolve id awaited w)
    = promises w
      ++ [Pending [OnAny (length (rounds w)); OnFirst (calls w) awaited]]
  ∧ length (rounds (awaitResolve id awaited w)) = S (length (rounds w))
  ∧ writes (awaitResolve id awaited w) = writes w
  ∧ writtenCycles (trace (awaitResolve id awaited w))
    = writtenCycles (trace w).
Proof.
  intros Hvar. unfold awaitResolve.
  set (w2 := match id with Some _ => _ | None => _ end).
  assert (H2 : promise (vars w2) = None ∧ promises w2 = promises w
               ∧ rounds w2 = rounds w ∧ writes w2 = writes w
               ∧ trace w2 = trace w ∧ calls w2 = S (calls w)).
  { unfold w2. by destruct id as [id'|]; [destruct (Str.truthy id')|]. }
  destruct H2 as (Hv2 & Hp2 & Hr2 & Hw2 & Ht2 & Hc2). clearbody w2.
  rewrite Hv2, Hp2.
  set (c := length (promises w)).
  set (w3 := update _ _).
  unfold awaitBlocking.
  set (w4 := update (set_timeout true) w3).
  destruct (getPendingModules_frame w4) as (Gp & Gr & Gq & Gw & Gc & Gh & Gt & Gv).
  destruct (getPendingModules w4) as [w5 p]. simpl in Gp, Gr, Gq, Gw, Gc, Gh, Gt, Gv.
  change (promise (vars w4)) with (Some c). cbv iota beta.
  set (w6 := set_rounds _ w5).
  assert (Hsub : promises (subscribe c (OnAny (length (rounds w4))) w6)
                 = promises w ++ [Pending [OnAny (length (rounds w))]]
                 ∧ vars (subscribe c (OnAny (length (rounds w4))) w6) = vars w5
                 ∧ rounds (subscribe c (OnAny (length (rounds w4))) w6)
                   = rounds w6
                 ∧ writes (subscribe c (OnAny (length (rounds w4))) w6)
                   = writes w
                 ∧ trace (subscribe c (OnAny (length (rounds w4))) w6)
                   = trace w5).
  { unfold subscribe.
    assert (promises w6 = promises w ++ [Pending []]) as Hp6.
    { unfold w6. simpl. by rewrite Gp. }
    rewrite Hp6. unfold c. rewrite lookup_end, insert_end.
    simpl. unfold w6. simpl. rewrite Gw.
    unfold w4, w3. simpl. by rewrite Hr2, Hw2. }
  destruct Hsub as (Sp & Sv & Sr & Sw & St).
  set (w7 := subscribe c _ w6) in *.
  assert (∃ w8, match p with
                | Returned => enqueue (AnyElement (length (rounds w4)) (VNum 0)) w7
                | _ => w7
                end = w8
                ∧ promises w8 = promises w7 ∧ vars w8 = vars w7
                ∧ rounds w8 = rounds w7 ∧ writes w8 = writes w7
                ∧ trace w8 = trace w7) as (w8 & -> & Ep & Ev & Er & Ew & Et).
  { eexists. split; [done|]. by destruct p. }
  unfold subscribe. rewrite Ep, Sp. unfold c. rewrite lookup_end, insert_end.
  simpl. rewrite Ev, Sv, Er, Sr, Ew, Sw, Et, St, Gt.
  unfold w6. simpl. rewrite length_app, Gr. simpl.
  assert (Hv5 : promise (vars w5) = Some c ∧ resolve (vars w5) = Some c
                ∧ timeout (vars w5) = true).
  { apply (f_equal promise) in Gv as Gv1. apply (f_equal resolve) in Gv as Gv2.
    apply (f_equal timeout) in Gv as Gv3. simpl in *. done. }
  destruct Hv5 as (-> & -> & ->). unfold w4, w3. simpl.
  rewrite Hr2, Ht2. split_and!; try done. lia.
Qed.

Lemma awaitResolve_starts_cycle_witness :
  promise (vars (awaitResolve (Some "/app/src/main.scss") true
                   (boot noModules)))
  = Some (length (promises (boot noModules)))
  ∧ resolve (vars (awaitResolve (Some "/app/src/main.scss") true
                     (boot noModules)))
    = Some (length (promises (boot noModules)))
  ∧ timeout (vars (awaitResolve (Some "/app/src/main.scss") true
                     (boot noModules))) = true
  ∧ promises (awaitResolve (Some "/app/src/main.scss") true (boot noModules))
    = promises (boot noModules)
      ++ [Pending [OnAny (length (rounds (boot noModules)));
                   OnFirst (calls (boot noModules)) true]]
  ∧ length (rounds (awaitResolve (Some "/app/src/main.scss") true
                      (boot noModules)))
    = S (length (rounds (boot noModules)))
  ∧ writes (awaitResolve (Some "/app/src/main.scss") true (boot noModules))
    = writes (boot noModules)
  ∧ writtenCycles (trace (awaitResolve (Some "/app/src/main.scss") true
                            (boot noModules)))
    = writtenCycles (trace (boot noModules)).
Proof.
  apply (awaitResolve_starts_cycle (Some "/app/src/main.scss") true
           (boot noModules)).
  reflexivity.
Defined.

Section Cycle.

Variable options : Options.
Variable vuetifyBase cwd cacheFile : string.

Lemma endsWith_truthy (v id : string) :
  Str.truthy v = true → Str.endsWith v id = true → Str.truthy id = true.
Proof.
  unfold Str.endsWith. intros Hv [Hlen%Nat.leb_le _]%andb_true_iff.
  destruct v; [done|]. destruct id; [simpl in Hlen; lia | done].
Qed.

Lemma transform_begin_truthy (code id : string) :
  transform_begin options code id = true → Str.truthy id = true.
Proof.
  unfold transform_begin. destruct (styles options); try done.
  intros [H _]%andb_true_iff. simpl in H.
  rewrite orb_false_r in H.
  apply orb_true_iff in H as [H|H]; by eapply endsWith_truthy in H.
Qed.

Lemma awaitBlocking_vars (w : World) :
  blockingModules (vars (awaitBlocking w)) = blockingModules (vars w)
  ∧ promise (vars (awaitBlocking w)) = promise (vars w).
Proof.
  unfold awaitBlocking.
  destruct (getPendingModules_frame (update (set_timeout true) w))
    as (_ & _ & _ & _ & _ & _ & _ & Gv).
  destruct (getPendingModules _) as [w2 p]. simpl in Gv.
  apply (f_equal blockingModules) in Gv as G1.
  apply (f_equal promise) in Gv as G2. simpl in G1, G2.
  set (w3 := set_rounds _ w2).
  assert (∀ c x, vars (subscribe c x w3) = vars w2) as Hsub.
  { intros c x. unfold subscribe.
    by destruct (promises w3 !! c) as [[]|]. }
  simpl. destruct (promise (vars w)) as [c|]; destruct p; simpl;
    rewrite ?Hsub; done.
Qed.

Lemma subscribe_vars (c : nat) (x : Reaction) (w : World) :
  vars (subscribe c x w) = vars w.
Proof. unfold subscribe. by destruct (promises w !! c) as [[]|]. Qed.

(** X14: a call of [transform] that waits leaves its own id in
    [blockingModules] and a settle cycle under way. *)
Theorem transform_blocks_itself (w : World) (code id : string) :
  transform_begin options code id = true →
  id ∈ blockingModules
         (vars (step options vuetifyBase cwd cacheFile w (Transform code id)))
  ∧ is_Some (promise
               (vars (step options vuetifyBase cwd cacheFile w
                        (Transform code id)))).
Proof.
  intros Hb. simpl. rewrite Hb. unfold awaitResolve.
  rewrite (transform_begin_truthy _ _ Hb).
  set (w2 := update _ (set_calls _ w)).
  assert (id ∈ blockingModules (vars w2)) as Hin by set_solver.
  clearbody w2.
  destruct (promise (vars w2)) as [c|] eqn:Hvar.
  - simpl. by rewrite Hvar.
  - rewrite subscribe_vars.
    destruct (awaitBlocking_vars
                (update (fun p => set_promise (Some (length (promises w2)))
                           (set_resolve (Some (length (promises w2))) p))
                   (set_promises (promises w2 ++ [Pending []]) w2)))
      as [-> ->].
    by simpl.
Qed.

End Cycle.

Lemma transform_blocks_itself_witness :
  "/app/src/main.scss"
  ∈ blockingModules
      (vars (step exposeOptions "/node_modules/vuetify" "/app"
               "/app/.cache/vuetify/styles.scss" (boot noModules)
               (Transform "@use 'vuetify/styles';" "/app/src/main.scss")))
  ∧ is_Some (promise
               (vars (step exposeOptions "/node_modules/vuetify" "/app"
                        "/app/.cache/vuetify/styles.scss" (boot noModules)
                        (Transform "@use 'vuetify/styles';"
                           "/app/src/main.scss")))).
Proof.
  apply (transform_blocks_itself exposeOptions "/node_modules/vuetify" "/app"
           "/app/.cache/vuetify/styles.scss" (boot noModules)
           "@use 'vuetify/styles';" "/app/src/main.scss").
  reflexivity.
Defined.

(** ** A quiet module graph *)

Section Quiet.

Variable options : Options.
Variable vuetifyBase cwd cacheFile : string.

(** The state after a step, with the setters of the records carried out. *)
Ltac flat :=
  lazy beta iota zeta delta
    [update enqueue emit emits set_vars set_host set_promises
     set_rounds set_queue set_writes set_resolutions set_calls set_trace
     set_files set_server set_context set_resolve set_promise
     set_needsTouch set_blockingModules set_pendingModules set_timeout
     set_configFile set_tempFiles
     vars host promises rounds queue writes resolutions calls trace
     files server context resolve promise needsTouch blockingModules
     pendingModules timeout configFile tempFiles
     react fst snd truthy anySettled probe
     fmap option_fmap option_map andb idle];
  cbn [app map rev].

Ltac next tac :=
  match goal with
  | |- context [step ?o ?b ?c ?f (Build_World ?v ?h ?p ?r ?q ?ws ?rs ?k ?t) ?e] =>
      let H := fresh in
      eassert (step o b c f (Build_World v h p r q ws rs k t) e = _) as H;
      [unfold step, run; flat; tac; reflexivity | rewrite H; clear H]
  end.

(** X15: under the dev server, when no cycle is under way, the queue is
    empty and the probe finds nothing pending, a call of [transform] that
    waits leads to the call of [writeStyles] in four jobs, without any
    timer: the promise of the cycle is fulfilled with [false], [writeStyles]
    is given the fragments, [blockingModules] is emptied and the timer is
    cleared, and nothing else is done to the outside. *)
Theorem dev_quiet_reaches_write (w : World) (code id : string) :
  transform_begin options code id = true →
  server (vars w) = true →
  promise (vars w) = None →
  queue w = [] →
  pendingDev ({[id]} ∪ blockingModules (vars w)) (dev (host w)) = [] →
  let wf := steps options vuetifyBase cwd cacheFile w
              [Transform code id; Tick; Tick; Tick; Tick] in
  trace wf = WriteStyles (length (promises w)) (files (vars w)) :: trace w
  ∧ writes wf = writes w ++ [(length (promises w), calls w, true)]
  ∧ promises wf = promises w ++ [Fulfilled VFalse]
  ∧ blockingModules (vars wf) = ∅
  ∧ timeout (vars wf) = false
  ∧ queue wf = [].
Proof.
  intros Hb Hs Hvar Hq Hquiet.
  pose proof (transform_begin_truthy _ _ _ Hb) as Hid.
  destruct w as [v h ps rs q ws res k t].
  destruct v as [f sv cx rsv pv nt bm pm tm cf tf].
  simpl in Hs, Hvar, Hq, Hquiet. subst sv pv q.
  remember ({[id]} ∪ bm) as blocking eqn:Hblocking.
  intros wf.
  eassert (wf = _) as Hwf.
  { unfold wf, steps. cbn [foldl].
    next ltac:(rewrite Hb; unfold awaitResolve; rewrite Hid; flat;
               rewrite <- Hblocking;
               unfold awaitBlocking; flat; unfold getPendingModules; flat;
               rewrite Hquiet; flat; unfold subscribe; flat;
               rewrite lookup_end, insert_end; flat;
               rewrite lookup_end, insert_end; flat).
    next ltac:(unfold settleAny; flat; rewrite lookup_end, insert_end; flat).
    next ltac:(unfold resolveFalse, fulfil; flat;
               rewrite lookup_end, insert_end; flat).
    next ltac:(unfold settleAny; flat; rewrite lookup_end; flat).
    next ltac:(idtac).
    reflexivity. }
  clearbody wf. subst wf. by split_and!.
Qed.

(** X16: in a build, when no cycle is under way, the queue is empty and the
    probe finds nothing pending, a call of [transform] that waits leads to
    the call of [writeStyles] once the zero timer of the probe has fired, in
    five jobs: the promise of the cycle is fulfilled with [false],
    [writeStyles] is given the fragments, [blockingModules] is emptied and
    the timer of [awaitBlocking] is cleared without having fired. *)
Theorem build_quiet_reaches_write (w : World) (code id : string) :
  transform_begin options code id = true →
  server (vars w) = false →
  context (vars w) = true →
  promise (vars w) = None →
  queue w = [] →
  pendingBuild ({[id]} ∪ blockingModules (vars w)) (build (host w))
  = Returns [] →
  let wf := steps options vuetifyBase cwd cacheFile w
              [Transform code id; ZeroTimerFired (length (rounds w));
               Tick; Tick; Tick; Tick; Tick] in
  trace wf = WriteStyles (length (promises w)) (files (vars w)) :: trace w
  ∧ writes wf = writes w ++ [(length (promises w), calls w, true)]
  ∧ promises wf = promises w ++ [Fulfilled VFalse]
  ∧ blockingModules (vars wf) = ∅
  ∧ timeout (vars wf) = false
  ∧ queue wf = [].
Proof.
  intros Hb Hs Hctx Hvar Hq Hquiet.
  pose proof (transform_begin_truthy _ _ _ Hb) as Hid.
  destruct w as [v h ps rs q ws res k t].
  destruct v as [f sv cx rsv pv nt bm pm tm cf tf].
  simpl in Hs, Hctx, Hvar, Hq, Hquiet. subst sv cx pv q.
  remember ({[id]} ∪ bm) as blocking eqn:Hblocking.
  intros wf.
  eassert (wf = _) as Hwf.
  { unfold wf, steps. cbn [foldl rounds].
    next ltac:(rewrite Hb; unfold awaitResolve; rewrite Hid; flat;
               rewrite <- Hblocking;
               unfold awaitBlocking; flat; unfold getPendingModules; flat;
               unfold subscribe; flat;
               rewrite lookup_end, insert_end; flat;
               rewrite lookup_end, insert_end; flat).
    next ltac:(rewrite lookup_end; flat; unfold set_probe; flat;
               rewrite alter_end; flat).
    next ltac:(unfold scan; flat; rewrite Hquiet; flat;
               unfold set_probe; flat; rewrite alter_end; flat).
    next ltac:(unfold settleAny; flat; rewrite lookup_end, insert_end; flat).
    next ltac:(unfold resolveFalse, fulfil; flat;
               rewrite lookup_end, insert_end; flat).
    next ltac:(unfold settleAny; flat; rewrite lookup_end; flat).
    next ltac:(idtac).
    reflexivity. }
  clearbody wf. subst wf. by split_and!.
Qed.

End Quiet.

Lemma dev_quiet_reaches_write_witness :
  let w := step exposeOptions "/node_modules/vuetify" "/app"
             "/app/.cache/vuetify/styles.scss" (boot noModules)
             ConfigureServer in
  let wf := steps exposeOptions "/node_modules/vuetify" "/app"
              "/app/.cache/vuetify/styles.scss" w
              [Transform "@use 'vuetify/styles';" "/app/src/main.scss";
               Tick; Tick; Tick; Tick] in
  trace wf = WriteStyles (length (promises w)) (files (vars w)) :: trace w
  ∧ writes wf = writes w ++ [(length (promises w), calls w, true)]
  ∧ promises wf = promises w ++ [Fulfilled VFalse]
  ∧ blockingModules (vars wf) = ∅
  ∧ timeout (vars wf) = false
  ∧ queue wf = [].
Proof.
  apply (dev_quiet_reaches_write exposeOptions "/node_modules/vuetify" "/app"
           "/app/.cache/vuetify/styles.scss"
           (step exposeOptions "/node_modules/vuetify" "/app"
              "/app/.cache/vuetify/styles.scss" (boot noModules)
              ConfigureServer)
           "@use 'vuetify/styles';" "/app/src/main.scss"); reflexivity.
Defined.

Lemma build_quiet_reaches_write_witness :
  let w := step exposeOptions "/node_modules/vuetify" "/app"
             "/app/.cache/vuetify/styles.scss" (boot noModules) BuildStart in
  let wf := steps exposeOptions "/node_modules/vuetify" "/app"
              "/app/.cache/vuetify/styles.scss" w
              [Transform "@use 'vuetify/styles';" "/app/src/main.scss";
               ZeroTimerFired (length (rounds w));
               Tick; Tick; Tick; Tick; Tick] in
  trace wf = WriteStyles (length (promises w)) (files (vars w)) :: trace w
  ∧ writes wf = writes w ++ [(length (promises w), calls w, true)]
  ∧ promises wf = promises w ++ [Fulfilled VFalse]
  ∧ blockingModules (vars wf) = ∅
  ∧ timeout (vars wf) = false
  ∧ queue wf = [].
Proof.
  apply (build_quiet_reaches_write exposeOptions "/node_modules/vuetify"
           "/app" "/app/.cache/vuetify/styles.scss"
           (step exposeOptions "/node_modules/vuetify" "/app"
              "/app/.cache/vuetify/styles.scss" (boot noModules) BuildStart)
           "@use 'vuetify/styles';" "/app/src/main.scss"); reflexivity.
Defined.

(** ** One call of [writeStyles] for each cycle *)

Lemma writtenCycles_app (t1 t2 : list Effect) :
  writtenCycles (t1 ++ t2) = writtenCycles t1 ++ writtenCycles t2.
Proof.
  induction t1 as [|e t1 IH]; [done|]. destruct e; simpl; by rewrite ?IH.
Qed.

Lemma payloads_app (t1 t2 : list Effect) :
  payloads (t1 ++ t2) = payloads t1 ++ payloads t2.
Proof.
  induction t1 as [|e t1 IH]; [done|]. destruct e; simpl; by rewrite ?IH.
Qed.

Lemma unwritten (es : list Effect) :
  forallb (fun e => negb (isWrite e)) es = true →
  writtenCycles (rev es) = [] ∧ payloads (rev es) = [].
Proof.
  induction es as [|e es IH]; [done|]. simpl.
  intros [He Hes]%andb_true_iff. destruct (IH Hes) as [H1 H2].
  rewrite writtenCycles_app, payloads_app, H1, H2. by destruct e.
Qed.

Lemma unwritten_map {A} (f : A → Effect) (l : list A) :
  (∀ x, isWrite (f x) = false) →
  forallb (fun e => negb (isWrite e)) (map f l) = true.
Proof. intros H. induction l; simpl; [done|]. by rewrite H. Qed.

Lemma firsts_snoc (q : list Job) (j : Job) :
  isFirst j = false → firsts (q ++ [j]) = firsts q.
Proof.
  intros Hj. rewrite firsts_app. destruct j; try done; apply app_nil_r.
Qed.

Lemma firsts_reactions (c : nat) (v : Value) (reactions : list Reaction) :
  firsts (map (react c v) reactions) = replicate (firstReactions reactions) c.
Proof.
  induction reactions as [|x reactions IH]; [done|].
  destruct x; simpl; by rewrite IH.
Qed.

Lemma Journal_frame (w w' : World) :
  firsts (queue w') = firsts (queue w) →
  writtenCycles (trace w') = writtenCycles (trace w) →
  payloads (trace w') = payloads (trace w) →
  (∀ c reactions, promises w' !! c = Some (Pending reactions) →
     ∃ reactions', promises w !! c = Some (Pending reactions')) →
  length (promises w) ≤ length (promises w') →
  files (vars w) ⊆ files (vars w') →
  Journal w → Journal w'.
Proof.
  intros Hq Ht Hp Hpend Hlen Hfiles [H1 H2 H3 H4 H5].
  unfold started in *.
  constructor; unfold started; rewrite ?Hq, ?Ht, ?Hp; try done.
  - intros c rs Hc. destruct (Hpend c rs Hc) as [rs' Hc']. by eapply H2.
  - intros c Hc. specialize (H3 c Hc). lia.
  - eapply Forall_impl; [exact H4|]. simpl. set_solver.
Qed.

Ltac journal H :=
  eapply Journal_frame; [..|exact H]; try reflexivity; eauto.

Lemma Journal_enqueue (j : Job) (w : World) :
  isFirst j = false → Journal w → Journal (enqueue j w).
Proof.
  intros Hj H. journal H. simpl. by apply firsts_snoc.
Qed.

Lemma Journal_emits (es : list Effect) (w : World) :
  forallb (fun e => negb (isWrite e)) es = true →
  Journal w → Journal (emits es w).
Proof.
  intros Hes H. destruct (unwritten es Hes) as [H1 H2].
  journal H; simpl.
  - by rewrite writtenCycles_app, H1.
  - by rewrite payloads_app, H2.
Qed.

Lemma Journal_emit (e : Effect) (w : World) :
  isWrite e = false → Journal w → Journal (emit e w).
Proof.
  intros He H. apply (Journal_emits [e] w); [|done]. simpl. by rewrite He.
Qed.

Lemma Journal_reactions (c : nat) (reactions reactions' : list Reaction)
    (w : World) :
  promises w !! c = Some (Pending reactions) →
  Journal w →
  Journal (set_promises (<[c := Pending reactions']> (promises w)) w).
Proof.
  intros Hc H. journal H; simpl.
  - intros c' rs. destruct (decide (c' = c)) as [->|Hne]; [by eauto|].
    rewrite list_lookup_insert_ne by done. eauto.
  - by rewrite length_insert.
Qed.

Lemma Journal_subscribe (c : nat) (x : Reaction) (w : World) :
  isOnFirst x = false → Journal w → Journal (subscribe c x w).
Proof.
  intros Hx H. unfold subscribe.
  destruct (promises w !! c) as [[reactions|v|]|] eqn:Hc; try done.
  - by eapply Journal_reactions.
  - apply Journal_enqueue; [|done]. by destruct x.
Qed.

Lemma Journal_subscribe_first (c k : nat) (awaited : bool)
    (reactions : list Reaction) (w : World) :
  promises w !! c = Some (Pending reactions) →
  Journal w → Journal (subscribe c (OnFirst k awaited) w).
Proof.
  intros Hc H. unfold subscribe. rewrite Hc. by eapply Journal_reactions.
Qed.

Lemma Journal_fulfil (c : nat) (v : Value) (w : World) :
  Single w → Journal w → Journal (fulfil c v w).
Proof.
  intros Hs H. unfold fulfil.
  destruct (promises w !! c) as [[reactions|v'|]|] eqn:Hc; try done.
  destruct (single_pending _ Hs c _ Hc) as [_ Hr].
  pose proof (journal_pending _ H c _ Hc) as Hfresh.
  assert (Hpend : ∀ c' rs,
             <[c := Fulfilled v]> (promises w) !! c' = Some (Pending rs) →
             c' ≠ c ∧ promises w !! c' = Some (Pending rs)).
  { intros c' rs. destruct (decide (c' = c)) as [->|Hne].
    - rewrite list_lookup_insert_eq by by eapply lookup_lt_Some. done.
    - by rewrite list_lookup_insert_ne by done. }
  destruct H as [H1 H2 H3 H4 H5]. unfold started in *.
  constructor; unfold started; simpl;
    rewrite ?firsts_app, ?firsts_reactions, ?length_insert; try done.
  - destruct (firstReactions reactions) as [|[|n]]; [| |lia]; simpl.
    + by rewrite app_nil_r.
    + rewrite <- app_assoc. simpl. apply NoDup_app in H1 as (N1 & N2 & N3).
      apply NoDup_app. split_and!; [done| |].
      * intros c' Hc' [->|Hin]%elem_of_cons; [|by eapply N2].
        apply Hfresh. set_solver.
      * constructor; [|done]. intros Hin. apply Hfresh. set_solver.
  - intros c' rs [Hne Hc']%Hpend. specialize (H2 c' rs Hc').
    destruct (firstReactions reactions) as [|[|n]]; [| |lia]; simpl;
      set_solver.
  - intros c' Hin. apply lookup_lt_Some in Hc.
    destruct (firstReactions reactions) as [|[|n]]; [| |lia]; simpl in Hin.
    + apply H3. set_solver.
    + destruct (decide (c' = c)) as [->|Hne]; [done|]. apply H3. set_solver.
Qed.

Lemma Journal_resolveFalse (w : World) :
  Single w → Journal w → Journal (resolveFalse w).
Proof.
  intros Hs H. unfold resolveFalse. destruct (resolve (vars w)); [|done].
  by apply Journal_fulfil.
Qed.

Lemma Journal_getPendingModules (w : World) :
  Journal w → Journal (getPendingModules w).1.
Proof.
  intros H. unfold getPendingModules.
  destruct (server (vars w)); [|done].
  destruct (pendingDev _ _) as [|m modules]; simpl.
  - journal H.
  - match goal with
    | |- Journal (emits ?es ?w') => apply (Journal_emits es w')
    end.
    + by apply (unwritten_map (fun kv => TransformRequest kv.1)).
    + journal H.
Qed.

Lemma Journal_awaitBlocking (w : World) :
  Journal w → Journal (awaitBlocking w).
Proof.
  intros H. unfold awaitBlocking.
  assert (H1 : Journal (update (set_timeout true) w)) by journal H.
  apply Journal_getPendingModules in H1. simpl.
  destruct (getPendingModules (update (set_timeout true) w)) as [w2 p].
  simpl in H1.
  set (r := length (rounds w)).
  set (w3 := set_rounds _ w2).
  assert (H3 : Journal w3) by journal H1.
  assert (H4 : Journal
                 match promise (vars w) with
                 | Some c => subscribe c (OnAny r) w3
                 | None => enqueue (AnyElement r VNull) w3
                 end).
  { destruct (promise (vars w)).
    - by apply Journal_subscribe.
    - by apply Journal_enqueue. }
  destruct p; try done. by apply Journal_enqueue.
Qed.

Lemma Journal_create (f : Plugin → Plugin) (w : World) :
  (∀ p, files (f p) = files p) →
  Journal w →
  Journal (update f (set_promises (promises w ++ [Pending []]) w)).
Proof.
  intros Hf [H1 H2 H3 H4 H5]. unfold started in *.
  constructor; unfold started; simpl; rewrite ?Hf; try done.
  - intros c rs [Hc|[Hlen Hc]]%lookup_app_Some; [by eapply H2|].
    intros Hin%H3. lia.
  - intros c Hin%H3. rewrite length_app. lia.
Qed.

Lemma Journal_awaitResolve (id : option string) (awaited : bool) (w : World) :
  Journal w → Journal (awaitResolve id awaited w).
Proof.
  intros H. unfold awaitResolve.
  set (w2 := match id with Some _ => _ | None => _ end).
  assert (H2 : Journal w2).
  { unfold w2. destruct id as [id|]; [destruct (Str.truthy id)|]; journal H. }
  destruct (promise (vars w2)) as [c|] eqn:Hvar.
  - by apply Journal_enqueue.
  - set (w3 := update _ _).
    assert (H3 : Journal w3) by by apply Journal_create.
    assert (Hc : promises w3 !! length (promises w2) = Some (Pending [])).
    { unfold w3. simpl. apply lookup_end. }
    destruct (promises_awaitBlocking _ _ _ Hc) as (reactions & Hr & Hn).
    eapply Journal_subscribe_first; [exact Hr|].
    by apply Journal_awaitBlocking.
Qed.

Lemma Journal_pop (j : Job) (q : list Job) (w : World) :
  Journal w → queue w = j :: q → isFirst j = false →
  Journal (set_queue q w).
Proof.
  intros H Hq Hj. journal H. simpl. rewrite Hq. by destruct j.
Qed.

Lemma Journal_run (cacheFile : string) (j : Job) (q : list Job) (w : World) :
  Single w → Journal w → queue w = j :: q →
  Journal (run cacheFile j (set_queue q w)).
Proof.
  intros Hs H Hq.
  destruct j as [r v|r|r v|r|r n ok|c k aw|c k aw ok|c k aw|c k aw v|c k o];
    try pose proof (Journal_pop _ _ _ H Hq eq_refl) as H'.
  - simpl. unfold settleAny. destruct (rounds _ !! r) as [x|]; [|done].
    destruct (anySettled x); [done|]. apply Journal_enqueue; [done|].
    journal H'.
  - done.
  - simpl. destruct (truthy v).
    + by apply Journal_awaitBlocking.
    + apply Journal_resolveFalse; [|done].
      by apply (Single_pop _ _ _ Hs Hq).
  - simpl. unfold scan. simpl.
    assert (Hx : ∀ j, isFirst j = false →
                 Journal (enqueue j (set_probe r Returned (set_queue q w)))).
    { intros j Hj. apply Journal_enqueue; [done|]. journal H'. }
    destruct (context (vars w)); [|by apply Hx].
    destruct (pendingBuild _ _) as [modules|]; [|by apply Hx].
    destruct modules as [|m modules].
    + apply Journal_enqueue; [done|]. journal H'.
    + match goal with
      | |- Journal (set_probe _ _ (emits ?es ?w')) =>
          assert (He : Journal (emits es w'))
      end.
      { apply Journal_emits.
        - by apply (unwritten_map (fun m => ContextLoad (Rollup.id m))).
        - journal H'. }
      journal He.
  - simpl. apply Journal_enqueue; [by destruct ok | done].
  - destruct H as [H1 H2 H3 H4 H5]. unfold started in *. rewrite Hq in *.
    simpl in *.
    constructor; unfold started; simpl.
    + apply NoDup_cons in H1 as [Hc H1].
      apply NoDup_app in H1 as (N1 & N2 & N3).
      apply NoDup_app. split_and!; [done| |].
      * intros c' Hc' [->|Hin]%elem_of_cons; [|by eapply N2].
        apply Hc. set_solver.
      * constructor; [|done]. intros Hin. apply Hc. set_solver.
    + intros c' rs Hc'. specialize (H2 c' rs Hc'). set_solver.
    + intros c' Hin. apply H3. set_solver.
    + constructor; [done|]. done.
    + split; [|done]. done.
  - simpl. destruct ok.
    + unfold finalize.
      set (tp := if server (vars w) && needsTouch (vars w) then _ else _).
      assert (Hfiles : files (vars w) ⊆ files (set_promise None tp.2)).
      { unfold tp. by destruct (server (vars w) && needsTouch (vars w)). }
      destruct tp as [touches p] eqn:Htp. simpl in *.
      assert (Hw' : Journal (emits (map Utimes touches)
                              (set_vars (set_promise None p) (set_queue q w)))).
      { apply Journal_emits; [by apply unwritten_map|]. journal H'. }
      destruct aw; [|done]. by apply Journal_enqueue.
    + destruct aw; [|done]. by apply Journal_enqueue.
  - simpl. by apply Journal_subscribe.
  - simpl. destruct aw; [|done]. by apply Journal_enqueue.
  - simpl. destruct o; by apply Journal_emit.
Qed.

Section JournalSteps.

Variable options : Options.
Variable vuetifyBase cwd cacheFile : string.

Lemma Journal_boot (h : Host) : Journal (boot h).
Proof.
  constructor; unfold started; simpl; try done.
  - constructor.
  - intros c Hc. by apply elem_of_nil in Hc.
Qed.

Lemma Journal_step (w : World) (e : Event) :
  Single w → Journal w →
  Journal (step options vuetifyBase cwd cacheFile w e).
Proof.
  intros Hs H. destruct e as [| |root|h|code id|source importer|i resolution|
                              | |r|r ok|i ok]; simpl.
  - journal H.
  - unfold buildStart, update. destruct (server (vars w)); journal H.
  - unfold configResolved, update. destruct (styles options); try by journal H.
    destruct (Path.isAbsolute _); journal H.
  - journal H.
  - destruct (transform_begin options code id); [|done].
    by apply Journal_awaitResolve.
  - unfold resolveId.
    destruct (resolveId_begin options vuetifyBase cwd source importer);
      try by journal H.
    eapply (Journal_frame (awaitResolve None false w)); try reflexivity;
      eauto.
    by apply Journal_awaitResolve.
  - destruct (resolutions w !! i) as [pending|]; [|done].
    assert (H' : Journal (set_resolutions (delete i (resolutions w)) w))
      by journal H.
    destruct pending; simpl; try done.
    + by apply Journal_emit.
    + destruct resolution as [file|]; simpl.
      * apply Journal_emit; [done|]. journal H'. simpl.
        rewrite registerFragment_files. set_solver.
      * apply Journal_emit; [done|]. journal H'.
    + destruct resolution as [file|]; simpl;
        (apply Journal_emit; [done|]); journal H'.
  - destruct (queue w) as [|j q] eqn:Hq; [done|]. by apply Journal_run.
  - destruct (timeout (vars w) && idle w); [|done].
    apply Journal_resolveFalse.
    + eapply Single_frame; [..|exact Hs]; reflexivity.
    + apply Journal_emit; [done|]. journal H.
  - destruct (probe <$> rounds w !! r) as [[]|]; try done.
    destruct (idle w); [|done]. apply Journal_enqueue; [done|]. journal H.
  - destruct (probe <$> rounds w !! r) as [[]|]; try done.
    apply Journal_enqueue; [done|]. journal H.
  - destruct (writes w !! i) as [[[c k] aw]|] eqn:Hi; [|done].
    apply Journal_enqueue; [done|]. journal H.
Qed.

Lemma Journal_steps (h : Host) (es : list Event) :
  Journal (steps options vuetifyBase cwd cacheFile (boot h) es).
Proof.
  induction es as [|e es IH] using rev_ind; [apply Journal_boot|].
  unfold steps in *. rewrite foldl_snoc. apply Journal_step; [|done].
  apply (Single_steps options vuetifyBase cwd cacheFile), Single_boot.
Qed.

End JournalSteps.

Lemma increasing_app (l1 l2 : list (gset string)) :
  increasing (l1 ++ l2) → increasing l2.
Proof. induction l1 as [|fs l1 IH]; [done|]. intros [_ H]. by apply IH. Qed.

Section Runs.

Variable options : Options.
Variable vuetifyBase cwd cacheFile : string.

(** X17: whatever the host does, [writeStyles] is called at most once for
    each settle cycle. *)
Theorem write_once_per_cycle (h : Host) (es : list Event) :
  NoDup (writtenCycles
           (trace (steps options vuetifyBase cwd cacheFile (boot h) es))).
Proof.
  pose proof (journal_once _ (Journal_steps options vuetifyBase cwd cacheFile
                                h es)) as H.
  unfold started in H. by apply NoDup_app in H as (_ & _ & H).
Qed.

(** X18: each call of [writeStyles] is given all the fragments the calls
    before it were given, and only fragments that are registered. *)
Theorem writes_accumulate (h : Host) (es : list Event)
    (later mid earlier : list Effect) (c1 c2 : nat) (f1 f2 : gset string) :
  trace (steps options vuetifyBase cwd cacheFile (boot h) es)
  = later ++ WriteStyles c2 f2 :: mid ++ WriteStyles c1 f1 :: earlier →
  f1 ⊆ f2
  ∧ f2 ⊆ files (vars (steps options vuetifyBase cwd cacheFile (boot h) es)).
Proof.
  intros Ht.
  pose proof (Journal_steps options vuetifyBase cwd cacheFile h es) as H.
  pose proof (journal_chain _ H) as Hchain.
  pose proof (journal_files _ H) as Hfiles.
  rewrite Ht in Hchain, Hfiles. rewrite payloads_app in Hchain, Hfiles.
  simpl in Hchain, Hfiles. rewrite payloads_app in Hchain, Hfiles.
  simpl in Hchain, Hfiles. split.
  - apply increasing_app in Hchain as [Hall _].
    rewrite Forall_app, Forall_cons in Hall. by destruct Hall as (_ & ? & _).
  - rewrite Forall_app, Forall_cons in Hfiles.
    by destruct Hfiles as (_ & ? & _).
Qed.

(** X19: no hook, job or timer ever removes a fragment from [files]. *)
Theorem fragments_only_grow (w : World) (es : list Event) :
  files (vars w)
  ⊆ files (vars (steps options vuetifyBase cwd cacheFile w es)).
Proof. apply (calm_steps options vuetifyBase cwd cacheFile w es). Qed.

(** X20: at most one call of [writeStyles] is under way at any time; while
    one is, [promise] is not [null] (so that calls of [awaitResolve] join)
    and no promise of a cycle is pending. *)
Theorem one_write_under_way (h : Host) (es : list Event) :
  length (writes (steps options vuetifyBase cwd cacheFile (boot h) es)) ≤ 1
  ∧ (writes (steps options vuetifyBase cwd cacheFile (boot h) es) ≠ [] →
     is_Some (promise
                (vars (steps options vuetifyBase cwd cacheFile (boot h) es)))
     ∧ ∀ c reactions,
         promises (steps options vuetifyBase cwd cacheFile (boot h) es) !! c
         ≠ Some (Pending reactions)).
Proof.
  pose proof (Single_steps options vuetifyBase cwd cacheFile (boot h) es
                (Single_boot h)) as H.
  set (w := steps options vuetifyBase cwd cacheFile (boot h) es) in *.
  pose proof (single_ending _ H) as He. unfold ending in He.
  split; [lia|]. intros Hw.
  assert (1 ≤ ending w) as Hone.
  { unfold ending. destruct (writes w); [done|]. simpl. lia. }
  split.
  - destruct (promise (vars w)) eqn:Hv; [done|].
    pose proof (single_idle _ H Hv). lia.
  - intros c rs. apply not_pending_lookup. by apply (single_settled _ H).
Qed.

End Runs.

Lemma writes_accumulate_witness :
  ({["/node_modules/vuetify/lib/styles/main.sass"]} : gset string)
  ⊆ {["/node_modules/vuetify/lib/components/VBtn/VBtn.sass"]}
    ∪ {["/node_modules/vuetify/lib/styles/main.sass"]}
  ∧ ({["/node_modules/vuetify/lib/components/VBtn/VBtn.sass"]}
     ∪ {["/node_modules/vuetify/lib/styles/main.sass"]} : gset string)
    ⊆ files (vars (steps exposeOptions "/node_modules/vuetify" "/app"
                     "/app/.cache/vuetify/styles.scss" (boot noModules)
                     twoCycles)).
Proof.
  apply (writes_accumulate exposeOptions "/node_modules/vuetify" "/app"
           "/app/.cache/vuetify/styles.scss" noModules twoCycles
           []
           [FallbackTimeout ∅ []; ResolveIdReturned (Some Re.void_id)]
           [FallbackTimeout ∅ []; ResolveIdReturned (Some Re.void_id)]
           0 1).
  vm_compute. reflexivity.
Defined.

(** ** The registry of the virtual modules *)

Section SettingsSteps.

Variable options : Options.
Variable vuetifyBase cwd cacheFile : string.

Lemma settings_subscribe (c : nat) (x : Reaction) (w : World) :
  settings (subscribe c x w) = settings w.
Proof.
  unfold subscribe. by destruct (promises w !! c) as [[reactions|v|]|].
Qed.

Lemma settings_resolveFalse (w : World) :
  settings (resolveFalse w) = settings w.
Proof.
  unfold resolveFalse, fulfil. destruct (resolve (vars w)) as [c|]; [|done].
  by destruct (promises w !! c) as [[reactions|v|]|].
Qed.

Lemma settings_awaitBlocking (w : World) :
  settings (awaitBlocking w) = settings w.
Proof.
  unfold awaitBlocking.
  assert (H : settings (getPendingModules (update (set_timeout true) w)).1
              = settings w).
  { unfold getPendingModules. simpl. destruct (server (vars w)) eqn:Hs.
    - destruct (pendingDev _ _); unfold settings; simpl; by rewrite Hs.
    - unfold settings. simpl. by rewrite Hs. }
  destruct (getPendingModules (update (set_timeout true) w)) as [w2 p].
  simpl in H.
  set (r := length (rounds w)).
  set (w3 := set_rounds _ w2).
  assert (H4 : settings
                 match promise (vars w) with
                 | Some c => subscribe c (OnAny r) w3
                 | None => enqueue (AnyElement r VNull) w3
                 end = settings w).
  { destruct (promise (vars w)); [by rewrite settings_subscribe|done]. }
  destruct p; try done.
Qed.

Lemma settings_awaitResolve (id : option string) (awaited : bool)
    (w : World) :
  settings (awaitResolve id awaited w) = settings w.
Proof.
  unfold awaitResolve.
  set (w2 := match id with Some _ => _ | None => _ end).
  assert (H2 : settings w2 = settings w).
  { unfold w2. by destruct id as [id|]; [destruct (Str.truthy id)|]. }
  destruct (promise (vars w2)) as [c|]; [done|].
  by rewrite settings_subscribe, settings_awaitBlocking.
Qed.

Lemma settings_run (j : Job) (w : World) :
  settings (run cacheFile j w) = settings w.
Proof.
  destruct j as [r v|r|r v|r|r n ok|c k aw|c k aw ok|c k aw|c k aw v|c k o];
    simpl.
  - unfold settleAny. destruct (rounds _ !! r) as [x|]; [|done].
    by destruct (anySettled x).
  - done.
  - destruct (truthy v);
      [apply settings_awaitBlocking | apply settings_resolveFalse].
  - unfold scan. destruct (context (vars w)) eqn:Hc; [|done].
    destruct (pendingBuild _ _) as [modules|]; [|done].
    destruct modules as [|m modules]; unfold settings; simpl; by rewrite Hc.
  - done.
  - done.
  - destruct ok; [|by destruct aw]. unfold finalize.
    by destruct (server (vars w) && needsTouch (vars w)), aw.
  - apply settings_subscribe.
  - by destruct aw.
  - by destruct o.
Qed.

(** The barrier leaves the settings and the registry alone; the hooks of
    the configuration and [resolveId] never remove a virtual module. *)
Lemma registry_step (w : World) (e : Event) (key : string) :
  is_Some (tempFiles (vars w) !! key) →
  is_Some (tempFiles (vars (step options vuetifyBase cwd cacheFile w e))
             !! key).
Proof.
  intros H.
  assert (Hkeep : ∀ w', settings w' = settings w →
                        is_Some (tempFiles (vars w') !! key)).
  { intros w' [= _ _ _ ->]. done. }
  destruct e as [| |root|h|code id|source importer|i resolution|
                 | |r|r ok|i ok]; simpl; try done.
  - unfold buildStart. by destruct (server (vars w)).
  - unfold configResolved. destruct (styles options); try done.
    by destruct (Path.isAbsolute _).
  - destruct (transform_begin options code id); [|done].
    apply Hkeep, settings_awaitResolve.
  - unfold resolveId.
    destruct (resolveId_begin options vuetifyBase cwd source importer);
      try done.
    apply Hkeep. apply (settings_awaitResolve None false w).
  - destruct (resolutions w !! i) as [pending|]; [|done].
    destruct pending; simpl; try done.
    + destruct resolution as [file|]; simpl; [|done].
      unfold registerFragment. by destruct (decide _).
    + destruct resolution as [file|]; simpl; [|done].
      destruct (decide (virtualKey vuetifyBase cwd file = key)) as [->|Hne].
      * by rewrite lookup_insert_eq.
      * by rewrite lookup_insert_ne.
  - destruct (queue w) as [|j q]; [done|]. apply Hkeep.
    by rewrite settings_run.
  - destruct (timeout (vars w) && idle w); [|done].
    apply Hkeep. by rewrite settings_resolveFalse.
  - destruct (probe <$> rounds w !! r) as [[]|]; try done.
    by destruct (idle w).
  - by destruct (probe <$> rounds w !! r) as [[]|].
  - by destruct (writes w !! i) as [[[c k] aw]|].
Qed.

(** X21: a virtual module that is registered stays registered: whatever
    happens afterwards, [load] of its id returns a text. *)
Theorem registered_stays_loadable (w : World) (es : list Event)
    (key query : string) :
  Str.one_line key = true → queryFree key = true →
  Re.query_tail query = true →
  is_Some (tempFiles (vars w) !! key) →
  ∃ contents,
    load (vars (steps options vuetifyBase cwd cacheFile w es))
      (Re.virtual_prefix +:+ key +:+ query)
    = Returns (Text contents).
Proof.
  intros Hl Hq Hquery Hkey.
  assert (is_Some (tempFiles
                     (vars (steps options vuetifyBase cwd cacheFile w es))
                     !! key)) as [contents Hc].
  { revert w Hkey. induction es as [|e es IH]; intros w Hkey; [done|].
    simpl. by apply IH, registry_step. }
  exists contents. rewrite load_key by done. by rewrite Hc.
Qed.

End SettingsSteps.

Lemma registered_stays_loadable_witness :
  ∃ contents,
    load (vars (steps configuredOptions "/node_modules/vuetify" "/app"
                  "/app/.cache/vuetify/styles.scss"
                  (steps configuredOptions "/node_modules/vuetify" "/app"
                     "/app/.cache/vuetify/styles.scss" (boot noModules)
                     [ResolveId "vuetify/styles" None;
                      HostResolved 0
                        (Some "/node_modules/vuetify/lib/styles/main.sass")])
                  [ConfigResolved "/app"; Tick; Watchdog]))
      (Re.virtual_prefix +:+ "styles/main.sass" +:+ "?direct")
    = Returns (Text contents).
Proof.
  apply (registered_stays_loadable configuredOptions "/node_modules/vuetify"
           "/app" "/app/.cache/vuetify/styles.scss"
           (steps configuredOptions "/node_modules/vuetify" "/app"
              "/app/.cache/vuetify/styles.scss" (boot noModules)
              [ResolveId "vuetify/styles" None;
               HostResolved 0
                 (Some "/node_modules/vuetify/lib/styles/main.sass")])
           [ConfigResolved "/app"; Tick; Watchdog]
           "styles/main.sass" "?direct"); try reflexivity.
  vm_compute. by eexists.
Defined.

(** ** The timer of a pending cycle *)

Lemma pendingAt_subscribe (c c' : nat) (x : Reaction) (w : World) :
  pendingAt (subscribe c x w) c' → pendingAt w c'.
Proof.
  unfold subscribe, pendingAt.
  destruct (promises w !! c) as [[reactions|v|]|] eqn:Hc; try done. simpl.
  destruct (decide (c' = c)) as [->|Hne]; [by eauto|].
  by rewrite list_lookup_insert_ne by done.
Qed.

Lemma pendingAt_fulfil (c c' : nat) (v : Value) (w : World) :
  pendingAt (fulfil c v w) c' → pendingAt w c' ∧ (pendingAt w c → c' ≠ c).
Proof.
  unfold fulfil, pendingAt.
  destruct (promises w !! c) as [[reactions|v'|]|] eqn:Hc; simpl;
    try (intros H; split; [done|]; by intros [? ?]).
  destruct (decide (c' = c)) as [->|Hne].
  - rewrite list_lookup_insert_eq by by eapply lookup_lt_Some. by intros [? ?].
  - by rewrite list_lookup_insert_ne by done.
Qed.

Lemma armed_frame (w w' : World) :
  (∀ c, pendingAt w' c → pendingAt w c) →
  (timeout (vars w) = true → timeout (vars w') = true) →
  resolve (vars w') = resolve (vars w) →
  armed w → armed w'.
Proof.
  intros Hp Ht Hr H c Hc. destruct (H c (Hp c Hc)) as [H1 H2].
  rewrite Hr. auto.
Qed.

Ltac still H := eapply armed_frame; [..|exact H]; try done.

Lemma armed_subscribe (c : nat) (x : Reaction) (w : World) :
  armed w → armed (subscribe c x w).
Proof.
  intros H. still H.
  - intros c'. apply pendingAt_subscribe.
  - by rewrite subscribe_vars.
  - by rewrite subscribe_vars.
Qed.

Lemma fulfil_vars (c : nat) (v : Value) (w : World) :
  vars (fulfil c v w) = vars w.
Proof. unfold fulfil. by destruct (promises w !! c) as [[]|]. Qed.

Lemma armed_resolveFalse (w : World) : armed w → armed (resolveFalse w).
Proof.
  intros H. unfold resolveFalse. destruct (resolve (vars w)) as [c|]; [|done].
  still H; rewrite ?fulfil_vars; try done.
  intros c' Hc'. by apply pendingAt_fulfil in Hc' as [? _].
Qed.

Lemma awaitBlocking_timer (w : World) :
  timeout (vars (awaitBlocking w)) = true
  ∧ resolve (vars (awaitBlocking w)) = resolve (vars w)
  ∧ ∀ c, pendingAt (awaitBlocking w) c → pendingAt w c.
Proof.
  unfold awaitBlocking.
  destruct (getPendingModules_frame (update (set_timeout true) w))
    as (Gp & _ & _ & _ & _ & _ & _ & Gv).
  destruct (getPendingModules _) as [w2 p]. simpl in Gp, Gv.
  apply (f_equal timeout) in Gv as G1.
  apply (f_equal resolve) in Gv as G2. simpl in G1, G2.
  set (w3 := set_rounds _ w2).
  assert (Hp3 : ∀ c, pendingAt w3 c → pendingAt w c).
  { intros c. unfold pendingAt, w3. simpl. by rewrite Gp. }
  simpl.
  assert (H4 : ∃ w4,
             match promise (vars w) with
             | Some c => subscribe c (OnAny (length (rounds w))) w3
             | None => enqueue (AnyElement (length (rounds w)) VNull) w3
             end = w4
             ∧ vars w4 = vars w2 ∧ ∀ c, pendingAt w4 c → pendingAt w c).
  { eexists. split; [done|]. destruct (promise (vars w)).
    - rewrite subscribe_vars. split; [done|].
      intros c Hc. by apply pendingAt_subscribe, Hp3 in Hc.
    - done. }
  destruct H4 as (w4 & -> & Hv & Hp4).
  destruct p; simpl; by rewrite Hv.
Qed.

Lemma armed_awaitBlocking (w : World) : armed w → armed (awaitBlocking w).
Proof.
  intros H. destruct (awaitBlocking_timer w) as (Ht & Hr & Hp). by still H.
Qed.

Lemma armed_awaitResolve (id : option string) (awaited : bool) (w : World) :
  Single w → armed w → armed (awaitResolve id awaited w).
Proof.
  intros Hs H. unfold awaitResolve.
  set (w2 := match id with Some _ => _ | None => _ end).
  assert (H2 : armed w2 ∧ Single w2).
  { unfold w2. split.
    - by destruct id as [id|]; [destruct (Str.truthy id)|]; still H.
    - destruct id as [id|]; [destruct (Str.truthy id)|];
        (eapply Single_frame; [..|exact Hs]; reflexivity). }
  destruct H2 as [H2 Hs2]. clearbody w2.
  destruct (promise (vars w2)) as [c|] eqn:Hvar.
  - by still H2.
  - set (w3 := update _ _).
    destruct (awaitBlocking_timer w3) as (Ht & Hr & Hp).
    intros c Hc. rewrite subscribe_vars. rewrite Ht, Hr. split; [done|].
    apply pendingAt_subscribe, Hp in Hc as [rs Hc]. unfold w3 in Hc.
    simpl in Hc. apply lookup_app_Some in Hc as [Hc|[Hlen Hc]].
    + destruct (single_pending _ Hs2 c _ Hc). congruence.
    + apply lookup_lt_Some in Hc as Hlt. simpl in Hlt. simpl. f_equal. lia.
Qed.

Lemma armed_run (cacheFile : string) (j : Job) (q : list Job) (w : World) :
  Single w → armed w → queue w = j :: q →
  armed (run cacheFile j (set_queue q w)).
Proof.
  intros Hs H Hq.
  assert (H' : armed (set_queue q w)) by by still H.
  destruct j as [r v|r|r v|r|r n ok|c k aw|c k aw ok|c k aw|c k aw v|c k o];
    simpl.
  - unfold settleAny. destruct (rounds _ !! r) as [x|]; [|done].
    destruct (anySettled x); [done|]. by still H'.
  - done.
  - destruct (truthy v).
    + by apply armed_awaitBlocking.
    + by apply armed_resolveFalse.
  - unfold scan. simpl. destruct (context (vars w)); [|by still H'].
    destruct (pendingBuild _ _) as [modules|]; [|by still H'].
    destruct modules as [|m modules]; by still H'.
  - by still H'.
  - intros c' [rs Hc']. simpl in Hc'.
    assert (Hnone : existsb isPending (promises w) = false).
    { apply (single_settled _ Hs). unfold ending. rewrite Hq. simpl. lia. }
    by apply not_pending_lookup with (c := c') (reactions := rs) in Hnone.
  - destruct ok.
    + unfold finalize.
      destruct (server (vars w) && needsTouch (vars w)), aw; by still H'.
    + destruct aw; by still H'.
  - by apply armed_subscribe.
  - destruct aw; by still H'.
  - destruct o; by still H'.
Qed.

Section ArmedSteps.

Variable options : Options.
Variable vuetifyBase cwd cacheFile : string.

Lemma armed_boot (h : Host) : armed (boot h).
Proof. by intros c [rs Hc]. Qed.

Lemma armed_step (w : World) (e : Event) :
  Single w → armed w → armed (step options vuetifyBase cwd cacheFile w e).
Proof.
  intros Hs H. destruct e as [| |root|h|code id|source importer|i resolution|
                              | |r|r ok|i ok]; simpl.
  - by still H.
  - unfold buildStart, update. destruct (server (vars w)); by still H.
  - unfold configResolved, update. destruct (styles options); try by still H.
    destruct (Path.isAbsolute _); by still H.
  - by still H.
  - destruct (transform_begin options code id); [|done].
    by apply armed_awaitResolve.
  - unfold resolveId.
    destruct (resolveId_begin options vuetifyBase cwd source importer);
      try by still H.
    pose proof (armed_awaitResolve None false w Hs H) as H'. by still H'.
  - destruct (resolutions w !! i) as [pending|]; [|done].
    destruct pending; simpl; try by still H.
    + destruct resolution as [file|]; simpl; [|by still H].
      unfold registerFragment. destruct (decide _); by still H.
    + destruct resolution as [file|]; simpl; by still H.
  - destruct (queue w) as [|j q] eqn:Hq; [done|]. by apply armed_run.
  - destruct (timeout (vars w) && idle w); [|done].
    unfold resolveFalse. simpl.
    destruct (resolve (vars w)) as [c|] eqn:Hr.
    + intros c' Hc'. apply pendingAt_fulfil in Hc' as [Hc' Hne].
      simpl in Hc', Hne. destruct (H c' Hc') as [_ Hres].
      assert (c' = c) as -> by congruence. by destruct (Hne Hc').
    + intros c' Hc'. destruct (H c' Hc'). congruence.
  - destruct (probe <$> rounds w !! r) as [[]|]; try done.
    destruct (idle w); [|done]. by still H.
  - by destruct (probe <$> rounds w !! r) as [[]|].
  - by destruct (writes w !! i) as [[[c k] aw]|].
Qed.

Lemma armed_steps (h : Host) (es : list Event) :
  armed (steps options vuetifyBase cwd cacheFile (boot h) es).
Proof.
  induction es as [|e es IH] using rev_ind; [apply armed_boot|].
  unfold steps in *. rewrite foldl_snoc. apply armed_step; [|done].
  apply (Single_steps options vuetifyBase cwd cacheFile), Single_boot.
Qed.

(** X22: while the promise of a settle cycle is pending, the timer of
    [awaitBlocking] is pending and [resolve] is the resolving function of
    this promise; so, in any state the plugin can reach, when the queue is
    empty the timer can fire, and it then logs the fallback and fulfils the
    promise with [false], which queues the reactions of the promise. *)
Theorem watchdog_ends_cycle (h : Host) (es : list Event) (c : nat)
    (reactions : list Reaction) :
  promises (steps options vuetifyBase cwd cacheFile (boot h) es) !! c
  = Some (Pending reactions) →
  idle (steps options vuetifyBase cwd cacheFile (boot h) es) = true →
  promises (steps options vuetifyBase cwd cacheFile (boot h)
              (es ++ [Watchdog])) !! c
  = Some (Fulfilled VFalse)
  ∧ queue (steps options vuetifyBase cwd cacheFile (boot h)
             (es ++ [Watchdog]))
    = map (react c VFalse) reactions
  ∧ trace (steps options vuetifyBase cwd cacheFile (boot h)
             (es ++ [Watchdog]))
    = FallbackTimeout
        (blockingModules
           (vars (steps options vuetifyBase cwd cacheFile (boot h) es)))
        (pendingModules
           (vars (steps options vuetifyBase cwd cacheFile (boot h) es)))
      :: trace (steps options vuetifyBase cwd cacheFile (boot h) es).
Proof.
  intros Hc Hidle. unfold steps. rewrite foldl_snoc.
  fold (steps options vuetifyBase cwd cacheFile (boot h) es).
  pose proof (armed_steps h es) as H.
  set (w := steps options vuetifyBase cwd cacheFile (boot h) es) in *.
  destruct (H c) as [Ht Hr]; [by eexists|].
  simpl. rewrite Ht, Hidle. simpl. unfold resolveFalse. simpl. rewrite Hr.
  unfold fulfil. simpl. rewrite Hc. simpl.
  rewrite list_lookup_insert_eq by by eapply lookup_lt_Some.
  unfold idle in Hidle. destruct (queue w); done.
Qed.

End ArmedSteps.

Lemma watchdog_ends_cycle_witness :
  promises (steps exposeOptions "/node_modules/vuetify" "/app"
              "/app/.cache/vuetify/styles.scss" (boot noModules)
              ([BuildStart;
                Transform "@use 'vuetify/styles';" "/app/src/main.scss"]
               ++ [Watchdog])) !! 0
  = Some (Fulfilled VFalse)
  ∧ queue (steps exposeOptions "/node_modules/vuetify" "/app"
             "/app/.cache/vuetify/styles.scss" (boot noModules)
             ([BuildStart;
               Transform "@use 'vuetify/styles';" "/app/src/main.scss"]
              ++ [Watchdog]))
    = map (react 0 VFalse) [OnAny 0; OnFirst 0 true]
  ∧ trace (steps exposeOptions "/node_modules/vuetify" "/app"
             "/app/.cache/vuetify/styles.scss" (boot noModules)
             ([BuildStart;
               Transform "@use 'vuetify/styles';" "/app/src/main.scss"]
              ++ [Watchdog]))
    = FallbackTimeout
        (blockingModules
           (vars (steps exposeOptions "/node_modules/vuetify" "/app"
                    "/app/.cache/vuetify/styles.scss" (boot noModules)
                    [BuildStart;
                     Transform "@use 'vuetify/styles';"
                       "/app/src/main.scss"])))
        (pendingModules
           (vars (steps exposeOptions "/node_modules/vuetify" "/app"
                    "/app/.cache/vuetify/styles.scss" (boot noModules)
                    [BuildStart;
                     Transform "@use 'vuetify/styles';"
                       "/app/src/main.scss"])))
      :: trace (steps exposeOptions "/node_modules/vuetify" "/app"
                  "/app/.cache/vuetify/styles.scss" (boot noModules)
                  [BuildStart;
                   Transform "@use 'vuetify/styles';" "/app/src/main.scss"]).
Proof.
  apply (watchdog_ends_cycle exposeOptions "/node_modules/vuetify" "/app"
           "/app/.cache/vuetify/styles.scss" noModules
           [BuildStart;
            Transform "@use 'vuetify/styles';" "/app/src/main.scss"]
           0 [OnAny 0; OnFirst 0 true]); by vm_compute.
Defined.

(** ** Outside mode [expose] *)

Section InertSteps.

Variable options : Options.
Variable vuetifyBase cwd cacheFile : string.
Hypothesis Hmode : styles options ≠ StylesExpose.

Lemma Inert_boot (h : Host) : Inert (boot h).
Proof. by constructor. Qed.

Lemma Inert_step (w : World) (e : Event) :
  Inert w → Inert (step options vuetifyBase cwd cacheFile w e).
Proof.
  intros [H1 H2 H3 H4 H5 H6 H7 H8 H9 H10].
  destruct e as [| |root|h|code id|source importer|i resolution|
                 | |r|r ok|i ok]; simpl.
  - by constructor.
  - unfold buildStart, update. by destruct (server (vars w)); constructor.
  - unfold configResolved, update.
    destruct (styles options); try by constructor.
    by destruct (Path.isAbsolute _); constructor.
  - by constructor.
  - unfold transform_begin.
    destruct (styles options) eqn:Hs; try by constructor.
  - unfold resolveId, resolveId_begin.
    destruct (isStyleEntry vuetifyBase cwd source importer).
    + destruct (styles options) eqn:Hs; try done; constructor; simpl;
        rewrite ?forallb_app, ?H9; done.
    + destruct (Str.startsWith "/plugin-vuetify:" source);
        [by constructor|].
      by destruct (Str.startsWith "/@id/__x00__plugin-vuetify:" source);
        constructor.
  - destruct (resolutions w !! i) as [pending|] eqn:Hi; [|by constructor].
    assert (Hd : forallb (fun x => negb (isExpose x))
                   (delete i (resolutions w)) = true).
    { rewrite forallb_forall in *. intros x Hx. apply H9.
      apply list_elem_of_In in Hx. apply list_elem_of_In.
      by eapply list_elem_of_delete_inv. }
    assert (He : isExpose pending = false).
    { rewrite forallb_forall in H9. apply negb_true_iff, H9.
      apply list_elem_of_In. by eapply list_elem_of_lookup_2. }
    destruct pending; simpl; try done; try by constructor.
    destruct resolution as [file|]; simpl; by constructor.
  - rewrite H2. by constructor.
  - rewrite H5. by constructor.
  - rewrite H3. by constructor.
  - rewrite H3. by constructor.
  - rewrite H4. by constructor.
Qed.

Lemma Inert_steps (h : Host) (es : list Event) :
  Inert (steps options vuetifyBase cwd cacheFile (boot h) es).
Proof.
  induction es as [|e es IH] using rev_ind; [apply Inert_boot|].
  unfold steps in *. rewrite foldl_snoc. by apply Inert_step.
Qed.

End InertSteps.

(** X23: unless [options.styles] is ['expose'], nothing of the barrier ever
    happens: no settle cycle is made, no job is queued, no timer is started,
    no fragment is registered, and the only thing the plugin does is to
    return from [resolveId]. *)
Theorem inert_outside_expose (options : Options)
    (vuetifyBase cwd cacheFile : string) (h : Host) (es : list Event) :
  styles options ≠ StylesExpose →
  promises (steps options vuetifyBase cwd cacheFile (boot h) es) = []
  ∧ queue (steps options vuetifyBase cwd cacheFile (boot h) es) = []
  ∧ files (vars (steps options vuetifyBase cwd cacheFile (boot h) es)) = ∅
  ∧ timeout (vars (steps options vuetifyBase cwd cacheFile (boot h) es))
    = false
  ∧ ∀ e, e ∈ trace (steps options vuetifyBase cwd cacheFile (boot h) es) →
         ∃ result, e = ResolveIdReturned result.
Proof.
  intros Hmode.
  destruct (Inert_steps options vuetifyBase cwd cacheFile Hmode h es)
    as [H1 H2 H3 H4 H5 H6 H7 H8 H9 H10].
  split_and!; try done.
  intros e He. rewrite forallb_forall in H10.
  apply list_elem_of_In, H10 in He. destruct e; try done. by eexists.
Qed.

Lemma inert_outside_expose_witness :
  promises (steps configuredOptions "/node_modules/vuetify" "/app"
              "/app/.cache/vuetify/styles.scss" (boot noModules) settling)
  = []
  ∧ queue (steps configuredOptions "/node_modules/vuetify" "/app"
             "/app/.cache/vuetify/styles.scss" (boot noModules) settling)
    = []
  ∧ files (vars (steps configuredOptions "/node_modules/vuetify" "/app"
                   "/app/.cache/vuetify/styles.scss" (boot noModules)
                   settling)) = ∅
  ∧ timeout (vars (steps configuredOptions "/node_modules/vuetify" "/app"
                     "/app/.cache/vuetify/styles.scss" (boot noModules)
                     settling)) = false
  ∧ ∀ e, e ∈ trace (steps configuredOptions "/node_modules/vuetify" "/app"
                      "/app/.cache/vuetify/styles.scss" (boot noModules)
                      settling) →
         ∃ result, e = ResolveIdReturned result.
Proof.
  apply (inert_outside_expose configuredOptions "/node_modules/vuetify" "/app"
           "/app/.cache/vuetify/styles.scss" noModules settling).
  discriminate.
Defined.

(** ** After a rejected call of [writeStyles] *)

Lemma Stuck_frame (c : nat) (l : list nat) (w w' : World) :
  promise (vars w') = promise (vars w) → promises w' = promises w →
  finishers (queue w') = finishers (queue w) → writes w' = writes w →
  writtenCycles (trace w') = writtenCycles (trace w) →
  Stuck c l w → Stuck c l w'.
Proof.
  intros Hv Hp Hq Hw Ht [H1 H2 H3 H4]. unfold ending in *.
  constructor; unfold ending; rewrite ?Hv, ?Hp, ?Hq, ?Hw, ?Ht; done.
Qed.

Ltac stuck H := eapply Stuck_frame; [..|exact H]; try reflexivity.

Lemma Stuck_enqueue (c : nat) (l : list nat) (j : Job) (w : World) :
  finishing j = false → Stuck c l w → Stuck c l (enqueue j w).
Proof.
  intros Hj H. stuck H. simpl. rewrite finishers_app. simpl. rewrite Hj. lia.
Qed.

Lemma Stuck_subscribe (c : nat) (l : list nat) (c' : nat) (x : Reaction)
    (w : World) :
  isOnFirst x = false → Stuck c l w → Stuck c l (subscribe c' x w).
Proof.
  intros Hx H. unfold subscribe.
  destruct (promises w !! c') as [[reactions|v|]|] eqn:Hc; try done.
  - by apply not_pending_lookup with (c := c') (reactions := reactions)
      in Hc; [|apply (stuck_settled _ _ _ H)].
  - apply Stuck_enqueue; [|done]. by destruct x.
Qed.

Lemma Stuck_resolveFalse (c : nat) (l : list nat) (w : World) :
  Stuck c l w → resolveFalse w = w.
Proof.
  intros H. unfold resolveFalse, fulfil.
  destruct (resolve (vars w)) as [c'|]; [|done].
  destruct (promises w !! c') as [[reactions|v|]|] eqn:Hc; try done.
  by apply not_pending_lookup with (c := c') (reactions := reactions)
    in Hc; [|apply (stuck_settled _ _ _ H)].
Qed.

Lemma Stuck_awaitBlocking (c : nat) (l : list nat) (w : World) :
  Stuck c l w → Stuck c l (awaitBlocking w).
Proof.
  intros H. unfold awaitBlocking.
  destruct (getPendingModules_frame (update (set_timeout true) w))
    as (Gp & Gr & Gq & Gw & Gc & Gh & Gt & Gv).
  destruct (getPendingModules _) as [w2 p].
  simpl in Gp, Gr, Gq, Gw, Gc, Gh, Gt, Gv.
  apply (f_equal promise) in Gv as G1. simpl in G1.
  set (r := length (rounds w)).
  set (w3 := set_rounds _ w2).
  assert (H3 : Stuck c l w3).
  { stuck H; simpl; try done. by rewrite Gq. }
  simpl.
  assert (H4 : Stuck c l
                 match promise (vars w) with
                 | Some c' => subscribe c' (OnAny r) w3
                 | None => enqueue (AnyElement r VNull) w3
                 end).
  { destruct (promise (vars w)).
    - by apply Stuck_subscribe.
    - by apply Stuck_enqueue. }
  destruct p; try done. by apply Stuck_enqueue.
Qed.

Lemma Stuck_awaitResolve (c : nat) (l : list nat) (id : option string)
    (awaited : bool) (w : World) :
  Stuck c l w → Stuck c l (awaitResolve id awaited w).
Proof.
  intros H. unfold awaitResolve.
  set (w2 := match id with Some _ => _ | None => _ end).
  assert (H2 : Stuck c l w2).
  { unfold w2. destruct id as [id|]; [destruct (Str.truthy id)|]; stuck H. }
  rewrite (stuck_promise _ _ _ H2). by apply Stuck_enqueue.
Qed.

Lemma Stuck_run (cacheFile : string) (c : nat) (l : list nat) (j : Job)
    (q : list Job) (w : World) :
  Stuck c l w → queue w = j :: q →
  Stuck c l (run cacheFile j (set_queue q w)).
Proof.
  intros H Hq.
  assert (Hj : finishing j = false ∧ finishers q = 0).
  { pose proof (stuck_ending _ _ _ H) as He. unfold ending in He.
    rewrite Hq in He. simpl in He. destruct (finishing j); [lia|].
    split; [done|lia]. }
  destruct Hj as [Hj Hfin].
  assert (H' : Stuck c l (set_queue q w)).
  { stuck H. simpl. rewrite Hq. simpl. by rewrite Hj. }
  destruct j as [r v|r|r v|r|r n ok|c' k aw|c' k aw ok|c' k aw|c' k aw v|c' k o];
    try done; simpl.
  - unfold settleAny. destruct (rounds _ !! r) as [x|]; [|done].
    destruct (anySettled x); [done|]. apply Stuck_enqueue; [done|].
    stuck H'.
  - destruct (truthy v).
    + by apply Stuck_awaitBlocking.
    + by rewrite (Stuck_resolveFalse _ _ _ H').
  - unfold scan. simpl.
    assert (Hx : ∀ j, finishing j = false →
                 Stuck c l (enqueue j (set_probe r Returned (set_queue q w)))).
    { intros j Hj'. apply Stuck_enqueue; [done|]. stuck H'. }
    destruct (context (vars w)); [|by apply Hx].
    destruct (pendingBuild _ _) as [modules|]; [|by apply Hx].
    destruct modules as [|m modules].
    + apply Stuck_enqueue; [done|]. stuck H'.
    + stuck H'.
      match goal with
      | |- context [emits ?es ?w'] => apply (writtenCycles_emits es w')
      end.
      by apply (quiet_map (fun m => ContextLoad (Rollup.id m))).
  - apply Stuck_enqueue; [by destruct ok | done].
  - by apply Stuck_subscribe.
  - destruct aw; [|done]. by apply Stuck_enqueue.
  - destruct o; stuck H'.
Qed.

Section StuckSteps.

Variable options : Options.
Variable vuetifyBase cwd cacheFile : string.

Lemma Stuck_step (c : nat) (l : list nat) (w : World) (e : Event) :
  Stuck c l w → Stuck c l (step options vuetifyBase cwd cacheFile w e).
Proof.
  intros H. destruct e as [| |root|h|code id|source importer|i resolution|
                           | |r|r ok|i ok]; simpl.
  - stuck H.
  - unfold buildStart, update. destruct (server (vars w)); stuck H.
  - unfold configResolved, update. destruct (styles options); try by stuck H.
    destruct (Path.isAbsolute _); stuck H.
  - stuck H.
  - destruct (transform_begin options code id); [|done].
    by apply Stuck_awaitResolve.
  - unfold resolveId.
    destruct (resolveId_begin options vuetifyBase cwd source importer);
      try by stuck H.
    pose proof (Stuck_awaitResolve c l None false w H) as H'. stuck H'.
  - destruct (resolutions w !! i) as [pending|]; [|done].
    destruct pending; simpl; try by stuck H.
    + destruct resolution as [file|]; simpl; [|by stuck H].
      unfold registerFragment. destruct (decide _); stuck H.
    + destruct resolution as [file|]; simpl; stuck H.
  - destruct (queue w) as [|j q] eqn:Hq; [done|]. by apply Stuck_run.
  - destruct (timeout (vars w) && idle w); [|done].
    assert (H' : Stuck c l
                   (emit (FallbackTimeout (blockingModules (vars w))
                            (pendingModules (vars w)))
                      (update (set_timeout false) w))) by stuck H.
    by rewrite (Stuck_resolveFalse _ _ _ H').
  - destruct (probe <$> rounds w !! r) as [[]|]; try done.
    destruct (idle w); [|done]. apply Stuck_enqueue; [done|]. stuck H.
  - destruct (probe <$> rounds w !! r) as [[]|]; try done.
    apply Stuck_enqueue; [done|]. stuck H.
  - destruct (writes w !! i) as [[[c' k] aw]|] eqn:Hi; [|done].
    pose proof (stuck_ending _ _ _ H) as He. unfold ending in He.
    apply lookup_lt_Some in Hi. lia.
Qed.

Lemma Stuck_steps (c : nat) (l : list nat) (w : World) (es : list Event) :
  Stuck c l w → Stuck c l (steps options vuetifyBase cwd cacheFile w es).
Proof.
  revert w. induction es as [|e es IH]; intros w H; simpl; [done|].
  by apply IH, Stuck_step.
Qed.

(** X24: when the call of [writeStyles] is rejected, the end of
    [awaitResolve] is skipped and [promise] keeps the promise of the cycle
    that is over: from then on, whatever happens, [promise] never changes,
    so no settle cycle is started, and [writeStyles] is never called again. *)
Theorem rejected_write_sticks (h : Host) (es later : list Event)
    (c k : nat) (awaited : bool) (q : list Job) :
  queue (steps options vuetifyBase cwd cacheFile (boot h) es)
  = Written c k awaited false :: q →
  is_Some (promise
             (vars (steps options vuetifyBase cwd cacheFile (boot h) es)))
  ∧ promise (vars (steps options vuetifyBase cwd cacheFile (boot h)
                     (es ++ Tick :: later)))
    = promise (vars (steps options vuetifyBase cwd cacheFile (boot h) es))
  ∧ writtenCycles
      (trace (steps options vuetifyBase cwd cacheFile (boot h)
                (es ++ Tick :: later)))
    = writtenCycles
        (trace (steps options vuetifyBase cwd cacheFile (boot h) es)).
Proof.
  intros Hq.
  pose proof (Single_steps options vuetifyBase cwd cacheFile (boot h) es
                (Single_boot h)) as Hs.
  unfold steps at 2 4. rewrite foldl_app. simpl foldl.
  fold (steps options vuetifyBase cwd cacheFile (boot h) es).
  set (w := steps options vuetifyBase cwd cacheFile (boot h) es) in *.
  assert (He : 1 ≤ ending w).
  { unfold ending. rewrite Hq. simpl. lia. }
  destruct (promise (vars w)) as [c0|] eqn:Hvar;
    [|pose proof (single_idle _ Hs Hvar); lia].
  split; [done|].
  assert (H : Stuck c0 (writtenCycles (trace w))
                (step options vuetifyBase cwd cacheFile w Tick)).
  { simpl. rewrite Hq. simpl.
    pose proof (single_ending _ Hs) as Hle. unfold ending in Hle.
    rewrite Hq in Hle. simpl in Hle.
    assert (H0 : Stuck c0 (writtenCycles (trace w)) (set_queue q w)).
    { constructor; unfold ending; simpl; try done.
      - by apply (single_settled _ Hs).
      - lia. }
    destruct awaited; [|done]. by apply Stuck_enqueue. }
  apply (Stuck_steps _ _ _ later) in H.
  fold (steps options vuetifyBase cwd cacheFile
          (step options vuetifyBase cwd cacheFile w Tick) later).
  split; [apply (stuck_promise _ _ _ H) | apply (stuck_written _ _ _ H)].
Qed.

End StuckSteps.

Lemma rejected_write_sticks_witness :
  is_Some (promise
             (vars (steps exposeOptions "/node_modules/vuetify" "/app"
                      "/app/.cache/vuetify/styles.scss" (boot noModules)
                      [BuildStart;
                       Transform "@use 'vuetify';" "/app/src/main.scss";
                       Watchdog; Tick; Tick; Tick; WriteSettled 0 false])))
  ∧ promise (vars (steps exposeOptions "/node_modules/vuetify" "/app"
                     "/app/.cache/vuetify/styles.scss" (boot noModules)
                     ([BuildStart;
                       Transform "@use 'vuetify';" "/app/src/main.scss";
                       Watchdog; Tick; Tick; Tick; WriteSettled 0 false]
                      ++ Tick
                         :: [Tick;
                             Transform "@use 'vuetify';" "/app/src/b.scss";
                             Tick; Tick; Tick])))
    = promise (vars (steps exposeOptions "/node_modules/vuetify" "/app"
                       "/app/.cache/vuetify/styles.scss" (boot noModules)
                       [BuildStart;
                        Transform "@use 'vuetify';" "/app/src/main.scss";
                        Watchdog; Tick; Tick; Tick; WriteSettled 0 false]))
  ∧ writtenCycles
      (trace (steps exposeOptions "/node_modules/vuetify" "/app"
                "/app/.cache/vuetify/styles.scss" (boot noModules)
                ([BuildStart;
                  Transform "@use 'vuetify';" "/app/src/main.scss";
                  Watchdog; Tick; Tick; Tick; WriteSettled 0 false]
                 ++ Tick
                    :: [Tick;
                        Transform "@use 'vuetify';" "/app/src/b.scss";
                        Tick; Tick; Tick])))
    = writtenCycles
        (trace (steps exposeOptions "/node_modules/vuetify" "/app"
                  "/app/.cache/vuetify/styles.scss" (boot noModules)
                  [BuildStart;
                   Transform "@use 'vuetify';" "/app/src/main.scss";
                   Watchdog; Tick; Tick; Tick; WriteSettled 0 false])).
Proof.
  apply (rejected_write_sticks exposeOptions "/node_modules/vuetify" "/app"
           "/app/.cache/vuetify/styles.scss" noModules
           [BuildStart; Transform "@use 'vuetify';" "/app/src/main.scss";
            Watchdog; Tick; Tick; Tick; WriteSettled 0 false]
           [Tick; Transform "@use 'vuetify';" "/app/src/b.scss";
            Tick; Tick; Tick]
           0 0 true []).
  vm_compute. reflexivity.
Defined.
